(** * enhanced_containers: the no-swap page tracker and the secure allocators

    A shallow embedding of
      - [src/no_swap_allocator.cpp]  (the page lock tracker and its platform layer),
      - [include/enhanced_containers/no_swap_allocator.h]
        (the serialized / unserialized no-swap allocator adapters),
      - [include/enhanced_containers/zero_on_release_allocator.h],
      - [include/enhanced_containers/secure_allocator.h] (their composition),
    followed by the properties of the specification that concern them.

    Addresses and sizes are 64-bit machine words carried in [Z]; every
    arithmetic operation of the source on them is followed by its wrap-around.
    The operating system and the upstream allocator are collaborators: the
    first is a record of oracles, the second an arbitrary [allocator].

    Also embedded: [allocate_at_least] of the unserialized adapter, the
    unit-test helpers [clear_pages] and [is_lock_held], and the arena of the
    tests ([test/mock_memory.h], [test/mock_memory.cpp]).

    Not modelled: the Windows platform layer, the singletons' construction,
    and the gmock-based test allocators. *)

From Stdlib Require Import ZArith Lia.
From stdpp Require Import gmap list strings.

Open Scope Z_scope.

(** ** Machine words *)

(** [std::size_t], [std::uintptr_t] and pointer arithmetic on [std::byte*]. *)
Definition wrap64 (x : Z) : Z := x mod 2 ^ 64.

(** [std::uint32_t], the mapped type of [_page_ref_count]. *)
Definition wrap32 (x : Z) : Z := x mod 2 ^ 32.

(** ** Exceptions and results *)

Inductive exn : Type :=
| system_error (code : Z) (what : string)
| runtime_error (what : string).

Inductive result (A : Type) : Type :=
| Returned (a : A)
| Thrown (e : exn).

Arguments Returned {A} a.
Arguments Thrown {A} e.

(** ** The world the code runs in *)

(** Calls that leave the core: the two OS primitives, the byte fill of
    [std::fill], and the calls a monitored upstream allocator receives. *)
Inductive event : Type :=
| ev_mlock (addr len : Z)
| ev_munlock (addr len : Z)
| ev_fill (first last value : Z)
| ev_allocate (n : Z)
| ev_deallocate (p n : Z).

(** [_page_ref_count] and [_mutex] are the members of the singleton
    [no_swap_allocator_state]; [locked_pages] is the set of pages the OS
    currently holds pinned; [memory] maps a byte address to its content;
    [history] lists the calls made so far, each with the memory contents at
    the time the call returned. *)
Record world : Type := World {
  _page_ref_count : gmap Z Z;
  _mutex : bool;
  locked_pages : gset Z;
  memory : Z -> Z;
  history : list (event * (Z -> Z))
}.

Definition set_page_ref_count (m : gmap Z Z) (w : world) : world :=
  World m (_mutex w) (locked_pages w) (memory w) (history w).

Definition set_mutex (b : bool) (w : world) : world :=
  World (_page_ref_count w) b (locked_pages w) (memory w) (history w).

Definition set_locked_pages (s : gset Z) (w : world) : world :=
  World (_page_ref_count w) (_mutex w) s (memory w) (history w).

Definition set_memory (m : Z -> Z) (w : world) : world :=
  World (_page_ref_count w) (_mutex w) (locked_pages w) m (history w).

Definition record_call (e : event) (w : world) : world :=
  World (_page_ref_count w) (_mutex w) (locked_pages w) (memory w)
        (history w ++ [(e, memory w)]).

Definition events (w : world) : list event := fst <$> history w.

(** The platform layer's view of the operating system: the page size
    ([sysconf(_SC_PAGESIZE)]), the return codes of [mlock] and [munlock] and
    the value of [errno], each free to depend on everything that happened
    before the call. *)
Record platform : Type := Platform {
  get_page_size : Z;
  mlock : world -> Z -> Z -> Z;
  munlock : world -> Z -> Z -> Z;
  errno : world -> Z
}.

(** An allocator in the sense of the standard allocator contract.  [None] is
    a call that does not return. *)
Record allocator : Type := Allocator {
  allocate : world -> Z -> option (world * result Z);
  deallocate : world -> Z -> Z -> option (world * result unit)
}.

(** Sequencing of calls that may throw or fail to return. *)
Definition bind {A B : Type} (c : option (world * result A))
    (k : world -> A -> option (world * result B)) : option (world * result B) :=
  match c with
  | None => None
  | Some (w, Thrown e) => Some (w, Thrown e)
  | Some (w, Returned a) => k w a
  end.

(** ** [std::align] and [std::fill]

    Both belong to the C++ standard library.  [std_align] follows libstdc++:
    [aligned = (intptr - 1 + align) & -align] on [uintptr_t], a null pointer
    (address 0) when the aligned storage does not fit into [space]. *)
Definition std_align (alignment size ptr space : Z) : Z :=
  if space <? size then 0
  else
    let aligned := Z.land (wrap64 (ptr - 1 + alignment)) (wrap64 (- alignment)) in
    let diff := wrap64 (aligned - ptr) in
    if space - size <? diff then 0 else aligned.

(** [std::fill] over [std::uint8_t*]: [last - first] bytes, lowest address
    first. *)
Fixpoint fill_bytes (n : nat) (first value : Z) (m : Z -> Z) : Z -> Z :=
  match n with
  | O => m
  | S n' =>
      fill_bytes n' (wrap64 (first + 1)) value
                 (fun a => if a =? first then value else m a)
  end.

Definition std_fill (w : world) (first last value : Z) : world :=
  record_call (ev_fill first last value)
    (set_memory
       (fill_bytes (Z.to_nat (wrap64 (last - first))) first value (memory w)) w).

(** ** [no_swap_allocator.cpp] *)

Section NoSwapAllocatorState.

Context (P : platform).

(** The member [_page_size], initialised once from [get_page_size()]. *)
Definition _page_size : Z := get_page_size P.

(** [pin_memory]: [mlock], and a [std::system_error] carrying [errno] when
    it returns non-zero.  A successful [mlock] pins the page. *)
Definition pin_memory (w : world) (ptr len : Z) : world * result unit :=
  let r := mlock P w ptr len in
  if negb (r =? 0) then
    (record_call (ev_mlock ptr len) w,
     Thrown (system_error (errno P w) "pinning memory"))
  else
    (record_call (ev_mlock ptr len)
       (set_locked_pages ({[ ptr ]} ∪ locked_pages w) w),
     Returned tt).

(** [unpin_memory]: [munlock], likewise. *)
Definition unpin_memory (w : world) (ptr len : Z) : world * result unit :=
  let r := munlock P w ptr len in
  if negb (r =? 0) then
    (record_call (ev_munlock ptr len) w,
     Thrown (system_error (errno P w) "unpinning memory"))
  else
    (record_call (ev_munlock ptr len)
       (set_locked_pages (locked_pages w ∖ {[ ptr ]}) w),
     Returned tt).

(** [no_swap_allocator_state::to_page]. *)
Definition to_page (ptr : Z) : Z :=
  let fake_buffer_size := wrap64 (2 * _page_size) in
  let ptr2 := ptr in
  let page := std_align _page_size 1 ptr2 fake_buffer_size in
  if ptr <? page then wrap64 (page - _page_size) else page.

(** [std::unordered_map::emplace]: no effect on a key already present. *)
Definition emplace (page v : Z) (m : gmap Z Z) : gmap Z Z :=
  match m !! page with
  | Some _ => m
  | None => <[ page := v ]> m
  end.

(** The [while (page < bptr + len)] loop of [add_allocation]; one unit of
    [fuel] per evaluation of the loop condition. *)
Fixpoint add_allocation_loop (fuel : nat) (w : world) (page bound : Z)
    : option (world * result unit) :=
  match fuel with
  | O => None
  | S fuel' =>
      if page <? bound then
        match _page_ref_count w !! page with
        | None =>
            let w1 := set_page_ref_count (emplace page 1 (_page_ref_count w)) w in
            match pin_memory w1 page _page_size with
            | (w2, Thrown e) => Some (w2, Thrown e)
            | (w2, Returned _) =>
                add_allocation_loop fuel' w2 (wrap64 (page + _page_size)) bound
            end
        | Some c =>
            let w1 :=
              set_page_ref_count (<[ page := wrap32 (c + 1) ]> (_page_ref_count w)) w in
            add_allocation_loop fuel' w1 (wrap64 (page + _page_size)) bound
        end
      else Some (w, Returned tt)
  end.

(** [no_swap_allocator_state::add_allocation]. *)
Definition add_allocation (fuel : nat) (w : world) (ptr len : Z)
    : option (world * result unit) :=
  let bptr := ptr in
  let page := to_page bptr in
  add_allocation_loop fuel w page (wrap64 (bptr + len)).

(** The loop of [remove_allocation]. *)
Fixpoint remove_allocation_loop (fuel : nat) (w : world) (page bound : Z)
    : option (world * result unit) :=
  match fuel with
  | O => None
  | S fuel' =>
      if page <? bound then
        match _page_ref_count w !! page with
        | None =>
            Some (w, Thrown (runtime_error
                               "Releasing memory not tracked by no_swap_allocator"))
        | Some c =>
            let c' := wrap32 (c - 1) in
            let w1 := set_page_ref_count (<[ page := c' ]> (_page_ref_count w)) w in
            if c' =? 0 then
              match unpin_memory w1 page _page_size with
              | (w2, Thrown e) => Some (w2, Thrown e)
              | (w2, Returned _) =>
                  let w3 :=
                    set_page_ref_count (delete page (_page_ref_count w2)) w2 in
                  remove_allocation_loop fuel' w3 (wrap64 (page + _page_size)) bound
              end
            else
              remove_allocation_loop fuel' w1 (wrap64 (page + _page_size)) bound
        end
      else Some (w, Returned tt)
  end.

(** [no_swap_allocator_state::remove_allocation]. *)
Definition remove_allocation (fuel : nat) (w : world) (ptr len : Z)
    : option (world * result unit) :=
  let bptr := ptr in
  let page := to_page bptr in
  remove_allocation_loop fuel w page (wrap64 (bptr + len)).

(** [std::lock_guard lk{_mutex}]: taken on entry, released when the scope
    is left, by return or by exception. *)
Definition with_lock_guard (body : world -> option (world * result unit))
    (w : world) : option (world * result unit) :=
  match body (set_mutex true w) with
  | None => None
  | Some (w', r) => Some (set_mutex false w', r)
  end.

Definition serialized_add_allocation (fuel : nat) (w : world) (ptr len : Z)
    : option (world * result unit) :=
  with_lock_guard (fun w => add_allocation fuel w ptr len) w.

Definition serialized_remove_allocation (fuel : nat) (w : world) (ptr len : Z)
    : option (world * result unit) :=
  with_lock_guard (fun w => remove_allocation fuel w ptr len) w.

(** ** [no_swap_allocator.h]: the two adapters

    [sizeof_T] is [sizeof(T)], [A] the upstream allocator. *)
Definition unserialized_no_swap_allocator (fuel : nat) (sizeof_T : Z)
    (A : allocator) : allocator :=
  {| allocate w len :=
       bind (allocate A w len) (fun w1 ptr =>
       bind (add_allocation fuel w1 ptr (wrap64 (len * sizeof_T))) (fun w2 _ =>
       Some (w2, Returned ptr)));
     deallocate w ptr len :=
       bind (remove_allocation fuel w ptr (wrap64 (len * sizeof_T))) (fun w1 _ =>
       deallocate A w1 ptr len) |}.

Definition serialized_no_swap_allocator (fuel : nat) (sizeof_T : Z)
    (A : allocator) : allocator :=
  {| allocate w len :=
       bind (allocate A w len) (fun w1 ptr =>
       bind (serialized_add_allocation fuel w1 ptr (wrap64 (len * sizeof_T)))
            (fun w2 _ => Some (w2, Returned ptr)));
     deallocate w ptr len :=
       bind (serialized_remove_allocation fuel w ptr (wrap64 (len * sizeof_T)))
            (fun w1 _ => deallocate A w1 ptr len) |}.

End NoSwapAllocatorState.

(** ** [zero_on_release_allocator.h] *)

(** [ptr + len] on a [T*] advances by [len * sizeof(T)] bytes. *)
Definition zero_on_release_allocator (sizeof_T : Z) (A : allocator) : allocator :=
  {| allocate w len :=
       bind (allocate A w len) (fun w1 ptr => Some (w1, Returned ptr));
     deallocate w ptr len :=
       let w1 := std_fill w ptr (wrap64 (ptr + len * sizeof_T)) 0 in
       deallocate A w1 ptr len |}.

(** ** [secure_allocator.h] *)

Definition serialized_secure_allocator (P : platform) (fuel : nat)
    (sizeof_T : Z) (A : allocator) : allocator :=
  zero_on_release_allocator sizeof_T (serialized_no_swap_allocator P fuel sizeof_T A).

Definition unserialized_secure_allocator (P : platform) (fuel : nat)
    (sizeof_T : Z) (A : allocator) : allocator :=
  zero_on_release_allocator sizeof_T (unserialized_no_swap_allocator P fuel sizeof_T A).

(** The two variants side by side. *)
Inductive variant : Type := unserialized | serialized.

Definition tracker_remove (v : variant) (P : platform) (fuel : nat)
    (w : world) (ptr len : Z) : option (world * result unit) :=
  match v with
  | unserialized => remove_allocation P fuel w ptr len
  | serialized => serialized_remove_allocation P fuel w ptr len
  end.

Definition no_swap_allocator (v : variant) (P : platform) (fuel : nat)
    (sizeof_T : Z) (A : allocator) : allocator :=
  match v with
  | unserialized => unserialized_no_swap_allocator P fuel sizeof_T A
  | serialized => serialized_no_swap_allocator P fuel sizeof_T A
  end.

Definition secure_allocator (v : variant) (P : platform) (fuel : nat)
    (sizeof_T : Z) (A : allocator) : allocator :=
  match v with
  | unserialized => unserialized_secure_allocator P fuel sizeof_T A
  | serialized => serialized_secure_allocator P fuel sizeof_T A
  end.

(** ** Call sequences on the tracker *)

Inductive call : Type :=
| call_add (ptr len : Z)
| call_remove (ptr len : Z).

Definition run_call (P : platform) (fuel : nat) (w : world) (c : call)
    : option (world * result unit) :=
  match c with
  | call_add ptr len => add_allocation P fuel w ptr len
  | call_remove ptr len => remove_allocation P fuel w ptr len
  end.

(** The tracker outlives a call that throws: the caller sees the exception
    and may call again. *)
Fixpoint run_calls (P : platform) (fuel : nat) (w : world) (cs : list call)
    : option (world * list (result unit)) :=
  match cs with
  | [] => Some (w, [])
  | c :: cs' =>
      match run_call P fuel w c with
      | None => None
      | Some (w1, r) =>
          match run_calls P fuel w1 cs' with
          | None => None
          | Some (w2, rs) => Some (w2, r :: rs)
          end
      end
  end.

(** ** Collaborators used in the examples *)

(** An OS on which pinning and unpinning always succeed. *)
Definition os_ok (page : Z) : platform :=
  Platform page (fun _ _ _ => 0) (fun _ _ _ => 0) (fun _ => 0).

(** [mlock] returns -1 with [errno = EINVAL] (test [mlock_failed]). *)
Definition os_mlock_fails : platform :=
  Platform 4096 (fun _ _ _ => -1) (fun _ _ _ => 0) (fun _ => 22).

(** [munlock] returns -1 with [errno = EINVAL] (test [munlock_failed]). *)
Definition os_munlock_fails : platform :=
  Platform 4096 (fun _ _ _ => 0) (fun _ _ _ => -1) (fun _ => 22).

(** A tracker that was just created, over memory filled with [0x5a]. *)
Definition fresh_world : world := World ∅ false ∅ (fun _ => 90) [].

(** The world after one element was allocated in the page at address 0. *)
Definition one_page_world : world :=
  World {[ 0 := 1 ]} false {[ 0 ]} (fun _ => 90) [(ev_mlock 0 4096, fun _ => 90)].

(** [mock::monitored_allocator] of the unit tests: every call is reported;
    [place] chooses the address handed out. *)
Definition monitored_allocator (sizeof_T : Z) (place : Z) : allocator :=
  {| allocate w n :=
       Some (record_call (ev_allocate (wrap64 (n * sizeof_T))) w, Returned place);
     deallocate w p n :=
       Some (record_call (ev_deallocate p (wrap64 (n * sizeof_T))) w, Returned tt) |}.

(** ** Vocabulary of the specification *)

(** The page size is a power of two, and twice the page size is still a
    [std::size_t]. *)
Definition valid_page_size (ps : Z) : Prop := ∃ k, 0 ≤ k ≤ 62 ∧ ps = 2 ^ k.

(** The byte range [[ptr, ptr+len)] and the page boundary that follows it lie
    inside the 64-bit address space. *)
Definition range_ok (ps ptr len : Z) : Prop :=
  0 ≤ ptr ∧ 0 ≤ len ∧ ptr + len ≤ 2 ^ 64 - ps.

(** Page [p] (a page base address) shares a byte with [[ptr, ptr+len)]. *)
Definition page_intersects (ps p ptr len : Z) : Prop :=
  p mod ps = 0 ∧ ∃ b, (p ≤ b < p + ps) ∧ (ptr ≤ b < ptr + len).

(** The pages [n] steps of the walk visit from [page] on. *)
Fixpoint walk (ps : Z) (n : nat) (page : Z) : list Z :=
  match n with
  | O => []
  | S n' => page :: walk ps n' (page + ps)
  end.

(** The number of pages between [page] and [bound]. *)
Definition steps (ps page bound : Z) : nat :=
  Z.to_nat ((bound - page + ps - 1) / ps).

(** The pages visited by the walk over [[ptr, ptr+len)]: from the page that
    contains [ptr] up to, and excluding, [ptr+len]. *)
Definition walked (ps ptr len : Z) : list Z :=
  walk ps (steps ps (ptr - ptr mod ps) (ptr + len)) (ptr - ptr mod ps).

(** Fuel that lets the walk over [len] bytes run to its end. *)
Definition enough_fuel (ps : Z) (fuel : nat) (len : Z) : Prop :=
  len / ps + 2 < Z.of_nat fuel.

(** The entry of a page after one more, resp. one fewer, allocation on it. *)
Definition bumped (o : option Z) : Z :=
  match o with
  | None => 1
  | Some c => wrap32 (c + 1)
  end.

Definition released (o : option Z) : option Z :=
  match o with
  | None => None
  | Some c => if wrap32 (c - 1) =? 0 then None else Some (wrap32 (c - 1))
  end.

(** The page holds exactly one allocation: releasing it unpins the page. *)
Definition last_reference (o : option Z) : Prop :=
  ∃ c, o = Some c ∧ wrap32 (c - 1) = 0.

(** The reference count of a page, 0 when it has no entry. *)
Definition refcount (w : world) (p : Z) : Z :=
  default 0 (_page_ref_count w !! p).

(** The mapped values are [std::uint32_t]. *)
Definition uint32_counts (w : world) : Prop :=
  ∀ p c, _page_ref_count w !! p = Some c → 0 ≤ c < 2 ^ 32.

(** The data-model invariant of the tracker. *)
Definition tracker_inv (w : world) : Prop :=
  ∀ p, match _page_ref_count w !! p with
       | Some c => 1 ≤ c ∧ p ∈ locked_pages w
       | None => p ∉ locked_pages w
       end.

(** The invariant, with every count bounded by the number [n] of allocations
    registered so far. *)
Definition bounded_inv (n : Z) (w : world) : Prop :=
  ∀ p, match _page_ref_count w !! p with
       | Some c => (1 ≤ c ≤ n) ∧ p ∈ locked_pages w
       | None => p ∉ locked_pages w
       end.

(** The range of a call lies inside the address space and the walk over it
    has the fuel to finish. *)
Definition call_ok (ps : Z) (fuel : nat) (c : call) : Prop :=
  match c with
  | call_add ptr len => range_ok ps ptr len ∧ enough_fuel ps fuel len
  | call_remove ptr len => range_ok ps ptr len ∧ enough_fuel ps fuel len
  end.

(** Every byte of [[first, last)] reads as zero. *)
Definition zeroed (mem : Z → Z) (first last : Z) : Prop :=
  ∀ b, first ≤ b < last → mem b = 0.


(** The page has an entry in the mapping. *)
Definition present (w : world) (p : Z) : Prop :=
  is_Some (_page_ref_count w !! p).

Definition os_failure (r : result unit) : Prop :=
  match r with Thrown (system_error _ _) => True | _ => False end.

Definition untracked : exn :=
  runtime_error "Releasing memory not tracked by no_swap_allocator".

(** One iteration of each loop, and the loops unrolled over a list of pages. *)
Section Unrolled.

Context (P : platform).

Definition add_page (w : world) (page : Z) : world * result unit :=
  match _page_ref_count w !! page with
  | None =>
      pin_memory P (set_page_ref_count (emplace page 1 (_page_ref_count w)) w)
                 page (_page_size P)
  | Some c =>
      (set_page_ref_count (<[ page := wrap32 (c + 1) ]> (_page_ref_count w)) w,
       Returned tt)
  end.

Definition remove_page (w : world) (page : Z) : world * result unit :=
  match _page_ref_count w !! page with
  | None => (w, Thrown untracked)
  | Some c =>
      let c' := wrap32 (c - 1) in
      let w1 := set_page_ref_count (<[ page := c' ]> (_page_ref_count w)) w in
      if c' =? 0 then
        match unpin_memory P w1 page (_page_size P) with
        | (w2, Thrown e) => (w2, Thrown e)
        | (w2, Returned _) =>
            (set_page_ref_count (delete page (_page_ref_count w2)) w2, Returned tt)
        end
      else (w1, Returned tt)
  end.

Fixpoint over_pages (step : world -> Z -> world * result unit)
    (w : world) (pages : list Z) : world * result unit :=
  match pages with
  | [] => (w, Returned tt)
  | page :: rest =>
      match step w page with
      | (w1, Thrown e) => (w1, Thrown e)
      | (w1, Returned _) => over_pages step w1 rest
      end
  end.

End Unrolled.

(** ** Further members of [no_swap_allocator_state] and of the adapters *)

Definition tracker_add (v : variant) (P : platform) (fuel : nat)
    (w : world) (ptr len : Z) : option (world * result unit) :=
  match v with
  | unserialized => add_allocation P fuel w ptr len
  | serialized => serialized_add_allocation P fuel w ptr len
  end.

(** [no_swap_allocator_state::clear_pages] (unit-test support): the entries
    of the range are erased; the OS is not called. *)
Fixpoint clear_pages_loop (P : platform) (fuel : nat) (w : world) (page bound : Z)
    : option world :=
  match fuel with
  | O => None
  | S fuel' =>
      if page <? bound then
        clear_pages_loop P fuel'
          (set_page_ref_count (delete page (_page_ref_count w)) w)
          (wrap64 (page + _page_size P)) bound
      else Some w
  end.

Definition clear_pages (P : platform) (fuel : nat) (w : world) (ptr len : Z)
    : option world :=
  let page := to_page P ptr in
  clear_pages_loop P fuel w page (wrap64 (ptr + len)).

(** [no_swap_allocator_state::is_lock_held] (unit-test support): a
    [std::unique_lock] that tries to take [_mutex] and gives it back when it
    got it; the answer is whether it did not get it. *)
Definition is_lock_held (w : world) : world * bool :=
  let owns_lock := negb (_mutex w) in
  let w1 := if owns_lock then set_mutex true w else w in
  let r := negb owns_lock in
  (if owns_lock then set_mutex false w1 else w1, r).

(** [unserialized_no_swap_allocator::allocate_at_least]: the upstream result
    [r] is a pair of [r.ptr] and [r.count]; [r.count], a number of elements,
    is what [add_allocation] receives as its length. *)
Definition unserialized_allocate_at_least (P : platform) (fuel : nat)
    (upstream_allocate_at_least : world -> Z -> option (world * result (Z * Z)))
    (w : world) (len : Z) : option (world * result (Z * Z)) :=
  bind (upstream_allocate_at_least w len) (fun w1 r =>
  bind (add_allocation P fuel w1 (fst r) (snd r)) (fun w2 _ =>
  Some (w2, Returned r))).

(** ** Further vocabulary *)

(** The walk of a call visits page [p]. *)
Definition touches (ps p ptr len : Z) : bool := bool_decide (p ∈ walked ps ptr len).

(** What a call adds to the count of page [p], and the sum over a run. *)
Definition delta (ps p : Z) (c : call) : Z :=
  match c with
  | call_add ptr len => if touches ps p ptr len then 1 else 0
  | call_remove ptr len => if touches ps p ptr len then -1 else 0
  end.

Definition balance (ps p : Z) (cs : list call) : Z :=
  foldr (fun c acc => delta ps p c + acc) 0 cs.

(** Page [p] shares a byte with the byte range [[ptr, ptr+len)]. *)
Definition shares_byte (ps p ptr len : Z) : bool :=
  (0 <? len) && (ptr <? p + ps) && (p <? ptr + len).

(** The event is an OS pin or unpin call whose byte range shares a byte with
    page [p]. *)
Definition about_page (ps p : Z) (e : event) : bool :=
  match e with
  | ev_mlock a l => shares_byte ps p a l
  | ev_munlock a l => shares_byte ps p a l
  | _ => false
  end.

(** The OS pin and unpin calls made so far that concern page [p], in the
    order they were made. *)
Definition os_calls_about (ps p : Z) (w : world) : list event :=
  List.filter (about_page ps p) (events w).

Definition call_len (c : call) : Z :=
  match c with
  | call_add _ len => len
  | call_remove _ len => len
  end.

(** The byte range of the call touches page [p]. *)
Definition call_touches (ps p : Z) (c : call) : Prop :=
  match c with
  | call_add ptr len => page_intersects ps p ptr len
  | call_remove ptr len => page_intersects ps p ptr len
  end.

(** The number of allocations sharing page [p]: those a run of calls has
    registered with a range that touches [p] and not released again. *)
Definition live_delta (ps p : Z) (c : call) : Z :=
  match c with
  | call_add ptr len => if shares_byte ps p ptr len then 1 else 0
  | call_remove ptr len => if shares_byte ps p ptr len then -1 else 0
  end.

Definition live (ps p : Z) (cs : list call) : Z :=
  foldr (fun c acc => live_delta ps p c + acc) 0 cs.

(** Every key of the mapping is a page base address. *)
Definition aligned_keys (ps : Z) (w : world) : Prop :=
  ∀ p, present w p → p mod ps = 0.

(** The event is a pin or an unpin of exactly one whole page. *)
Definition whole_page_call (ps : Z) (e : event) : Prop :=
  ∃ p, p mod ps = 0 ∧ (e = ev_mlock p ps ∨ e = ev_munlock p ps).

(** What one iteration of a walk may do: call the OS about its own page, and
    create or erase the entry of its own page. *)
Definition confined (ps : Z) (step : world -> Z -> world * result unit) : Prop :=
  ∀ w q w1 r,
    step w q = (w1, r) →
    (∃ new,
        events w1 = events w ++ new ∧
        Forall (fun e => e = ev_mlock q ps ∨ e = ev_munlock q ps) new) ∧
    (∀ p, present w1 p → present w p ∨ p = q).

(** Two platforms that cannot be told apart by calls made while the tracker's
    lock is held. *)
Definition agree_when_locked (P P' : platform) : Prop :=
  get_page_size P = get_page_size P' ∧
  ∀ w, snd (is_lock_held w) = true →
       errno P w = errno P' w ∧
       ∀ a l, mlock P w a l = mlock P' w a l ∧ munlock P w a l = munlock P' w a l.

(** An OS on which pinning succeeds only while the tracker's lock is held. *)
Definition os_needs_lock : platform :=
  Platform 4096
           (fun w _ _ => if _mutex w then 0 else -1)
           (fun w _ _ => if _mutex w then 0 else -1)
           (fun _ => 0).

(** One iteration of [clear_pages]. *)
Definition clear_page (w : world) (page : Z) : world :=
  set_page_ref_count (delete page (_page_ref_count w)) w.

(** The world a variant's tracker call works in, and the world it hands
    back: the serialized variant holds [_mutex] in between. *)
Definition lock_for (v : variant) (w : world) : world :=
  match v with
  | unserialized => w
  | serialized => set_mutex true w
  end.

Definition unlock_for (v : variant) (w : world) : world :=
  match v with
  | unserialized => w
  | serialized => set_mutex false w
  end.

(** An upstream allocator whose [allocate] throws ([std::bad_alloc] is a
    plain exception; it is carried as a runtime error). *)
Definition failing_allocator : allocator :=
  {| allocate w n := Some (w, Thrown (runtime_error "std::bad_alloc"));
     deallocate w p n := Some (w, Returned tt) |}.

(** ** [test/mock_memory.h], [test/mock_memory.cpp]: the arena of the tests

    [mock::memory] hands out pieces of one array of [memory_size] bytes.
    [_memory] is the address of the array ([_memory.data()]); its bytes are
    those of the world's memory at that address.  [acquire] returns
    [&_memory[_next_allocation_offset]], or throws [std::bad_alloc]. *)
Module mock.

Definition memory_size : Z := Z.shiftl 1 16.

Record memory : Type := Memory {
  _memory : Z;
  _next_allocation_offset : Z
}.

Inductive acquired : Type :=
  | Block (r : Z)
  | bad_alloc.

Definition acquire (m : memory) (n : Z) : memory * acquired :=
  if memory_size <? wrap64 (_next_allocation_offset m + n)
  then (m, bad_alloc)
  else
    let r := _memory m + _next_allocation_offset m in
    (Memory (_memory m) (wrap64 (_next_allocation_offset m + n)), Block r).

Definition reset (m : memory) : memory := Memory (_memory m) 0.

Definition set_next_allocation_offset (m : memory) (offset : Z) : memory :=
  Memory (_memory m) offset.

Definition is_mock_memory (m : memory) (ptr : Z) : bool :=
  let bptr := ptr in
  (_memory m <=? bptr) && (wrap64 (bptr - _memory m) <? memory_size).

(** Successive [acquire] calls, each request kept with what it got. *)
Fixpoint acquire_all (m : memory) (ns : list Z) : memory * list (Z * acquired) :=
  match ns with
  | [] => (m, [])
  | n :: ns' =>
      let '(m1, r) := acquire m n in
      let '(m2, rs) := acquire_all m1 ns' in
      (m2, (n, r) :: rs)
  end.

(** The array lies in the address space and the offset inside the array. *)
Definition well_placed (m : memory) : Prop :=
  0 ≤ _memory m ∧ _memory m + memory_size ≤ 2 ^ 64 ∧
  0 ≤ _next_allocation_offset m ≤ memory_size.

End mock.

(** * Properties *)

(** ** Machine arithmetic *)

Lemma wrap64_small x : 0 ≤ x < 2 ^ 64 → wrap64 x = x.
Proof. intros H. unfold wrap64. apply Z.mod_small. exact H. Qed.

Lemma wrap32_small x : 0 ≤ x < 2 ^ 32 → wrap32 x = x.
Proof. intros H. unfold wrap32. apply Z.mod_small. exact H. Qed.

Lemma valid_page_size_bounds ps : valid_page_size ps → 1 ≤ ps ≤ 2 ^ 62.
Proof.
  intros (k & Hk & ->). split.
  - assert (0 < 2 ^ k) by (apply Z.pow_pos_nonneg; lia). lia.
  - apply Z.pow_le_mono_r; lia.
Qed.

(** Masking with [-2^k] clears the [k] low bits. *)
Lemma land_neg_pow2 x k :
  0 ≤ k ≤ 62 → 0 ≤ x < 2 ^ 64 →
  Z.land x (wrap64 (- 2 ^ k)) = x - x mod 2 ^ k.
Proof.
  intros Hk Hx. unfold wrap64.
  assert (H1 : - 2 ^ k = Z.lnot (Z.ones k)).
  { rewrite Z.ones_equiv. unfold Z.lnot. lia. }
  rewrite H1, <- (Z.land_ones _ 64) by lia.
  rewrite (Z.land_comm (Z.lnot _)), Z.land_assoc.
  rewrite Z.land_ones by lia.
  rewrite (Z.mod_small x) by lia.
  rewrite <- Z.ldiff_land, Z.ldiff_ones_r by lia.
  rewrite Z.shiftl_mul_pow2, Z.shiftr_div_pow2 by lia.
  pose proof (Z.div_mod x (2 ^ k)).
  assert (0 < 2 ^ k) by (apply Z.pow_pos_nonneg; lia). lia.
Qed.

(** Rounding [ptr - 1 + ps] down rounds [ptr] up. *)
Lemma round_up_cases ps ptr :
  0 < ps →
  let x := ptr - 1 + ps in
  (ptr mod ps = 0 ∧ x - x mod ps = ptr) ∨
  (0 < ptr mod ps ∧ x - x mod ps = ptr - ptr mod ps + ps).
Proof.
  intros Hps x. subst x.
  pose proof (Z.mod_pos_bound ptr ps Hps) as Hr.
  pose proof (Z.div_mod ptr ps ltac:(lia)) as Hd.
  destruct (Z.eq_dec (ptr mod ps) 0) as [H0 | H0].
  - left. split; [exact H0 |].
    replace (ptr - 1 + ps) with ((ps - 1) + (ptr / ps) * ps) by lia.
    rewrite Z.mod_add, Z.mod_small by lia. lia.
  - right. split; [lia |].
    replace (ptr - 1 + ps) with ((ptr mod ps - 1) + (ptr / ps + 1) * ps) by lia.
    rewrite Z.mod_add, (Z.mod_small (ptr mod ps - 1)) by lia. lia.
Qed.

(** [std::align] with alignment [ps], size 1 and a buffer of two pages. *)
Lemma std_align_cases ps ptr :
  valid_page_size ps →
  0 ≤ ptr ≤ 2 ^ 64 - ps →
  let up := std_align ps 1 ptr (wrap64 (2 * ps)) in
  (ptr mod ps = 0 ∧ up = ptr) ∨
  (0 < ptr mod ps ∧ up = ptr - ptr mod ps + ps).
Proof.
  intros Hv Hptr. pose proof (valid_page_size_bounds _ Hv) as Hb.
  destruct Hv as (k & Hk & ->). cbv zeta.
  pose proof (Z.mod_pos_bound ptr (2 ^ k) ltac:(lia)) as Hr.
  unfold std_align.
  rewrite (wrap64_small (2 * 2 ^ k)) by lia.
  destruct (Z.ltb_spec (2 * 2 ^ k) 1) as [? | _]; [lia |].
  rewrite (wrap64_small (ptr - 1 + 2 ^ k)) by lia.
  rewrite land_neg_pow2 by lia.
  destruct (round_up_cases (2 ^ k) ptr ltac:(lia)) as [[H0 ->] | [H0 ->]].
  - left. split; [exact H0 |].
    replace (ptr - ptr) with 0 by lia. rewrite wrap64_small by lia.
    destruct (Z.ltb_spec (2 * 2 ^ k - 1) 0); [lia | reflexivity].
  - right. split; [exact H0 |].
    rewrite wrap64_small by lia.
    destruct (Z.ltb_spec (2 * 2 ^ k - 1)
                (ptr - ptr mod 2 ^ k + 2 ^ k - ptr)); [lia | reflexivity].
Qed.

Section ToPage.

Context (P : platform).
Hypothesis Hps : valid_page_size (_page_size P).

Lemma to_page_floor ptr :
  0 ≤ ptr ≤ 2 ^ 64 - _page_size P →
  to_page P ptr = ptr - ptr mod _page_size P.
Proof.
  intros Hptr. pose proof (valid_page_size_bounds _ Hps) as Hb.
  pose proof (Z.mod_pos_bound ptr (_page_size P) ltac:(lia)) as Hr.
  pose proof (Z.mod_le ptr (_page_size P) ltac:(lia) ltac:(lia)) as Hle.
  unfold to_page. cbv zeta.
  destruct (std_align_cases _ ptr Hps Hptr) as [[H0 ->] | [H0 ->]].
  - rewrite Z.ltb_irrefl. lia.
  - destruct (Z.ltb_spec ptr (ptr - ptr mod _page_size P + _page_size P)); [| lia].
    rewrite wrap64_small by lia. lia.
Qed.

End ToPage.

(** *** The walk *)

Lemma elem_of_walk ps n page p :
  p ∈ walk ps n page ↔ ∃ i, (0 ≤ i < Z.of_nat n) ∧ p = page + i * ps.
Proof.
  revert page. induction n as [| n IH]; intros page; simpl.
  - split; [intros H; inversion H | intros (i & Hi & _); lia].
  - rewrite elem_of_cons, IH. split.
    + intros [-> | (i & Hi & ->)].
      * exists 0. lia.
      * exists (i + 1). lia.
    + intros (i & Hi & ->). destruct (Z.eq_dec i 0) as [-> | Hne].
      * left. lia.
      * right. exists (i - 1). lia.
Qed.

Lemma NoDup_walk ps n page : 0 < ps → NoDup (walk ps n page).
Proof.
  intros Hpos. revert page. induction n as [| n IH]; intros page; simpl.
  - constructor.
  - constructor; [| apply IH].
    rewrite elem_of_walk. intros (i & Hi & Heq). nia.
Qed.

Lemma steps_done ps page bound : 0 < ps → bound ≤ page → steps ps page bound = O.
Proof.
  intros Hpos Hle. unfold steps.
  assert ((bound - page + ps - 1) / ps ≤ 0); [| lia].
  assert ((bound - page + ps - 1) / ps < 1); [| lia].
  apply Z.div_lt_upper_bound; lia.
Qed.

Lemma steps_next ps page bound :
  0 < ps → page < bound →
  steps ps page bound = S (steps ps (page + ps) bound).
Proof.
  intros Hpos Hlt. unfold steps.
  replace (bound - page + ps - 1) with ((bound - (page + ps) + ps - 1) + 1 * ps) by lia.
  rewrite Z.div_add by lia.
  assert (0 ≤ (bound - (page + ps) + ps - 1) / ps) by (apply Z.div_pos; lia).
  lia.
Qed.

Lemma steps_bound ps ptr len :
  0 < ps → 0 ≤ len →
  Z.of_nat (steps ps (ptr - ptr mod ps) (ptr + len)) ≤ len / ps + 2.
Proof.
  intros Hpos Hlen. unfold steps.
  pose proof (Z.mod_pos_bound ptr ps Hpos) as Hr.
  pose proof (Z.div_mod len ps ltac:(lia)) as Hd.
  pose proof (Z.mod_pos_bound len ps Hpos) as Hl.
  assert (0 ≤ len / ps) by (apply Z.div_pos; lia).
  assert ((ptr + len - (ptr - ptr mod ps) + ps - 1) / ps < len / ps + 3); [| lia].
  apply Z.div_lt_upper_bound; [lia | nia].
Qed.

Lemma elem_of_walked ps ptr len p :
  0 < ps →
  p ∈ walked ps ptr len ↔
  p mod ps = 0 ∧ ptr - ptr mod ps ≤ p < ptr + len.
Proof.
  intros Hpos. unfold walked, steps. rewrite elem_of_walk.
  pose proof (Z.mod_pos_bound ptr ps Hpos) as Hr.
  pose proof (Z.div_mod ptr ps ltac:(lia)) as Hd.
  set (base := ptr - ptr mod ps) in *.
  assert (Hbase : base = ps * (ptr / ps)) by lia.
  set (N := (ptr + len - base + ps - 1) / ps).
  split.
  - intros (i & Hi & ->).
    assert (0 < N) by lia. rewrite Z2Nat.id in Hi by lia.
    split; [| split].
    + rewrite Hbase. replace (ps * (ptr / ps) + i * ps) with ((ptr / ps + i) * ps) by lia.
      apply Z.mod_mul. lia.
    + nia.
    + assert (Hi1 : i + 1 ≤ N) by lia.
      assert (ps * (i + 1) ≤ ptr + len - base + ps - 1); [| lia].
      etransitivity; [apply Z.mul_le_mono_nonneg_l; [lia | exact Hi1] |].
      apply Z.mul_div_le. lia.
  - intros (Hal & Hlo & Hhi).
    pose proof (Z.div_mod p ps ltac:(lia)) as Hp. rewrite Hal in Hp.
    exists (p / ps - ptr / ps). split; [| lia].
    assert (ptr / ps ≤ p / ps) by nia.
    split; [lia |].
    assert (p / ps - ptr / ps < N); [| lia].
    assert (p / ps - ptr / ps + 1 ≤ N); [| lia].
    apply Z.div_le_lower_bound; [lia | nia].
Qed.

Lemma walked_intersects ps ptr len p :
  0 < ps → 0 < len →
  p ∈ walked ps ptr len ↔ page_intersects ps p ptr len.
Proof.
  intros Hpos Hlen. rewrite elem_of_walked by assumption.
  unfold page_intersects.
  pose proof (Z.mod_pos_bound ptr ps Hpos) as Hr.
  pose proof (Z.div_mod ptr ps ltac:(lia)) as Hd.
  split.
  - intros (Hal & Hlo & Hhi). split; [exact Hal |].
    exists (Z.max p ptr). lia.
  - intros (Hal & b & Hb1 & Hb2). split; [exact Hal |].
    pose proof (Z.div_mod p ps ltac:(lia)) as Hp. rewrite Hal in Hp.
    split; [| lia].
    assert (ptr / ps ≤ p / ps); [| nia].
    assert (ptr / ps < p / ps + 1); [| lia].
    apply Z.div_lt_upper_bound; [lia | nia].
Qed.

Lemma NoDup_walked ps ptr len : 0 < ps → NoDup (walked ps ptr len).
Proof. intros Hpos. apply NoDup_walk. exact Hpos. Qed.

(** *** The loops, unrolled *)

Section Loops.

Context (P : platform).
Hypothesis Hps : valid_page_size (_page_size P).

Lemma add_allocation_loop_unrolled fuel w page bound :
  0 ≤ page → bound ≤ 2 ^ 64 - _page_size P →
  (steps (_page_size P) page bound < fuel)%nat →
  add_allocation_loop P fuel w page bound =
  Some (over_pages (add_page P) w
          (walk (_page_size P) (steps (_page_size P) page bound) page)).
Proof.
  pose proof (valid_page_size_bounds _ Hps) as Hb.
  revert w page. induction fuel as [| fuel IH]; intros w page Hpage Hbound Hfuel.
  - lia.
  - simpl. destruct (Z.ltb_spec page bound) as [Hlt | Hge].
    + rewrite (steps_next _ page bound) in * by lia. simpl.
      rewrite (wrap64_small (page + _page_size P)) by lia.
      unfold add_page at 1.
      destruct (_page_ref_count w !! page) as [c |].
      * apply IH; lia.
      * destruct (pin_memory P _ page (_page_size P)) as [w2 [[] | e]].
        -- apply IH; lia.
        -- reflexivity.
    + rewrite steps_done by lia. reflexivity.
Qed.

Lemma remove_allocation_loop_unrolled fuel w page bound :
  0 ≤ page → bound ≤ 2 ^ 64 - _page_size P →
  (steps (_page_size P) page bound < fuel)%nat →
  remove_allocation_loop P fuel w page bound =
  Some (over_pages (remove_page P) w
          (walk (_page_size P) (steps (_page_size P) page bound) page)).
Proof.
  pose proof (valid_page_size_bounds _ Hps) as Hb.
  revert w page. induction fuel as [| fuel IH]; intros w page Hpage Hbound Hfuel.
  - lia.
  - simpl. destruct (Z.ltb_spec page bound) as [Hlt | Hge].
    + rewrite (steps_next _ page bound) in * by lia. simpl.
      rewrite (wrap64_small (page + _page_size P)) by lia.
      unfold remove_page at 1.
      destruct (_page_ref_count w !! page) as [c |]; [| reflexivity].
      cbv zeta. destruct (wrap32 (c - 1) =? 0).
      * destruct (unpin_memory P _ page (_page_size P)) as [w2 [[] | e]].
        -- apply IH; lia.
        -- reflexivity.
      * apply IH; lia.
    + rewrite steps_done by lia. reflexivity.
Qed.

Lemma walk_start ptr len :
  range_ok (_page_size P) ptr len →
  to_page P ptr = ptr - ptr mod _page_size P ∧
  0 ≤ ptr - ptr mod _page_size P ∧
  wrap64 (ptr + len) = ptr + len.
Proof.
  intros (Hptr & Hlen & Hend).
  pose proof (valid_page_size_bounds _ Hps) as Hb.
  pose proof (Z.mod_le ptr (_page_size P) ltac:(lia) ltac:(lia)).
  split; [apply to_page_floor; [exact Hps | lia] |].
  split; [lia | apply wrap64_small; lia].
Qed.

Lemma fuel_covers_walk fuel ptr len :
  range_ok (_page_size P) ptr len → enough_fuel (_page_size P) fuel len →
  (steps (_page_size P) (ptr - ptr mod _page_size P) (ptr + len) < fuel)%nat.
Proof.
  intros (Hptr & Hlen & Hend) Hfuel. unfold enough_fuel in Hfuel.
  pose proof (valid_page_size_bounds _ Hps) as Hb.
  pose proof (steps_bound (_page_size P) ptr len ltac:(lia) Hlen). lia.
Qed.

Lemma add_allocation_unrolled fuel w ptr len :
  range_ok (_page_size P) ptr len → enough_fuel (_page_size P) fuel len →
  add_allocation P fuel w ptr len =
  Some (over_pages (add_page P) w (walked (_page_size P) ptr len)).
Proof.
  intros Hr Hf. destruct (walk_start ptr len Hr) as (Hpage & Hbase & Hend).
  unfold add_allocation, walked. cbv zeta. rewrite Hpage, Hend.
  apply add_allocation_loop_unrolled;
    [exact Hbase | destruct Hr as (? & ? & ?); lia | apply fuel_covers_walk; assumption].
Qed.

Lemma remove_allocation_unrolled fuel w ptr len :
  range_ok (_page_size P) ptr len → enough_fuel (_page_size P) fuel len →
  remove_allocation P fuel w ptr len =
  Some (over_pages (remove_page P) w (walked (_page_size P) ptr len)).
Proof.
  intros Hr Hf. destruct (walk_start ptr len Hr) as (Hpage & Hbase & Hend).
  unfold remove_allocation, walked. cbv zeta. rewrite Hpage, Hend.
  apply remove_allocation_loop_unrolled;
    [exact Hbase | destruct Hr as (? & ? & ?); lia | apply fuel_covers_walk; assumption].
Qed.

End Loops.

(** *** One iteration *)

Section Steps.

Context (P : platform).

Lemma add_page_Returned w q w1 :
  add_page P w q = (w1, Returned tt) →
  _page_ref_count w1 = <[ q := bumped (_page_ref_count w !! q) ]> (_page_ref_count w) ∧
  locked_pages w1 =
    match _page_ref_count w !! q with
    | Some _ => locked_pages w
    | None => {[ q ]} ∪ locked_pages w
    end ∧
  history w1 =
    history w ++
    match _page_ref_count w !! q with
    | Some _ => []
    | None => [(ev_mlock q (_page_size P), memory w)]
    end ∧
  memory w1 = memory w ∧ _mutex w1 = _mutex w.
Proof.
  unfold add_page. destruct (_page_ref_count w !! q) as [c |] eqn:Hq.
  - intros [= <-]. simpl. rewrite app_nil_r. auto.
  - unfold pin_memory, emplace. rewrite Hq.
    destruct (negb _); intros [= <-]. simpl. auto.
Qed.

Lemma add_page_Thrown w q w1 e :
  add_page P w q = (w1, Thrown e) →
  _page_ref_count w !! q = None ∧
  e = system_error (errno P (set_page_ref_count (<[ q := 1 ]> (_page_ref_count w)) w))
                   "pinning memory" ∧
  _page_ref_count w1 = <[ q := 1 ]> (_page_ref_count w) ∧
  locked_pages w1 = locked_pages w.
Proof.
  unfold add_page. destruct (_page_ref_count w !! q) as [c |] eqn:Hq.
  - intros [=].
  - unfold pin_memory, emplace. rewrite Hq.
    destruct (negb _); intros [= <- <-]. simpl. auto.
Qed.

Lemma remove_page_Returned w q w1 :
  remove_page P w q = (w1, Returned tt) →
  is_Some (_page_ref_count w !! q) ∧
  _page_ref_count w1 !! q = released (_page_ref_count w !! q) ∧
  (∀ p, p ≠ q → _page_ref_count w1 !! p = _page_ref_count w !! p) ∧
  locked_pages w1 =
    match released (_page_ref_count w !! q) with
    | Some _ => locked_pages w
    | None => locked_pages w ∖ {[ q ]}
    end ∧
  history w1 =
    history w ++
    match released (_page_ref_count w !! q) with
    | Some _ => []
    | None => [(ev_munlock q (_page_size P), memory w)]
    end ∧
  memory w1 = memory w ∧ _mutex w1 = _mutex w.
Proof.
  unfold remove_page. destruct (_page_ref_count w !! q) as [c |] eqn:Hq; [| intros [=]].
  cbv zeta. unfold released. destruct (wrap32 (c - 1) =? 0) eqn:Hc.
  - unfold unpin_memory. destruct (negb _); intros [= <-]. simpl.
    split; [eauto |]. split; [apply lookup_delete_eq |].
    split; [| auto].
    intros p Hp. rewrite lookup_delete_ne, lookup_insert_ne by congruence. reflexivity.
  - intros [= <-]. simpl. rewrite app_nil_r.
    split; [eauto |]. split; [apply lookup_insert_eq |].
    split; [| auto].
    intros p Hp. rewrite lookup_insert_ne by congruence. reflexivity.
Qed.

Lemma remove_page_Thrown w q w1 e :
  remove_page P w q = (w1, Thrown e) →
  (e = untracked ∧ _page_ref_count w !! q = None ∧ w1 = w) ∨
  (∃ code, e = system_error code "unpinning memory" ∧
           last_reference (_page_ref_count w !! q) ∧
           _page_ref_count w1 = <[ q := 0 ]> (_page_ref_count w) ∧
           locked_pages w1 = locked_pages w).
Proof.
  unfold remove_page. destruct (_page_ref_count w !! q) as [c |] eqn:Hq.
  - cbv zeta. destruct (wrap32 (c - 1) =? 0) eqn:Hc; [| intros [=]].
    apply Z.eqb_eq in Hc.
    unfold unpin_memory. destruct (negb _); intros [= <- <-]. right.
    eexists. split; [reflexivity |]. simpl. rewrite Hc.
    split; [exists c; auto | auto].
  - intros [= <- <-]. left. auto.
Qed.

(** *** Iterating over a list of pages *)

(** A walk that throws went well up to some page, and threw there. *)
Lemma over_pages_Thrown (step : world → Z → world * result unit) w l w' e :
  over_pages step w l = (w', Thrown e) →
  ∃ l1 q l2 w1,
    l = l1 ++ q :: l2 ∧
    over_pages step w l1 = (w1, Returned tt) ∧
    step w1 q = (w', Thrown e).
Proof.
  revert w. induction l as [| q l IH]; intros w; simpl; [intros [=] |].
  destruct (step w q) as [w1 [[] | e1]] eqn:Hstep.
  - intros H. destruct (IH _ H) as (l1 & q' & l2 & w2 & -> & Hrun & Hq').
    exists (q :: l1), q', l2, w2. simpl. rewrite Hstep. auto.
  - intros [= <- <-]. exists [], q, l, w. auto.
Qed.

End Steps.

(** *** A walk that returns *)

Section Walks.

Context (P : platform).

Lemma add_pages_Returned l : ∀ w w',
  NoDup l →
  over_pages (add_page P) w l = (w', Returned tt) →
  (∀ p, _page_ref_count w' !! p =
        if decide (p ∈ l) then Some (bumped (_page_ref_count w !! p))
        else _page_ref_count w !! p) ∧
  (∃ pinned,
      history w' =
        history w ++ ((λ p, (ev_mlock p (_page_size P), memory w)) <$> pinned) ∧
      NoDup pinned ∧
      (∀ p, p ∈ pinned ↔ p ∈ l ∧ _page_ref_count w !! p = None) ∧
      locked_pages w' = list_to_set pinned ∪ locked_pages w) ∧
  memory w' = memory w ∧ _mutex w' = _mutex w.
Proof.
  induction l as [| q l IH]; intros w w' Hnd Hrun; simpl in Hrun.
  - injection Hrun as <-. split; [| split; [| auto]].
    + intros p. case_decide as Hin; [inversion Hin | reflexivity].
    + exists []. simpl. rewrite app_nil_r.
      split; [reflexivity |]. split; [constructor |].
      split; [| symmetry; apply (left_id_L ∅ (∪))].
      intros p. split; [intros Hin; inversion Hin | intros [Hin _]; inversion Hin].
  - apply NoDup_cons in Hnd as [Hq Hnd].
    destruct (add_page P w q) as [w1 [[] | e]] eqn:Hstep; [| discriminate].
    apply add_page_Returned in Hstep as (Hm1 & Hl1 & Hh1 & Hmem1 & Hmx1).
    destruct (IH _ _ Hnd Hrun) as (Hm & (pinned & Hh & Hndp & Hpin & Hlk) & Hmem & Hmx).
    assert (Hother : ∀ p, p ≠ q → _page_ref_count w1 !! p = _page_ref_count w !! p).
    { intros p Hp. rewrite Hm1, lookup_insert_ne by congruence. reflexivity. }
    split; [| split; [| split; congruence]].
    + intros p. rewrite Hm. destruct (decide (p = q)) as [-> | Hne].
      * rewrite decide_False by exact Hq.
        rewrite decide_True by (left; reflexivity).
        rewrite Hm1. apply lookup_insert_eq.
      * rewrite Hother by exact Hne.
        destruct (decide (p ∈ l)) as [Hin | Hin].
        -- rewrite decide_True by (right; exact Hin). reflexivity.
        -- rewrite decide_False; [reflexivity |].
           intros [? | ?]%elem_of_cons; contradiction.
    + destruct (_page_ref_count w !! q) as [c |] eqn:Hwq.
      * exists pinned. rewrite app_nil_r in Hh1.
        split; [rewrite Hh, Hh1, Hmem1; reflexivity |]. split; [exact Hndp |].
        split; [| congruence].
        intros p. rewrite Hpin, elem_of_cons. split.
        -- intros [Hin Hnone]. split; [auto |].
           rewrite <- Hother; [exact Hnone | congruence].
        -- intros [[-> | Hin] Hnone]; [congruence |].
           split; [exact Hin |]. rewrite Hother; [exact Hnone | congruence].
      * assert (Hqp : q ∉ pinned) by (rewrite Hpin; tauto).
        exists (q :: pinned).
        split; [| split; [constructor; assumption |]].
        { rewrite Hh, Hh1, Hmem1, <- app_assoc. reflexivity. }
        split.
        2:{ rewrite Hlk, Hl1. apply set_eq. intros x.
            rewrite list_to_set_cons, !elem_of_union. tauto. }
        intros p. rewrite !elem_of_cons, Hpin. split.
        -- intros [-> | [Hin Hnone]]; [auto |].
           split; [auto |]. rewrite <- Hother; [exact Hnone | congruence].
        -- intros [[-> | Hin] Hnone]; [auto |].
           right. split; [exact Hin |]. rewrite Hother; [exact Hnone | congruence].
Qed.

Lemma remove_pages_Returned l : ∀ w w',
  NoDup l →
  over_pages (remove_page P) w l = (w', Returned tt) →
  (∀ p, p ∈ l → is_Some (_page_ref_count w !! p)) ∧
  (∀ p, _page_ref_count w' !! p =
        if decide (p ∈ l) then released (_page_ref_count w !! p)
        else _page_ref_count w !! p) ∧
  (∃ unpinned,
      history w' =
        history w ++ ((λ p, (ev_munlock p (_page_size P), memory w)) <$> unpinned) ∧
      NoDup unpinned ∧
      (∀ p, p ∈ unpinned ↔ p ∈ l ∧ last_reference (_page_ref_count w !! p)) ∧
      locked_pages w' = locked_pages w ∖ list_to_set unpinned) ∧
  memory w' = memory w ∧ _mutex w' = _mutex w.
Proof.
  induction l as [| q l IH]; intros w w' Hnd Hrun; simpl in Hrun.
  - injection Hrun as <-. split; [| split; [| split; [| auto]]].
    + intros p Hin. inversion Hin.
    + intros p. case_decide as Hin; [inversion Hin | reflexivity].
    + exists []. simpl. rewrite app_nil_r.
      split; [reflexivity |]. split; [constructor |].
      split; [| symmetry; apply difference_empty_L].
      intros p. split; [intros Hin; inversion Hin | intros [Hin _]; inversion Hin].
  - apply NoDup_cons in Hnd as [Hq Hnd].
    destruct (remove_page P w q) as [w1 [[] | e]] eqn:Hstep; [| discriminate].
    apply remove_page_Returned in Hstep
      as (Hsome & Hq1 & Hother & Hl1 & Hh1 & Hmem1 & Hmx1).
    destruct (IH _ _ Hnd Hrun)
      as (Hall & Hm & (unpinned & Hh & Hndp & Hunp & Hlk) & Hmem & Hmx).
    split; [| split; [| split; [| split; congruence]]].
    + intros p [-> | Hin]%elem_of_cons; [exact Hsome |].
      rewrite <- Hother; [apply Hall; exact Hin | congruence].
    + intros p. rewrite Hm. destruct (decide (p = q)) as [-> | Hne].
      * rewrite decide_False by exact Hq.
        rewrite decide_True by (left; reflexivity). exact Hq1.
      * rewrite Hother by exact Hne.
        destruct (decide (p ∈ l)) as [Hin | Hin].
        -- rewrite decide_True by (right; exact Hin). reflexivity.
        -- rewrite decide_False; [reflexivity |].
           intros [? | ?]%elem_of_cons; contradiction.
    + assert (Hlast : released (_page_ref_count w !! q) = None ↔
                      last_reference (_page_ref_count w !! q)).
      { destruct Hsome as [c Hc]. rewrite Hc. unfold released, last_reference.
        destruct (Z.eqb_spec (wrap32 (c - 1)) 0) as [H0 | H0]; split.
        - intros _. exists c. auto.
        - reflexivity.
        - discriminate.
        - intros (c' & [= <-] & ?). contradiction. }
      destruct (released (_page_ref_count w !! q)) as [c' |] eqn:Hrel.
      * exists unpinned. rewrite app_nil_r in Hh1.
        split; [rewrite Hh, Hh1, Hmem1; reflexivity |]. split; [exact Hndp |].
        split; [| congruence].
        intros p. rewrite Hunp, elem_of_cons. split.
        -- intros [Hin Hlr]. split; [auto |].
           rewrite <- Hother; [exact Hlr | congruence].
        -- intros [[-> | Hin] Hlr]; [apply Hlast in Hlr; discriminate |].
           split; [exact Hin |]. rewrite Hother; [exact Hlr | congruence].
      * assert (Hqp : q ∉ unpinned) by (rewrite Hunp; tauto).
        exists (q :: unpinned).
        split; [| split; [constructor; assumption |]].
        { rewrite Hh, Hh1, Hmem1, <- app_assoc. reflexivity. }
        split.
        2:{ rewrite Hlk, Hl1. apply set_eq. intros x.
            rewrite list_to_set_cons, !elem_of_difference, elem_of_union. tauto. }
        intros p. rewrite !elem_of_cons, Hunp. split.
        -- intros [-> | [Hin Hlr]]; [split; [auto | apply Hlast; reflexivity] |].
           split; [auto |]. rewrite <- Hother; [exact Hlr | congruence].
        -- intros [[-> | Hin] Hlr]; [auto |].
           right. split; [exact Hin |]. rewrite Hother; [exact Hlr | congruence].
Qed.

End Walks.

Lemma events_after (w w' : world) (f : Z → event) (mem : Z → Z) (l : list Z) :
  history w' = history w ++ ((λ p, (f p, mem)) <$> l) →
  events w' = events w ++ (f <$> l).
Proof.
  intros H. unfold events. rewrite H, fmap_app, <- list_fmap_compose. reflexivity.
Qed.

Section RemoveThrows.

Context (P : platform).

(** A removal that meets an untracked page stops there; what it did to the
    pages before is what a removal of just those pages does. *)
Lemma remove_pages_untracked l w w' :
  NoDup l →
  over_pages (remove_page P) w l = (w', Thrown untracked) →
  ∃ l1 q l2,
    l = l1 ++ q :: l2 ∧
    _page_ref_count w !! q = None ∧
    over_pages (remove_page P) w l1 = (w', Returned tt).
Proof.
  intros Hnd Hrun.
  apply over_pages_Thrown in Hrun as (l1 & q & l2 & w1 & -> & Hrun & Hstep).
  apply NoDup_app in Hnd as (Hnd1 & Hdisj & _).
  apply remove_page_Thrown in Hstep as [(_ & Hq & ->) | (code & Habs & _)];
    [| discriminate].
  exists l1, q, l2. split; [reflexivity |]. split; [| exact Hrun].
  destruct (remove_pages_Returned P l1 _ _ Hnd1 Hrun) as (_ & Hm & _).
  rewrite Hm in Hq. rewrite decide_False in Hq; [exact Hq |].
  intros Hin. apply (Hdisj q Hin). left.
Qed.

Lemma remove_pages_outcome l w w' r :
  over_pages (remove_page P) w l = (w', r) →
  r = Returned tt ∨ r = Thrown untracked ∨
  ∃ code, r = Thrown (system_error code "unpinning memory").
Proof.
  destruct r as [[] | e]; [auto |]. intros Hrun. right.
  apply over_pages_Thrown in Hrun as (l1 & q & l2 & w1 & _ & _ & Hstep).
  apply remove_page_Thrown in Hstep as [(-> & _) | (code & -> & _)]; eauto.
Qed.

(** When a page of the walk has no entry, the walk does not return. *)
Lemma remove_pages_missing l w w' q :
  NoDup l → q ∈ l → _page_ref_count w !! q = None →
  over_pages (remove_page P) w l ≠ (w', Returned tt).
Proof.
  intros Hnd Hin Hq Hrun.
  destruct (remove_pages_Returned P l _ _ Hnd Hrun) as (Hall & _).
  destruct (Hall q Hin) as [c Hc]. congruence.
Qed.

End RemoveThrows.

(** ** The claims about the page lock tracker *)

(** C9.  For every pointer [ptr] whose page does not wrap around the end of
    the address space, [to_page ptr] is a multiple of the page size, is at
    most [ptr], and lies less than one page below [ptr]; when [std::align]
    rounds up past [ptr], the result is the aligned address stepped back by
    exactly one page, and otherwise the aligned address itself. *)
Theorem to_page_aligns_down (P : platform) (ptr : Z) :
  valid_page_size (_page_size P) →
  0 ≤ ptr ≤ 2 ^ 64 - _page_size P →
  let up := std_align (_page_size P) 1 ptr (wrap64 (2 * _page_size P)) in
  to_page P ptr mod _page_size P = 0 ∧
  to_page P ptr ≤ ptr ∧
  ptr - to_page P ptr < _page_size P ∧
  (ptr < up → to_page P ptr = up - _page_size P) ∧
  (up ≤ ptr → to_page P ptr = up).
Proof.
  intros Hps Hptr up. pose proof (valid_page_size_bounds _ Hps) as Hb.
  pose proof (Z.mod_pos_bound ptr (_page_size P) ltac:(lia)) as Hr.
  pose proof (Z.div_mod ptr (_page_size P) ltac:(lia)) as Hd.
  rewrite (to_page_floor P Hps ptr Hptr).
  split; [| split; [lia | split; [lia |]]].
  - replace (ptr - ptr mod _page_size P) with (ptr / _page_size P * _page_size P) by lia.
    apply Z.mod_mul. lia.
  - subst up. destruct (std_align_cases _ ptr Hps Hptr) as [[H0 ->] | [H0 ->]]; lia.
Qed.

Lemma to_page_aligns_down_witness :
  valid_page_size (_page_size (os_ok 4096)) ∧
  0 ≤ 12345 ≤ 2 ^ 64 - _page_size (os_ok 4096) ∧
  to_page (os_ok 4096) 12345 = 12288 ∧
  to_page (os_ok 4096) 12345 mod 4096 = 0 ∧
  12345 - to_page (os_ok 4096) 12345 < 4096.
Proof.
  assert (Hv : valid_page_size (_page_size (os_ok 4096))).
  { exists 12. split; [lia | reflexivity]. }
  assert (Hr : 0 ≤ 12345 ≤ 2 ^ 64 - _page_size (os_ok 4096)).
  { split; [lia | vm_compute; discriminate]. }
  pose proof (to_page_aligns_down (os_ok 4096) 12345 Hv Hr) as (H1 & _ & H3 & _).
  split; [exact Hv |]. split; [exact Hr |].
  split; [reflexivity |]. split; [exact H1 | exact H3].
Defined.

(** An unaligned pointer into the last page of the address space: the
    rounded-up address wraps to 0 and is not stepped back. *)
Example to_page_last_page : to_page (os_ok 4096) (2 ^ 64 - 1) = 0.
Proof. reflexivity. Qed.

(** C1 (amended).  A call [add_allocation(ptr, len)] with [len > 0] returns
    or throws; when it returns, the pages whose entry changed are exactly the
    pages that share a byte with [[ptr, ptr+len)], each entry is raised by
    one (created with count 1 when absent), and the OS is asked to pin
    exactly the intersecting pages that had no entry, once each. *)
Theorem add_allocation_registers_intersecting_pages
    (P : platform) (fuel : nat) (w : world) (ptr len : Z) :
  valid_page_size (_page_size P) →
  range_ok (_page_size P) ptr len →
  enough_fuel (_page_size P) fuel len →
  0 < len →
  ∃ w' r,
    add_allocation P fuel w ptr len = Some (w', r) ∧
    (r = Returned tt →
     (∀ p, page_intersects (_page_size P) p ptr len →
           _page_ref_count w' !! p = Some (bumped (_page_ref_count w !! p))) ∧
     (∀ p, ¬ page_intersects (_page_size P) p ptr len →
           _page_ref_count w' !! p = _page_ref_count w !! p) ∧
     ∃ pinned,
       events w' = events w ++ ((λ p, ev_mlock p (_page_size P)) <$> pinned) ∧
       NoDup pinned ∧
       (∀ p, p ∈ pinned ↔
             page_intersects (_page_size P) p ptr len ∧ _page_ref_count w !! p = None) ∧
       locked_pages w' = list_to_set pinned ∪ locked_pages w).
Proof.
  intros Hps Hr Hf Hlen. pose proof (valid_page_size_bounds _ Hps) as Hb.
  assert (Hpos : 0 < _page_size P) by lia.
  rewrite (add_allocation_unrolled P Hps fuel w ptr len Hr Hf).
  destruct (over_pages (add_page P) w (walked (_page_size P) ptr len)) as [w' r] eqn:Hrun.
  exists w', r. split; [reflexivity |]. intros ->.
  destruct (add_pages_Returned P _ _ _ (NoDup_walked _ ptr len Hpos) Hrun)
    as (Hm & (pinned & Hh & Hnd & Hpin & Hlk) & _).
  split; [| split].
  - intros p Hp. apply (walked_intersects _ ptr len p Hpos Hlen) in Hp.
    rewrite Hm, decide_True by exact Hp. reflexivity.
  - intros p Hp. rewrite Hm, decide_False; [reflexivity |].
    intros Hin. apply Hp. apply (walked_intersects _ ptr len p Hpos Hlen). exact Hin.
  - exists pinned. split; [exact (events_after _ _ _ _ _ Hh) |].
    split; [exact Hnd |]. split; [| exact Hlk].
    intros p. rewrite Hpin, (walked_intersects _ ptr len p Hpos Hlen). reflexivity.
Qed.

Lemma add_allocation_registers_intersecting_pages_witness :
  valid_page_size (_page_size (os_ok 4096)) ∧
  range_ok (_page_size (os_ok 4096)) 2048 4096 ∧
  enough_fuel (_page_size (os_ok 4096)) 4 4096 ∧
  0 < 4096 ∧
  ∃ w' r,
    add_allocation (os_ok 4096) 4 fresh_world 2048 4096 = Some (w', r) ∧
    (r = Returned tt →
     (∀ p, page_intersects 4096 p 2048 4096 →
           _page_ref_count w' !! p = Some (bumped (_page_ref_count fresh_world !! p))) ∧
     (∀ p, ¬ page_intersects 4096 p 2048 4096 →
           _page_ref_count w' !! p = _page_ref_count fresh_world !! p) ∧
     ∃ pinned,
       events w' = events fresh_world ++ ((λ p, ev_mlock p 4096) <$> pinned) ∧
       NoDup pinned ∧
       (∀ p, p ∈ pinned ↔
             page_intersects 4096 p 2048 4096 ∧ _page_ref_count fresh_world !! p = None) ∧
       locked_pages w' = list_to_set pinned ∪ locked_pages fresh_world).
Proof.
  assert (Hv : valid_page_size (_page_size (os_ok 4096))).
  { exists 12. split; [lia | reflexivity]. }
  assert (Hr : range_ok (_page_size (os_ok 4096)) 2048 4096).
  { unfold range_ok. split; [lia | split; [lia | vm_compute; discriminate]]. }
  assert (Hf : enough_fuel (_page_size (os_ok 4096)) 4 4096).
  { vm_compute. reflexivity. }
  assert (Hl : 0 < 4096) by lia.
  split; [exact Hv |]. split; [exact Hr |]. split; [exact Hf |]. split; [exact Hl |].
  exact (add_allocation_registers_intersecting_pages
           (os_ok 4096) 4 fresh_world 2048 4096 Hv Hr Hf Hl).
Defined.

(** The claim as first stated fails for an empty range at an unaligned
    address: no page shares a byte with [[4097, 4097)], yet the page at 4096
    is registered and pinned. *)
Lemma add_allocation_empty_range_touches_a_page :
  (∀ p, ¬ page_intersects 4096 p 4097 0) ∧
  ∃ w',
    add_allocation (os_ok 4096) 4 fresh_world 4097 0 = Some (w', Returned tt) ∧
    _page_ref_count w' !! 4096 = Some 1 ∧
    4096 ∈ locked_pages w' ∧
    events w' = [ev_mlock 4096 4096].
Proof.
  split.
  - intros p (_ & b & _ & Hb). lia.
  - eexists. split; [vm_compute; reflexivity |].
    split; [vm_compute; reflexivity |].
    split; [| vm_compute; reflexivity].
    apply (bool_decide_unpack _). vm_compute. exact I.
Qed.

(** C7.  On a tracker without entries, [add_allocation(p, l)] followed by
    [remove_allocation(p, l)] leaves no entry behind when both return; the
    removal never meets an untracked page. *)
Theorem add_then_remove_restores_empty
    (P : platform) (fuel : nat) (w : world) (ptr len : Z) :
  valid_page_size (_page_size P) →
  range_ok (_page_size P) ptr len →
  enough_fuel (_page_size P) fuel len →
  _page_ref_count w = ∅ →
  ∃ w1 r1,
    add_allocation P fuel w ptr len = Some (w1, r1) ∧
    (r1 = Returned tt →
     ∃ w2 r2,
       remove_allocation P fuel w1 ptr len = Some (w2, r2) ∧
       r2 ≠ Thrown untracked ∧
       (r2 = Returned tt → _page_ref_count w2 = ∅)).
Proof.
  intros Hps Hr Hf Hempty. pose proof (valid_page_size_bounds _ Hps) as Hb.
  pose proof (NoDup_walked (_page_size P) ptr len ltac:(lia)) as Hnd.
  rewrite (add_allocation_unrolled P Hps fuel w ptr len Hr Hf).
  destruct (over_pages (add_page P) w (walked (_page_size P) ptr len)) as [w1 r1] eqn:Hadd.
  exists w1, r1. split; [reflexivity |]. intros ->.
  destruct (add_pages_Returned P _ _ _ Hnd Hadd) as (Hm1 & _).
  rewrite (remove_allocation_unrolled P Hps fuel w1 ptr len Hr Hf).
  destruct (over_pages (remove_page P) w1 (walked (_page_size P) ptr len))
    as [w2 r2] eqn:Hrem.
  exists w2, r2. split; [reflexivity |]. split.
  - intros ->.
    apply remove_pages_untracked in Hrem as (l1 & q & l2 & Hl & Hq & _); [| exact Hnd].
    rewrite Hm1, decide_True in Hq; [discriminate |].
    rewrite Hl. apply elem_of_app. right. left.
  - intros ->.
    destruct (remove_pages_Returned P _ _ _ Hnd Hrem) as (_ & Hm2 & _).
    apply map_eq. intros p. rewrite Hm2, lookup_empty.
    case_decide as Hin.
    + rewrite Hm1, decide_True by exact Hin.
      rewrite Hempty, lookup_empty. reflexivity.
    + rewrite Hm1, decide_False by exact Hin.
      rewrite Hempty. apply lookup_empty.
Qed.

Lemma add_then_remove_restores_empty_witness :
  valid_page_size (_page_size (os_ok 4096)) ∧
  range_ok (_page_size (os_ok 4096)) 2048 4096 ∧
  enough_fuel (_page_size (os_ok 4096)) 4 4096 ∧
  _page_ref_count fresh_world = ∅ ∧
  ∃ w1 r1,
    add_allocation (os_ok 4096) 4 fresh_world 2048 4096 = Some (w1, r1) ∧
    (r1 = Returned tt →
     ∃ w2 r2,
       remove_allocation (os_ok 4096) 4 w1 2048 4096 = Some (w2, r2) ∧
       r2 ≠ Thrown untracked ∧
       (r2 = Returned tt → _page_ref_count w2 = ∅)).
Proof.
  assert (Hv : valid_page_size (_page_size (os_ok 4096))).
  { exists 12. split; [lia | reflexivity]. }
  assert (Hr : range_ok (_page_size (os_ok 4096)) 2048 4096).
  { unfold range_ok. split; [lia | split; [lia | vm_compute; discriminate]]. }
  assert (Hf : enough_fuel (_page_size (os_ok 4096)) 4 4096).
  { vm_compute. reflexivity. }
  assert (He : _page_ref_count fresh_world = ∅) by reflexivity.
  split; [exact Hv |]. split; [exact Hr |]. split; [exact Hf |]. split; [exact He |].
  exact (add_then_remove_restores_empty (os_ok 4096) 4 fresh_world 2048 4096 Hv Hr Hf He).
Defined.

(** Both calls of the witness do return, and two pages come and go. *)
Example add_then_remove_two_pages :
  ∃ w1 w2,
    add_allocation (os_ok 4096) 4 fresh_world 2048 4096 = Some (w1, Returned tt) ∧
    map_to_list (_page_ref_count w1) = [(4096, 1); (0, 1)] ∧
    remove_allocation (os_ok 4096) 4 w1 2048 4096 = Some (w2, Returned tt) ∧
    map_to_list (_page_ref_count w2) = [] ∧
    events w2 =
      [ev_mlock 0 4096; ev_mlock 4096 4096; ev_munlock 0 4096; ev_munlock 4096 4096].
Proof.
  do 2 eexists. split; [vm_compute; reflexivity |].
  split; [vm_compute; reflexivity |].
  split; [vm_compute; reflexivity |].
  split; [vm_compute; reflexivity |]. vm_compute. reflexivity.
Qed.

(** A system error leaves the walk only when the OS refused to unpin the
    page the walk had reached. *)
Lemma remove_page_os_failure (P : platform) w q w1 code what :
  remove_page P w q = (w1, Thrown (system_error code what)) →
  ∃ w0, munlock P w0 q (_page_size P) ≠ 0.
Proof.
  unfold remove_page. destruct (_page_ref_count w !! q) as [c |]; [| intros [=]].
  cbv zeta. destruct (wrap32 (c - 1) =? 0); [| intros [=]].
  unfold unpin_memory.
  destruct (Z.eqb_spec
              (munlock P (set_page_ref_count (<[q:=wrap32 (c - 1)]> (_page_ref_count w)) w)
                       q (_page_size P)) 0) as [H0 | H0]; simpl; [intros [=] |].
  intros _. eexists. exact H0.
Qed.

Lemma remove_pages_os_failure (P : platform) l w w' code what :
  over_pages (remove_page P) w l = (w', Thrown (system_error code what)) →
  ∃ w0 q, q ∈ l ∧ munlock P w0 q (_page_size P) ≠ 0.
Proof.
  intros Hrun.
  apply over_pages_Thrown in Hrun as (l1 & q & l2 & w1 & -> & _ & Hstep).
  apply remove_page_os_failure in Hstep as [w0 H0].
  exists w0, q. split; [| exact H0]. apply elem_of_app. right. left.
Qed.

(** C8 (amended).  [remove_allocation(ptr, len)] with [len > 0] returns,
    throws the runtime error "Releasing memory not tracked by
    no_swap_allocator", or throws the system error of a failed unpin.  It
    throws the runtime error only when a page of the range has no entry, and
    the system error only when the OS refused a [munlock] of a page of the
    range.  When no [munlock] of a page of the range fails, it throws the
    runtime error exactly when a page of the range has no entry, and returns
    exactly when every page of the range has one. *)
Theorem remove_allocation_untracked_iff_missing_entry
    (P : platform) (fuel : nat) (w : world) (ptr len : Z) :
  valid_page_size (_page_size P) →
  range_ok (_page_size P) ptr len →
  enough_fuel (_page_size P) fuel len →
  0 < len →
  let missing :=
    ∃ q, page_intersects (_page_size P) q ptr len ∧ _page_ref_count w !! q = None in
  ∃ w' r,
    remove_allocation P fuel w ptr len = Some (w', r) ∧
    (r = Returned tt ∨ r = Thrown untracked ∨
     ∃ code, r = Thrown (system_error code "unpinning memory")) ∧
    (r = Thrown untracked → missing) ∧
    (r = Returned tt → ¬ missing) ∧
    (os_failure r →
     ∃ w0 q, page_intersects (_page_size P) q ptr len ∧
             munlock P w0 q (_page_size P) ≠ 0) ∧
    ((∀ w0 q, page_intersects (_page_size P) q ptr len →
              munlock P w0 q (_page_size P) = 0) →
     (r = Thrown untracked ↔ missing) ∧ (r = Returned tt ↔ ¬ missing)).
Proof.
  intros Hps Hr Hf Hlen missing. pose proof (valid_page_size_bounds _ Hps) as Hb.
  assert (Hpos : 0 < _page_size P) by lia.
  pose proof (NoDup_walked (_page_size P) ptr len Hpos) as Hnd.
  rewrite (remove_allocation_unrolled P Hps fuel w ptr len Hr Hf).
  destruct (over_pages (remove_page P) w (walked (_page_size P) ptr len))
    as [w' r] eqn:Hrun.
  exists w', r. split; [reflexivity |].
  pose proof (remove_pages_outcome P _ _ _ _ Hrun) as Hcases.
  assert (Hthrown : r = Thrown untracked → missing).
  { intros ->.
    apply remove_pages_untracked in Hrun as (l1 & q & l2 & Hl & Hq & _); [| exact Hnd].
    exists q. split; [| exact Hq].
    apply (walked_intersects _ ptr len q Hpos Hlen).
    rewrite Hl. apply elem_of_app. right. left. }
  assert (Hreturned : r = Returned tt → ¬ missing).
  { intros -> (q & Hq & Hnone).
    apply (walked_intersects _ ptr len q Hpos Hlen) in Hq.
    exact (remove_pages_missing P _ _ _ q Hnd Hq Hnone Hrun). }
  assert (Hrefused : os_failure r →
            ∃ w0 q, page_intersects (_page_size P) q ptr len ∧
                    munlock P w0 q (_page_size P) ≠ 0).
  { destruct r as [[] | [code what | what]]; simpl; try contradiction. intros _.
    destruct (remove_pages_os_failure P _ _ _ _ _ Hrun) as (w0 & q & Hq & H0).
    exists w0, q. split; [| exact H0].
    apply (walked_intersects _ ptr len q Hpos Hlen). exact Hq. }
  split; [exact Hcases |]. split; [exact Hthrown |]. split; [exact Hreturned |].
  split; [exact Hrefused |].
  intros Hos.
  assert (Hno : ¬ os_failure r).
  { intros Hfail. destruct (Hrefused Hfail) as (w0 & q & Hq & H0).
    apply H0. apply Hos. exact Hq. }
  split.
  - split; [exact Hthrown |]. intros Hmiss.
    destruct Hcases as [-> | [-> | (code & ->)]].
    + exfalso. exact (Hreturned eq_refl Hmiss).
    + reflexivity.
    + exfalso. apply Hno. exact I.
  - split; [exact Hreturned |]. intros Hnone.
    destruct Hcases as [-> | [-> | (code & ->)]].
    + reflexivity.
    + exfalso. exact (Hnone (Hthrown eq_refl)).
    + exfalso. apply Hno. exact I.
Qed.

Lemma remove_allocation_untracked_iff_missing_entry_witness :
  valid_page_size (_page_size (os_ok 4096)) ∧
  range_ok (_page_size (os_ok 4096)) 4096 1 ∧
  enough_fuel (_page_size (os_ok 4096)) 4 1 ∧
  0 < 1 ∧
  (∀ w0 q, page_intersects (_page_size (os_ok 4096)) q 4096 1 →
           munlock (os_ok 4096) w0 q (_page_size (os_ok 4096)) = 0) ∧
  (∃ w', remove_allocation (os_ok 4096) 4 fresh_world 4096 1 =
           Some (w', Thrown untracked)) ∧
  (∃ w', remove_allocation (os_ok 4096) 4 one_page_world 0 1 =
           Some (w', Returned tt)).
Proof.
  assert (Hv : valid_page_size (_page_size (os_ok 4096))).
  { exists 12. split; [lia | reflexivity]. }
  assert (Hr : ∀ ptr, 0 ≤ ptr ≤ 4096 → range_ok (_page_size (os_ok 4096)) ptr 1).
  { intros ptr Hptr. unfold range_ok. change (_page_size (os_ok 4096)) with 4096. lia. }
  assert (Hf : enough_fuel (_page_size (os_ok 4096)) 4 1).
  { vm_compute. reflexivity. }
  assert (Hl : 0 < 1) by lia.
  assert (Hos : ∀ ptr (w0 : world) q,
            page_intersects (_page_size (os_ok 4096)) q ptr 1 →
            munlock (os_ok 4096) w0 q (_page_size (os_ok 4096)) = 0).
  { intros ptr w0 q _. reflexivity. }
  split; [exact Hv |]. split; [apply Hr; lia |]. split; [exact Hf |].
  split; [exact Hl |]. split; [exact (Hos 4096) |]. split.
  - destruct (remove_allocation_untracked_iff_missing_entry
                (os_ok 4096) 4 fresh_world 4096 1 Hv (Hr 4096 ltac:(lia)) Hf Hl)
      as (w' & r & Hrun & _ & _ & _ & _ & Hiff).
    destruct (Hiff (Hos 4096)) as [[_ Hthrows] _].
    exists w'. rewrite Hrun, Hthrows; [reflexivity |].
    exists 4096. split; [| reflexivity].
    split; [reflexivity |]. exists 4096. change (_page_size (os_ok 4096)) with 4096. lia.
  - destruct (remove_allocation_untracked_iff_missing_entry
                (os_ok 4096) 4 one_page_world 0 1 Hv (Hr 0 ltac:(lia)) Hf Hl)
      as (w' & r & Hrun & _ & _ & _ & _ & Hiff).
    destruct (Hiff (Hos 0)) as [_ [_ Hreturns]].
    exists w'. rewrite Hrun, Hreturns; [reflexivity |].
    intros (q & [Hq (b & Hb1 & Hb2)] & Hnone).
    change (_page_size (os_ok 4096)) with 4096 in *.
    assert (q = 0).
    { assert (b = 0) by lia. subst b.
      pose proof (Z.div_mod q 4096 ltac:(lia)) as Hdm. rewrite Hq in Hdm. lia. }
    subst q. vm_compute in Hnone. discriminate.
Defined.

(** The test [deallocate_past_end_of_allocated_space]: one element is
    allocated at offset 0, the release one page further throws. *)
Example remove_allocation_past_end :
  ∃ w1 w2,
    add_allocation (os_ok 4096) 4 fresh_world 0 1 = Some (w1, Returned tt) ∧
    remove_allocation (os_ok 4096) 4 w1 4096 1 = Some (w2, Thrown untracked).
Proof.
  do 2 eexists. split; [vm_compute; reflexivity |]. vm_compute. reflexivity.
Qed.

(** The claim as first stated fails when an unpin fails on the way: page 4096
    of the range [[0, 8192)] has no entry, yet the call throws the system
    error of the failed unpin of page 0, not the untracked-release error. *)
Lemma remove_allocation_unpin_failure_comes_first :
  ∃ w1 w2,
    add_allocation os_munlock_fails 4 fresh_world 0 1 = Some (w1, Returned tt) ∧
    page_intersects 4096 4096 0 8192 ∧
    _page_ref_count w1 !! 4096 = None ∧
    remove_allocation os_munlock_fails 4 w1 0 8192 =
      Some (w2, Thrown (system_error 22 "unpinning memory")) ∧
    Thrown (A := unit) (system_error 22 "unpinning memory") ≠ Thrown untracked.
Proof.
  do 2 eexists. split; [vm_compute; reflexivity |].
  split; [split; [reflexivity | exists 4096; lia] |].
  split; [vm_compute; reflexivity |].
  split; [vm_compute; reflexivity | discriminate].
Qed.

(** C10.  When [remove_allocation] throws the untracked-release error, the
    walk splits into the pages before the untracked page [q], [q] itself and
    the pages after it.  Every page before [q] had an entry and is left with
    its count lowered by one; those whose count reached zero have been
    unpinned and erased; nothing is restored, and no other page changed. *)
Theorem remove_allocation_failure_is_not_rolled_back
    (P : platform) (fuel : nat) (w w' : world) (ptr len : Z) :
  valid_page_size (_page_size P) →
  range_ok (_page_size P) ptr len →
  enough_fuel (_page_size P) fuel len →
  remove_allocation P fuel w ptr len = Some (w', Thrown untracked) →
  ∃ before q after unpinned,
    walked (_page_size P) ptr len = before ++ q :: after ∧
    _page_ref_count w !! q = None ∧
    (∀ p, p ∈ before →
          is_Some (_page_ref_count w !! p) ∧
          _page_ref_count w' !! p = released (_page_ref_count w !! p)) ∧
    (∀ p, p ∉ before → _page_ref_count w' !! p = _page_ref_count w !! p) ∧
    (∀ p, p ∈ unpinned ↔ p ∈ before ∧ last_reference (_page_ref_count w !! p)) ∧
    NoDup unpinned ∧
    events w' = events w ++ ((λ p, ev_munlock p (_page_size P)) <$> unpinned) ∧
    locked_pages w' = locked_pages w ∖ list_to_set unpinned ∧
    (∀ p, p ∈ unpinned → _page_ref_count w' !! p = None).
Proof.
  intros Hps Hr Hf. pose proof (valid_page_size_bounds _ Hps) as Hb.
  assert (Hpos : 0 < _page_size P) by lia.
  pose proof (NoDup_walked (_page_size P) ptr len Hpos) as Hnd.
  rewrite (remove_allocation_unrolled P Hps fuel w ptr len Hr Hf).
  intros [= Hrun].
  apply remove_pages_untracked in Hrun as (l1 & q & l2 & Hl & Hq & Hrun); [| exact Hnd].
  rewrite Hl in Hnd. apply NoDup_app in Hnd as (Hnd1 & _ & _).
  destruct (remove_pages_Returned P _ _ _ Hnd1 Hrun)
    as (Hall & Hm & (unpinned & Hh & Hndu & Hunp & Hlk) & _).
  exists l1, q, l2, unpinned.
  split; [exact Hl |]. split; [exact Hq |]. split; [| split].
  - intros p Hin. split; [exact (Hall p Hin) |].
    rewrite Hm, decide_True by exact Hin. reflexivity.
  - intros p Hin. rewrite Hm, decide_False by exact Hin. reflexivity.
  - split; [exact Hunp |]. split; [exact Hndu |].
    split; [exact (events_after _ _ _ _ _ Hh) |]. split; [exact Hlk |].
    intros p [Hin (c & Hc & H0)]%Hunp.
    rewrite Hm, decide_True by exact Hin.
    rewrite Hc. unfold released. rewrite H0. reflexivity.
Qed.

Lemma remove_allocation_failure_is_not_rolled_back_witness :
  valid_page_size (_page_size (os_ok 4096)) ∧
  range_ok (_page_size (os_ok 4096)) 0 8192 ∧
  enough_fuel (_page_size (os_ok 4096)) 5 8192 ∧
  ∃ w2,
    remove_allocation (os_ok 4096) 5 one_page_world 0 8192 =
      Some (w2, Thrown untracked) ∧
    ∃ before q after unpinned,
      walked (_page_size (os_ok 4096)) 0 8192 = before ++ q :: after ∧
      _page_ref_count one_page_world !! q = None ∧
      (∀ p, p ∈ unpinned ↔
            p ∈ before ∧ last_reference (_page_ref_count one_page_world !! p)) ∧
      events w2 = events one_page_world ++ ((λ p, ev_munlock p 4096) <$> unpinned) ∧
      (∀ p, p ∈ unpinned → _page_ref_count w2 !! p = None).
Proof.
  assert (Hv : valid_page_size (_page_size (os_ok 4096))).
  { exists 12. split; [lia | reflexivity]. }
  assert (Hr : range_ok (_page_size (os_ok 4096)) 0 8192).
  { unfold range_ok. split; [lia | split; [lia | vm_compute; discriminate]]. }
  assert (Hf : enough_fuel (_page_size (os_ok 4096)) 5 8192).
  { vm_compute. reflexivity. }
  split; [exact Hv |]. split; [exact Hr |]. split; [exact Hf |].
  assert (Hrun : ∃ w2, remove_allocation (os_ok 4096) 5 one_page_world 0 8192 =
                       Some (w2, Thrown untracked)).
  { eexists. vm_compute. reflexivity. }
  destruct Hrun as (w2 & Hrun). exists w2. split; [exact Hrun |].
  destruct (remove_allocation_failure_is_not_rolled_back
              (os_ok 4096) 5 one_page_world w2 0 8192 Hv Hr Hf Hrun)
    as (before & q & after & unpinned & H1 & H2 & _ & _ & H5 & _ & H7 & _ & H9).
  exists before, q, after, unpinned. auto.
Defined.

(** In the witness, page 0 held the single allocation: the failing call has
    unpinned and erased it. *)
Example remove_allocation_failure_erased_page_0 :
  ∃ w2,
    _page_ref_count one_page_world !! 0 = Some 1 ∧
    remove_allocation (os_ok 4096) 5 one_page_world 0 8192 =
      Some (w2, Thrown untracked) ∧
    _page_ref_count w2 !! 0 = None ∧
    elements (locked_pages w2) = [] ∧
    events w2 = [ev_mlock 0 4096; ev_munlock 0 4096].
Proof.
  eexists. split; [vm_compute; reflexivity |].
  split; [vm_compute; reflexivity |].
  split; [vm_compute; reflexivity |].
  split; [vm_compute; reflexivity |]. vm_compute. reflexivity.
Qed.

(** *** The invariant along a run *)

Section Invariant.

Context (P : platform).
Hypothesis Hps : valid_page_size (_page_size P).

Lemma bounded_inv_tracker_inv n w : bounded_inv n w → tracker_inv w.
Proof.
  intros H p. specialize (H p).
  destruct (_page_ref_count w !! p); [split; [lia | tauto] | exact H].
Qed.

Lemma bounded_inv_mono n n' w : n ≤ n' → bounded_inv n w → bounded_inv n' w.
Proof.
  intros Hle H p. specialize (H p).
  destruct (_page_ref_count w !! p); [split; [lia | tauto] | exact H].
Qed.

Lemma add_pages_bounded_inv l n w w' :
  NoDup l → 0 ≤ n → n + 1 < 2 ^ 32 →
  bounded_inv n w →
  over_pages (add_page P) w l = (w', Returned tt) →
  bounded_inv (n + 1) w'.
Proof.
  intros Hnd Hn Hlt Hinv Hrun.
  destruct (add_pages_Returned P _ _ _ Hnd Hrun) as (Hm & (pinned & _ & _ & Hpin & Hlk) & _).
  intros p. specialize (Hinv p). rewrite Hm, Hlk.
  assert (Hp : p ∈ (list_to_set pinned ∪ locked_pages w : gset Z) ↔
               (p ∈ l ∧ _page_ref_count w !! p = None) ∨ p ∈ locked_pages w).
  { rewrite elem_of_union, elem_of_list_to_set, Hpin. reflexivity. }
  case_decide as Hin.
  - destruct (_page_ref_count w !! p) as [c |]; simpl; rewrite Hp.
    + rewrite wrap32_small by lia. split; [lia | tauto].
    + split; [lia | tauto].
  - destruct (_page_ref_count w !! p) as [c |]; rewrite Hp; [split; [lia | tauto] | tauto].
Qed.

Lemma remove_pages_bounded_inv l n w w' :
  NoDup l → n < 2 ^ 32 →
  bounded_inv n w →
  over_pages (remove_page P) w l = (w', Returned tt) →
  bounded_inv n w'.
Proof.
  intros Hnd Hlt Hinv Hrun.
  destruct (remove_pages_Returned P _ _ _ Hnd Hrun)
    as (_ & Hm & (unpinned & _ & _ & Hunp & Hlk) & _).
  intros p. specialize (Hinv p). rewrite Hm, Hlk.
  assert (Hp : p ∈ (locked_pages w ∖ list_to_set unpinned : gset Z) ↔
               p ∈ locked_pages w ∧
               ¬ (p ∈ l ∧ last_reference (_page_ref_count w !! p))).
  { rewrite elem_of_difference, elem_of_list_to_set, Hunp. reflexivity. }
  unfold last_reference in Hp. case_decide as Hin.
  - destruct (_page_ref_count w !! p) as [c |]; simpl.
    + destruct Hinv as [Hc Hlocked].
      rewrite wrap32_small by lia.
      destruct (Z.eqb_spec (c - 1) 0) as [H0 | H0]; rewrite Hp.
      * intros [_ Hno]. apply Hno. split; [exact Hin |].
        exists c. split; [reflexivity |]. rewrite wrap32_small by lia. exact H0.
      * split; [lia |]. split; [exact Hlocked |].
        intros (_ & c' & [= <-] & Hw). rewrite wrap32_small in Hw by lia. contradiction.
    + rewrite Hp. tauto.
  - destruct (_page_ref_count w !! p) as [c |]; rewrite Hp.
    + destruct Hinv as [Hc Hlocked]. split; [lia |]. split; [exact Hlocked | tauto].
    + tauto.
Qed.

Lemma run_call_returns fuel w c :
  call_ok (_page_size P) fuel c →
  ∃ w' r, run_call P fuel w c = Some (w', r).
Proof.
  destruct c as [ptr len | ptr len]; intros [Hr Hf]; simpl.
  - rewrite (add_allocation_unrolled P Hps fuel w ptr len Hr Hf).
    destruct (over_pages _ w _) as [w' r]. eauto.
  - rewrite (remove_allocation_unrolled P Hps fuel w ptr len Hr Hf).
    destruct (over_pages _ w _) as [w' r]. eauto.
Qed.

Lemma run_calls_returns fuel cs : ∀ w,
  (∀ c, c ∈ cs → call_ok (_page_size P) fuel c) →
  ∃ w' rs, run_calls P fuel w cs = Some (w', rs).
Proof.
  induction cs as [| c cs IH]; intros w Hok; simpl; [eauto |].
  destruct (run_call_returns fuel w c) as (w1 & r & ->); [apply Hok; left |].
  destruct (IH w1) as (w2 & rs & ->); [intros c' Hc'; apply Hok; right; exact Hc' |].
  eauto.
Qed.

Lemma run_call_bounded_inv fuel n w c w' r :
  call_ok (_page_size P) fuel c →
  0 ≤ n → n + 1 < 2 ^ 32 →
  bounded_inv n w →
  run_call P fuel w c = Some (w', r) →
  ¬ os_failure r →
  bounded_inv (n + 1) w'.
Proof.
  pose proof (valid_page_size_bounds _ Hps) as Hb.
  assert (Hpos : 0 < _page_size P) by lia.
  destruct c as [ptr len | ptr len]; intros [Hr Hf] Hn Hlt Hinv; simpl.
  - rewrite (add_allocation_unrolled P Hps fuel w ptr len Hr Hf).
    intros [= Hrun] Hos.
    destruct r as [[] | e].
    + exact (add_pages_bounded_inv _ n w w' (NoDup_walked _ ptr len Hpos) Hn Hlt Hinv Hrun).
    + exfalso. apply Hos.
      apply over_pages_Thrown in Hrun as (l1 & q & l2 & w1 & _ & _ & Hstep).
      apply add_page_Thrown in Hstep as (_ & -> & _). exact I.
  - rewrite (remove_allocation_unrolled P Hps fuel w ptr len Hr Hf).
    intros [= Hrun] Hos. apply (bounded_inv_mono n); [lia |].
    pose proof (NoDup_walked (_page_size P) ptr len Hpos) as Hnd.
    destruct (remove_pages_outcome P _ _ _ _ Hrun) as [-> | [-> | (code & ->)]].
    + exact (remove_pages_bounded_inv _ n w w' Hnd ltac:(lia) Hinv Hrun).
    + apply remove_pages_untracked in Hrun as (l1 & q & l2 & Hl & _ & Hrun); [| exact Hnd].
      rewrite Hl in Hnd. apply NoDup_app in Hnd as (Hnd1 & _ & _).
      exact (remove_pages_bounded_inv _ n w w' Hnd1 ltac:(lia) Hinv Hrun).
    + exfalso. apply Hos. exact I.
Qed.

Lemma run_calls_bounded_inv fuel cs : ∀ n w w' rs,
  (∀ c, c ∈ cs → call_ok (_page_size P) fuel c) →
  0 ≤ n → n + Z.of_nat (length cs) < 2 ^ 32 →
  bounded_inv n w →
  run_calls P fuel w cs = Some (w', rs) →
  Forall (λ r, ¬ os_failure r) rs →
  bounded_inv (n + Z.of_nat (length cs)) w'.
Proof.
  induction cs as [| c cs IH]; intros n w w' rs Hok Hn Hlt Hinv; simpl.
  - intros [= <- <-] _. rewrite Z.add_0_r. exact Hinv.
  - destruct (run_call P fuel w c) as [[w1 r] |] eqn:Hcall; [| discriminate].
    destruct (run_calls P fuel w1 cs) as [[w2 rs'] |] eqn:Hrest; [| discriminate].
    intros [= <- <-] Hall. apply Forall_cons in Hall as [Hr Hall].
    simpl length in Hlt.
    replace (n + Z.of_nat (S (length cs))) with ((n + 1) + Z.of_nat (length cs)) by lia.
    apply (IH (n + 1) w1 w2 rs').
    + intros c' Hc'. apply Hok. right. exact Hc'.
    + lia.
    + lia.
    + apply (run_call_bounded_inv fuel n w c w1 r); [apply Hok; left | lia | lia | | |];
        assumption.
    + exact Hrest.
    + exact Hall.
Qed.

End Invariant.

(** C2 (amended).  Let a tracker start without entries and without pinned
    pages, and receive fewer than 2^32 calls of [add_allocation] and
    [remove_allocation].  Every call returns or throws; and if no call failed
    on an OS pin or unpin error (calls that throw the untracked-release error
    are allowed), then in the state reached every page with an entry has a
    count of at least 1 and is pinned, and every page without an entry is not
    pinned. *)
Theorem tracker_invariant_without_os_failure
    (P : platform) (fuel : nat) (w0 : world) (cs : list call) :
  valid_page_size (_page_size P) →
  (∀ c, c ∈ cs → call_ok (_page_size P) fuel c) →
  Z.of_nat (length cs) < 2 ^ 32 →
  _page_ref_count w0 = ∅ →
  locked_pages w0 = ∅ →
  ∃ w' rs,
    run_calls P fuel w0 cs = Some (w', rs) ∧
    (Forall (λ r, ¬ os_failure r) rs → tracker_inv w').
Proof.
  intros Hps Hok Hlen Hm0 Hl0.
  destruct (run_calls_returns P Hps fuel cs w0 Hok) as (w' & rs & Hrun).
  exists w', rs. split; [exact Hrun |]. intros Hall.
  apply (bounded_inv_tracker_inv (0 + Z.of_nat (length cs))).
  apply (run_calls_bounded_inv P Hps fuel cs 0 w0 w' rs Hok); [lia | lia | | exact Hrun | exact Hall].
  intros p. rewrite Hm0, Hl0, lookup_empty. apply not_elem_of_empty.
Qed.

Lemma tracker_invariant_without_os_failure_witness :
  let cs := [call_add 0 1; call_add 16 1; call_remove 0 1; call_remove 4096 1] in
  valid_page_size (_page_size (os_ok 4096)) ∧
  (∀ c, c ∈ cs → call_ok (_page_size (os_ok 4096)) 4 c) ∧
  Z.of_nat (length cs) < 2 ^ 32 ∧
  _page_ref_count fresh_world = ∅ ∧
  locked_pages fresh_world = ∅ ∧
  ∃ w',
    run_calls (os_ok 4096) 4 fresh_world cs =
      Some (w', [Returned tt; Returned tt; Returned tt; Thrown untracked]) ∧
    tracker_inv w'.
Proof.
  intros cs.
  assert (Hv : valid_page_size (_page_size (os_ok 4096))).
  { exists 12. split; [lia | reflexivity]. }
  assert (Hok : ∀ c, c ∈ cs → call_ok (_page_size (os_ok 4096)) 4 c).
  { intros c Hc. subst cs.
    repeat (apply elem_of_cons in Hc as [-> | Hc]); [| | | | inversion Hc];
      (split; [unfold range_ok; split; [lia | split; [lia | vm_compute; discriminate]]
              | vm_compute; reflexivity]). }
  assert (Hlen : Z.of_nat (length cs) < 2 ^ 32) by (vm_compute; reflexivity).
  assert (Hm0 : _page_ref_count fresh_world = ∅) by reflexivity.
  assert (Hl0 : locked_pages fresh_world = ∅) by reflexivity.
  split; [exact Hv |]. split; [exact Hok |]. split; [exact Hlen |].
  split; [exact Hm0 |]. split; [exact Hl0 |].
  destruct (tracker_invariant_without_os_failure
              (os_ok 4096) 4 fresh_world cs Hv Hok Hlen Hm0 Hl0)
    as (w' & rs & Hrun & Hinv).
  assert (Hrs : rs = [Returned tt; Returned tt; Returned tt; Thrown untracked]).
  { assert (Hsnd : (snd <$> run_calls (os_ok 4096) 4 fresh_world cs) =
                   Some [Returned tt; Returned tt; Returned tt; Thrown untracked])
      by (vm_compute; reflexivity).
    rewrite Hrun in Hsnd. simpl in Hsnd. congruence. }
  exists w'. split; [rewrite Hrun, Hrs; reflexivity |].
  apply Hinv. rewrite Hrs.
  repeat (constructor; [intros H; exact H |]). constructor.
Defined.

(** The claim as first stated fails after a failed pin: [add_allocation] has
    already created the entry, with count 1, when [mlock] fails; the entry
    stays, and the page is not pinned. *)
Lemma tracker_invariant_broken_by_pin_failure :
  ∃ w',
    run_calls os_mlock_fails 4 fresh_world [call_add 0 1] =
      Some (w', [Thrown (system_error 22 "pinning memory")]) ∧
    _page_ref_count w' !! 0 = Some 1 ∧
    (0 ∉ locked_pages w') ∧
    ¬ tracker_inv w'.
Proof.
  eexists. split; [vm_compute; reflexivity |].
  assert (Hnot : 0 ∉ (∅ : gset Z)) by apply not_elem_of_empty.
  split; [vm_compute; reflexivity |]. split; [exact Hnot |].
  intros Hinv. specialize (Hinv 0).
  change (match Some 1 with
          | Some c => 1 ≤ c ∧ 0 ∈ (∅ : gset Z)
          | None => 0 ∉ (∅ : gset Z)
          end) in Hinv.
  destruct Hinv as [_ Hin]. exact (Hnot Hin).
Qed.

(** Likewise after a failed unpin: the count has been lowered to 0 and the
    entry stays. *)
Example tracker_invariant_broken_by_unpin_failure :
  ∃ w',
    run_calls os_munlock_fails 4 fresh_world [call_add 0 1; call_remove 0 1] =
      Some (w', [Returned tt; Thrown (system_error 22 "unpinning memory")]) ∧
    _page_ref_count w' !! 0 = Some 0.
Proof.
  eexists. split; [vm_compute; reflexivity |]. vm_compute. reflexivity.
Qed.

(** *** OS calls about one page *)

Lemma shares_byte_spec ps p ptr len :
  0 < ps →
  shares_byte ps p ptr len = true ↔
  ∃ b, (p ≤ b < p + ps) ∧ (ptr ≤ b < ptr + len).
Proof.
  intros Hps. unfold shares_byte. rewrite !andb_true_iff, !Z.ltb_lt. split.
  - intros [[Hlen H1] H2]. exists (Z.max p ptr). lia.
  - intros (b & Hb1 & Hb2). lia.
Qed.

Lemma shares_byte_intersects ps p ptr len :
  0 < ps → p mod ps = 0 →
  shares_byte ps p ptr len = true ↔ page_intersects ps p ptr len.
Proof.
  intros Hps Hp. rewrite shares_byte_spec by exact Hps.
  unfold page_intersects. tauto.
Qed.

Lemma shares_byte_touches ps p ptr len :
  0 < ps → 0 < len → p mod ps = 0 →
  shares_byte ps p ptr len = touches ps p ptr len.
Proof.
  intros Hps Hlen Hp. unfold touches. symmetry.
  destruct (shares_byte ps p ptr len) eqn:Hs.
  - apply bool_decide_eq_true_2. apply (walked_intersects _ _ _ _ Hps Hlen).
    apply shares_byte_intersects; assumption.
  - apply bool_decide_eq_false_2. intros Hin.
    apply (walked_intersects _ _ _ _ Hps Hlen) in Hin.
    apply shares_byte_intersects in Hin; [congruence | exact Hps | exact Hp].
Qed.

(** Two pages share a byte only when they are the same page. *)
Lemma shares_byte_aligned ps p q :
  0 < ps → p mod ps = 0 → q mod ps = 0 →
  shares_byte ps p q ps = true ↔ q = p.
Proof.
  intros Hps Hp Hq. unfold shares_byte. rewrite !andb_true_iff, !Z.ltb_lt. split.
  - intros [[_ H1] H2].
    pose proof (Z.div_mod p ps ltac:(lia)) as Ep.
    pose proof (Z.div_mod q ps ltac:(lia)) as Eq.
    rewrite Hp in Ep. rewrite Hq in Eq.
    assert (q / ps = p / ps) by nia. nia.
  - intros ->. lia.
Qed.

(** Among whole-page calls for distinct pages, the one for [p], if there is
    one, is the only call about [p]. *)
Lemma filter_about_page ps p (mk : Z → Z → event) l :
  0 < ps → p mod ps = 0 →
  (∀ a n, about_page ps p (mk a n) = shares_byte ps p a n) →
  NoDup l → (∀ q, q ∈ l → q mod ps = 0) →
  List.filter (about_page ps p) ((λ q, mk q ps) <$> l) =
  if decide (p ∈ l) then [mk p ps] else [].
Proof.
  intros Hps Hp Hmk Hnd Hal. induction l as [| q l IH].
  - rewrite decide_False; [reflexivity | intros Hin; inversion Hin].
  - apply NoDup_cons in Hnd as [Hq Hnd]. rewrite fmap_cons. simpl. rewrite Hmk.
    rewrite (IH Hnd) by (intros q' Hq'; apply Hal; right; exact Hq').
    assert (Hqa : q mod ps = 0) by (apply Hal; left).
    destruct (shares_byte ps p q ps) eqn:Hs.
    + apply (shares_byte_aligned ps p q Hps Hp Hqa) in Hs. subst q.
      rewrite decide_False by exact Hq.
      rewrite decide_True by (left; reflexivity). reflexivity.
    + assert (Hne : q ≠ p).
      { intros ->. rewrite (proj2 (shares_byte_aligned ps p p Hps Hp Hp) eq_refl) in Hs.
        discriminate. }
      destruct (decide (p ∈ l)) as [Hin | Hin].
      * rewrite decide_True by (right; exact Hin). reflexivity.
      * rewrite decide_False; [reflexivity |].
        intros [? | ?]%elem_of_cons; [congruence | contradiction].
Qed.

Lemma os_calls_about_app ps p w w' l :
  events w' = events w ++ l →
  os_calls_about ps p w' = os_calls_about ps p w ++ List.filter (about_page ps p) l.
Proof.
  intros H. unfold os_calls_about. rewrite H, List.filter_app. reflexivity.
Qed.

Lemma last_reference_uint32 o :
  (∀ c, o = Some c → 0 ≤ c < 2 ^ 32) →
  last_reference o ↔ o = Some 1.
Proof.
  intros Hrange. unfold last_reference. split.
  - intros (c & -> & H0). f_equal.
    specialize (Hrange c eq_refl). unfold wrap32 in H0.
    destruct (Z.eq_dec c 0) as [-> | Hne]; [discriminate H0 |].
    rewrite Z.mod_small in H0 by lia. lia.
  - intros ->. exists 1. split; reflexivity.
Qed.

Lemma balance_live ps p cs :
  0 < ps → p mod ps = 0 →
  (∀ c, c ∈ cs → 0 < call_len c) →
  balance ps p cs = live ps p cs.
Proof.
  intros Hps Hp. induction cs as [| c cs IH]; intros Hlen; [reflexivity |].
  simpl. rewrite IH by (intros c' Hc'; apply Hlen; right; exact Hc').
  f_equal. specialize (Hlen c ltac:(left)).
  destruct c as [ptr len | ptr len]; simpl in *;
    rewrite (shares_byte_touches ps p ptr len Hps Hlen Hp); reflexivity.
Qed.

Lemma bounded_inv_present n w p :
  bounded_inv n w → present w p ↔ 0 < refcount w p.
Proof.
  intros Hinv. specialize (Hinv p). unfold present, refcount.
  destruct (_page_ref_count w !! p) as [c |]; simpl.
  - split; [intros _; lia | intros _; eauto].
  - split; [intros [? ?]; discriminate | lia].
Qed.

(** *** What one returning call does about one page *)

Section Transitions.

Context (P : platform) (p : Z).
Hypothesis Hps : valid_page_size (_page_size P).
Hypothesis Hp : p mod _page_size P = 0.

Lemma add_call_os_calls fuel w ptr len w' :
  range_ok (_page_size P) ptr len →
  enough_fuel (_page_size P) fuel len →
  add_allocation P fuel w ptr len = Some (w', Returned tt) →
  _page_ref_count w' !! p =
    (if decide (p ∈ walked (_page_size P) ptr len)
     then Some (bumped (_page_ref_count w !! p))
     else _page_ref_count w !! p) ∧
  os_calls_about (_page_size P) p w' =
    os_calls_about (_page_size P) p w ++
    (if decide (p ∈ walked (_page_size P) ptr len ∧ _page_ref_count w !! p = None)
     then [ev_mlock p (_page_size P)] else []).
Proof.
  pose proof (valid_page_size_bounds _ Hps) as Hb.
  assert (Hpos : 0 < _page_size P) by lia.
  intros Hr Hf. rewrite (add_allocation_unrolled P Hps fuel w ptr len Hr Hf).
  intros [= Hrun].
  destruct (add_pages_Returned P _ _ _ (NoDup_walked _ ptr len Hpos) Hrun)
    as (Hm & (pinned & Hh & Hnd & Hpin & _) & _).
  split; [apply Hm |].
  apply events_after in Hh. rewrite (os_calls_about_app _ p w w' _ Hh).
  rewrite (filter_about_page _ p ev_mlock pinned Hpos Hp (λ _ _, eq_refl) Hnd).
  - f_equal. specialize (Hpin p).
    destruct (decide (p ∈ pinned)) as [Hin | Hin].
    + rewrite decide_True by tauto. reflexivity.
    + rewrite decide_False by tauto. reflexivity.
  - intros q Hq. apply Hpin in Hq as [Hq _].
    apply (elem_of_walked _ ptr len q Hpos) in Hq. tauto.
Qed.

Lemma remove_call_os_calls fuel w ptr len w' :
  range_ok (_page_size P) ptr len →
  enough_fuel (_page_size P) fuel len →
  remove_allocation P fuel w ptr len = Some (w', Returned tt) →
  (p ∈ walked (_page_size P) ptr len → present w p) ∧
  _page_ref_count w' !! p =
    (if decide (p ∈ walked (_page_size P) ptr len)
     then released (_page_ref_count w !! p)
     else _page_ref_count w !! p) ∧
  os_calls_about (_page_size P) p w' =
    os_calls_about (_page_size P) p w ++
    (if decide (p ∈ walked (_page_size P) ptr len ∧
                released (_page_ref_count w !! p) = None)
     then [ev_munlock p (_page_size P)] else []).
Proof.
  pose proof (valid_page_size_bounds _ Hps) as Hb.
  assert (Hpos : 0 < _page_size P) by lia.
  intros Hr Hf. rewrite (remove_allocation_unrolled P Hps fuel w ptr len Hr Hf).
  intros [= Hrun].
  destruct (remove_pages_Returned P _ _ _ (NoDup_walked _ ptr len Hpos) Hrun)
    as (Hall & Hm & (unpinned & Hh & Hnd & Hunp & _) & _).
  split; [apply Hall |]. split; [apply Hm |].
  apply events_after in Hh. rewrite (os_calls_about_app _ p w w' _ Hh).
  rewrite (filter_about_page _ p ev_munlock unpinned Hpos Hp (λ _ _, eq_refl) Hnd).
  - f_equal. specialize (Hunp p).
    assert (Hlast : p ∈ walked (_page_size P) ptr len →
              last_reference (_page_ref_count w !! p) ↔
              released (_page_ref_count w !! p) = None).
    { intros Hin. destruct (Hall p Hin) as [c Hc]. rewrite Hc.
      unfold last_reference, released. split.
      - intros (c' & [= <-] & ->). reflexivity.
      - destruct (Z.eqb_spec (wrap32 (c - 1)) 0); [eauto | discriminate]. }
    destruct (decide (p ∈ unpinned)) as [Hin | Hin].
    + rewrite decide_True by tauto. reflexivity.
    + rewrite decide_False by tauto. reflexivity.
  - intros q Hq. apply Hunp in Hq as [Hq _].
    apply (elem_of_walked _ ptr len q Hpos) in Hq. tauto.
Qed.

(** The OS is asked to pin [p] when, and only when, the call gives [p] its
    entry, and to unpin [p] when, and only when, the call erases it. *)
Lemma run_call_presence fuel w c w' :
  call_ok (_page_size P) fuel c →
  run_call P fuel w c = Some (w', Returned tt) →
  os_calls_about (_page_size P) p w' =
    os_calls_about (_page_size P) p w ++
    (if decide (¬ present w p ∧ present w' p) then [ev_mlock p (_page_size P)]
     else if decide (present w p ∧ ¬ present w' p) then [ev_munlock p (_page_size P)]
     else []).
Proof.
  unfold present. destruct c as [ptr len | ptr len]; intros [Hr Hf] Hrun; simpl in Hrun.
  - destruct (add_call_os_calls fuel w ptr len w' Hr Hf Hrun) as (Hm & ->).
    f_equal. rewrite Hm.
    destruct (decide (p ∈ walked (_page_size P) ptr len)) as [Hin | Hin];
      destruct (_page_ref_count w !! p) as [c |] eqn:Hc;
      repeat case_decide; rewrite ?is_Some_alt in *; simpl in *;
      first [ reflexivity | tauto | exfalso; intuition congruence ].
  - destruct (remove_call_os_calls fuel w ptr len w' Hr Hf Hrun) as (Hall & Hm & ->).
    f_equal. rewrite Hm. unfold present in Hall.
    destruct (decide (p ∈ walked (_page_size P) ptr len)) as [Hin | Hin];
      destruct (_page_ref_count w !! p) as [c |] eqn:Hc;
      try (destruct (released (Some c)) eqn:Hrel);
      repeat case_decide; rewrite ?is_Some_alt in *; simpl in *;
      first [ reflexivity | tauto | exfalso; intuition congruence ].
Qed.

End Transitions.

(** *** A period during which a page stays registered *)

Section Period.

Context (P : platform) (p : Z).
Hypothesis Hps : valid_page_size (_page_size P).
Hypothesis Hp : p mod _page_size P = 0.

Lemma run_calls_step fuel w c cs w' rs :
  run_calls P fuel w (c :: cs) = Some (w', rs) →
  ∃ w1 r rs',
    run_call P fuel w c = Some (w1, r) ∧
    run_calls P fuel w1 cs = Some (w', rs') ∧
    rs = r :: rs'.
Proof.
  simpl. destruct (run_call P fuel w c) as [[w1 r] |]; [| discriminate].
  destruct (run_calls P fuel w1 cs) as [[w2 rs'] |] eqn:Hrest; [| discriminate].
  intros [= <- <-]. exists w1, r, rs'. auto.
Qed.

(** A run that returns, cut after [k] calls, returns the first [k] results. *)
Lemma run_calls_take fuel cs : ∀ k w w' rs,
  run_calls P fuel w cs = Some (w', rs) →
  ∃ wk, run_calls P fuel w (take k cs) = Some (wk, take k rs).
Proof.
  induction cs as [| c cs IH]; intros k w w' rs Hrun.
  - injection Hrun as <- <-. exists w. rewrite !take_nil. reflexivity.
  - apply run_calls_step in Hrun as (w1 & r & rs' & Hcall & Hrest & ->).
    destruct k as [| k]; [exists w; reflexivity |].
    destruct (IH k w1 w' rs' Hrest) as [wk Hk].
    exists wk. simpl. rewrite Hcall, Hk. reflexivity.
Qed.

(** While the page keeps its entry no OS call is made about it; the call that
    erases the entry, if there is one, is the last and makes the one unpin. *)
Lemma run_calls_while_present fuel cs : ∀ w w' rs,
  (∀ c, c ∈ cs → call_ok (_page_size P) fuel c) →
  run_calls P fuel w cs = Some (w', rs) →
  Forall (λ r, r = Returned tt) rs →
  present w p →
  (∀ k wk rsk, (0 < k < length cs)%nat →
               run_calls P fuel w (take k cs) = Some (wk, rsk) → present wk p) →
  os_calls_about (_page_size P) p w' =
    os_calls_about (_page_size P) p w ++
    (if decide (present w' p) then [] else [ev_munlock p (_page_size P)]).
Proof.
  induction cs as [| c cs IH]; intros w w' rs Hok Hrun Hall Hpres Hmid.
  - injection Hrun as <- <-. rewrite decide_True by exact Hpres.
    rewrite app_nil_r. reflexivity.
  - apply run_calls_step in Hrun as (w1 & r & rs' & Hcall & Hrest & ->).
    apply Forall_cons in Hall as [-> Hall].
    pose proof (run_call_presence P p Hps Hp fuel w c w1 (Hok c ltac:(left)) Hcall)
      as Hstep.
    rewrite decide_False in Hstep by tauto.
    destruct cs as [| c2 cs2].
    + injection Hrest as <- <-. rewrite Hstep.
      destruct (decide (present w1 p)) as [H1 | H1].
      * rewrite decide_False by tauto. reflexivity.
      * rewrite decide_True by tauto. reflexivity.
    + assert (H1 : present w1 p).
      { apply (Hmid 1%nat w1 [Returned tt]); [simpl; lia |].
        simpl. rewrite Hcall. reflexivity. }
      rewrite decide_False in Hstep by tauto. rewrite app_nil_r in Hstep.
      rewrite <- Hstep. apply (IH w1 w' rs').
      * intros c' Hc'. apply Hok. right. exact Hc'.
      * exact Hrest.
      * exact Hall.
      * exact H1.
      * intros k wk rsk Hk Hrunk.
        apply (Hmid (S k) wk (Returned tt :: rsk)); [simpl in *; lia |].
        simpl take. simpl run_calls. rewrite Hcall.
        simpl in Hrunk. rewrite Hrunk. reflexivity.
Qed.

End Period.

(** *** The count of a page along a run *)

Section Balance.

Context (P : platform).
Hypothesis Hps : valid_page_size (_page_size P).

Lemma run_call_refcount fuel n w c w' p :
  call_ok (_page_size P) fuel c →
  n + 1 < 2 ^ 32 →
  bounded_inv n w →
  run_call P fuel w c = Some (w', Returned tt) →
  refcount w' p = refcount w p + delta (_page_size P) p c.
Proof.
  pose proof (valid_page_size_bounds _ Hps) as Hb.
  assert (Hpos : 0 < _page_size P) by lia.
  intros Hok Hn Hinv. specialize (Hinv p). unfold refcount, delta, touches.
  destruct c as [ptr len | ptr len]; destruct Hok as [Hr Hf]; simpl.
  - rewrite (add_allocation_unrolled P Hps fuel w ptr len Hr Hf). intros [= Hrun].
    destruct (add_pages_Returned P _ _ _ (NoDup_walked _ ptr len Hpos) Hrun) as (Hm & _).
    rewrite (Hm p).
    destruct (decide (p ∈ walked (_page_size P) ptr len)) as [Hin | Hin].
    + rewrite bool_decide_eq_true_2 by exact Hin.
      destruct (_page_ref_count w !! p) as [c |]; simpl; [| reflexivity].
      apply wrap32_small. lia.
    + rewrite bool_decide_eq_false_2 by exact Hin. lia.
  - rewrite (remove_allocation_unrolled P Hps fuel w ptr len Hr Hf). intros [= Hrun].
    destruct (remove_pages_Returned P _ _ _ (NoDup_walked _ ptr len Hpos) Hrun)
      as (Hall & Hm & _).
    rewrite (Hm p).
    destruct (decide (p ∈ walked (_page_size P) ptr len)) as [Hin | Hin].
    + rewrite bool_decide_eq_true_2 by exact Hin.
      destruct (Hall p Hin) as [c Hc]. rewrite Hc in *. simpl.
      rewrite wrap32_small by lia.
      destruct (Z.eqb_spec (c - 1) 0); simpl; lia.
    + rewrite bool_decide_eq_false_2 by exact Hin. lia.
Qed.

Lemma run_calls_refcount fuel p cs : ∀ n w w' rs,
  (∀ c, c ∈ cs → call_ok (_page_size P) fuel c) →
  0 ≤ n → n + Z.of_nat (length cs) < 2 ^ 32 →
  bounded_inv n w →
  run_calls P fuel w cs = Some (w', rs) →
  Forall (λ r, r = Returned tt) rs →
  refcount w' p = refcount w p + balance (_page_size P) p cs ∧
  bounded_inv (n + Z.of_nat (length cs)) w'.
Proof.
  induction cs as [| c cs IH]; intros n w w' rs Hok Hn Hlt Hinv Hrun Hall.
  - injection Hrun as <- <-. simpl. rewrite !Z.add_0_r. auto.
  - apply run_calls_step in Hrun as (w1 & r & rs' & Hcall & Hrest & ->).
    apply Forall_cons in Hall as [-> Hall]. simpl length in *.
    assert (Hc : call_ok (_page_size P) fuel c) by (apply Hok; left).
    assert (Hinv1 : bounded_inv (n + 1) w1).
    { apply (run_call_bounded_inv P Hps fuel n w c w1 (Returned tt));
        [exact Hc | lia | lia | exact Hinv | exact Hcall | intros []]. }
    destruct (IH (n + 1) w1 w' rs') as (Href & Hinv').
    + intros c' Hc'. apply Hok. right. exact Hc'.
    + lia.
    + lia.
    + exact Hinv1.
    + exact Hrest.
    + exact Hall.
    + split.
      * rewrite Href, (run_call_refcount fuel n w c w1 p Hc ltac:(lia) Hinv Hcall).
        simpl. lia.
      * replace (n + Z.of_nat (S (length cs))) with (n + 1 + Z.of_nat (length cs)) by lia.
        exact Hinv'.
Qed.

End Balance.

(** C6.  [p] is a page (a multiple of the page size), and the OS calls about
    [p] are the [mlock] and [munlock] calls whose byte range shares a byte
    with [p].  A returning call on a non-empty range makes at most one OS
    call about [p]: a pin of exactly the page [p], only when the call is an
    [add_allocation] whose range touches [p] and takes its count from 0 to 1,
    or an unpin of exactly the page [p], only when the call is a
    [remove_allocation] whose range touches [p] and takes its count from 1 to
    0; a call whose range does not touch [p] makes none and leaves the count.
    Hence over a run of returning calls that starts with no allocation on
    [p], keeps at least one allocation whose range touches [p] alive after
    every call but the last, and ends with none, the OS calls about [p] are
    one pin of [p] followed by one unpin of [p], however many allocations
    shared the page; all along, the count of [p] is the number of live
    allocations whose ranges touch [p]. *)
Theorem pin_and_unpin_once_per_period (P : platform) (fuel : nat) (p : Z) :
  valid_page_size (_page_size P) →
  p mod _page_size P = 0 →
  (∀ ptr len,
     shares_byte (_page_size P) p ptr len = true ↔
     page_intersects (_page_size P) p ptr len) ∧
  (∀ w c w',
     call_ok (_page_size P) fuel c →
     0 < call_len c →
     uint32_counts w →
     run_call P fuel w c = Some (w', Returned tt) →
     ∃ new,
       os_calls_about (_page_size P) p w' = os_calls_about (_page_size P) p w ++ new ∧
       (new = [] ∨
        (new = [ev_mlock p (_page_size P)] ∧
         (∃ ptr len, c = call_add ptr len) ∧ call_touches (_page_size P) p c ∧
         refcount w p = 0 ∧ refcount w' p = 1) ∨
        (new = [ev_munlock p (_page_size P)] ∧
         (∃ ptr len, c = call_remove ptr len) ∧ call_touches (_page_size P) p c ∧
         refcount w p = 1 ∧ refcount w' p = 0)) ∧
       (¬ call_touches (_page_size P) p c →
        new = [] ∧ refcount w' p = refcount w p)) ∧
  (∀ n w cs w' rs,
     (∀ c, c ∈ cs → call_ok (_page_size P) fuel c ∧ 0 < call_len c) →
     0 ≤ n → n + Z.of_nat (length cs) < 2 ^ 32 →
     bounded_inv n w →
     refcount w p = 0 →
     run_calls P fuel w cs = Some (w', rs) →
     Forall (λ r, r = Returned tt) rs →
     (2 ≤ length cs)%nat →
     (∀ k, (0 < k < length cs)%nat → 0 < live (_page_size P) p (take k cs)) →
     live (_page_size P) p cs = 0 →
     os_calls_about (_page_size P) p w' =
       os_calls_about (_page_size P) p w ++
       [ev_mlock p (_page_size P); ev_munlock p (_page_size P)] ∧
     (∀ k wk rsk,
        run_calls P fuel w (take k cs) = Some (wk, rsk) →
        refcount wk p = live (_page_size P) p (take k cs))).
Proof.
  intros Hps Hp. pose proof (valid_page_size_bounds _ Hps) as Hb.
  assert (Hpos : 0 < _page_size P) by lia.
  split; [intros ptr len; apply shares_byte_intersects; assumption |]. split.
  - intros w c w' Hok Hlen H32 Hrun.
    destruct c as [ptr len | ptr len]; destruct Hok as [Hr Hf]; simpl in Hrun, Hlen;
      unfold call_touches;
      pose proof (walked_intersects _ ptr len p Hpos Hlen) as Hw.
    + destruct (add_call_os_calls P p Hps Hp fuel w ptr len w' Hr Hf Hrun) as (Hm & Hos).
      eexists. split; [exact Hos |]. unfold refcount. rewrite Hm.
      destruct (decide (p ∈ walked (_page_size P) ptr len)) as [Hin | Hin].
      * destruct (_page_ref_count w !! p) as [c |] eqn:Hc.
        -- rewrite decide_False by (intros [_ ?]; discriminate).
           split; [left; reflexivity | tauto].
        -- rewrite decide_True by tauto.
           split; [| tauto]. right. left.
           split; [reflexivity |]. split; [eauto |].
           split; [apply Hw; exact Hin |]. split; reflexivity.
      * rewrite decide_False by tauto. split; [left; reflexivity | auto].
    + destruct (remove_call_os_calls P p Hps Hp fuel w ptr len w' Hr Hf Hrun)
        as (Hall & Hm & Hos).
      eexists. split; [exact Hos |]. unfold refcount. rewrite Hm.
      destruct (decide (p ∈ walked (_page_size P) ptr len)) as [Hin | Hin].
      * destruct (Hall Hin) as [c Hc]. rewrite Hc.
        destruct (released (Some c)) as [c' |] eqn:Hrel.
        -- rewrite decide_False by (intros [_ ?]; discriminate).
           split; [left; reflexivity | tauto].
        -- rewrite decide_True by tauto.
           assert (Hone : Some c = Some 1).
           { apply (last_reference_uint32 _ (λ c0 E, H32 p c0 (eq_trans Hc E))).
             exists c. split; [reflexivity |]. unfold released in Hrel.
             destruct (Z.eqb_spec (wrap32 (c - 1)) 0); [assumption | discriminate]. }
           injection Hone as ->.
           split; [| tauto]. right. right.
           split; [reflexivity |]. split; [eauto |].
           split; [apply Hw; exact Hin |]. split; reflexivity.
      * rewrite decide_False by tauto. split; [left; reflexivity | auto].
  - intros n w cs w' rs Hok Hn Hlt Hinv H0 Hrun Hall Hlen Hmid Hend.
    assert (Hokc : ∀ c, c ∈ cs → call_ok (_page_size P) fuel c)
      by (intros c Hc; apply Hok; exact Hc).
    assert (Hprefix : ∀ k wk rsk,
              run_calls P fuel w (take k cs) = Some (wk, rsk) →
              refcount wk p = live (_page_size P) p (take k cs) ∧
              (present wk p ↔ 0 < live (_page_size P) p (take k cs))).
    { intros k wk rsk Hrunk.
      destruct (run_calls_take P fuel cs k w w' rs Hrun) as [wk' Hk'].
      rewrite Hrunk in Hk'. injection Hk' as _ ->.
      assert (Hin : ∀ c, c ∈ take k cs → c ∈ cs).
      { intros c Hc. apply elem_of_take in Hc as (i & Hi & _).
        exact (list_elem_of_lookup_2 _ _ _ Hi). }
      assert (Hle : (length (take k cs) ≤ length cs)%nat)
        by (rewrite length_take; lia).
      destruct (run_calls_refcount P Hps fuel p (take k cs) n w wk (take k rs))
        as (Href & Hinvk).
      - intros c Hc. apply Hokc, Hin, Hc.
      - exact Hn.
      - lia.
      - exact Hinv.
      - exact Hrunk.
      - apply Forall_take. exact Hall.
      - rewrite (balance_live _ p (take k cs) Hpos Hp) in Href
          by (intros c Hc; apply Hok, Hin, Hc).
        rewrite H0, Z.add_0_l in Href. split; [exact Href |].
        rewrite <- Href. exact (bounded_inv_present _ wk p Hinvk). }
    split; [| intros k wk rsk Hrunk; exact (proj1 (Hprefix k wk rsk Hrunk))].
    assert (Hbefore : ¬ present w p).
    { rewrite (bounded_inv_present n w p Hinv). lia. }
    assert (Hafter : ¬ present w' p).
    { destruct (Hprefix (length cs) w' rs) as [_ Hpres].
      - rewrite firstn_all. exact Hrun.
      - rewrite firstn_all in Hpres. rewrite Hpres. lia. }
    destruct cs as [| c cs]; [simpl in Hlen; lia |].
    apply run_calls_step in Hrun as (w1 & r & rs' & Hcall & Hrest & ->).
    apply Forall_cons in Hall as [-> Hall].
    pose proof (run_call_presence P p Hps Hp fuel w c w1 (Hokc c ltac:(left)) Hcall)
      as Hstep.
    assert (Hmidp : ∀ k wk rsk, (0 < k < length (c :: cs))%nat →
              run_calls P fuel w (take k (c :: cs)) = Some (wk, rsk) → present wk p).
    { intros k wk rsk Hk Hrunk.
      apply (proj2 (Hprefix k wk rsk Hrunk)). apply Hmid. exact Hk. }
    assert (H1 : present w1 p).
    { apply (Hmidp 1%nat w1 [Returned tt]); [simpl in *; lia |].
      simpl. rewrite Hcall. reflexivity. }
    rewrite decide_True in Hstep by tauto.
    rewrite (run_calls_while_present P p Hps Hp fuel cs w1 w' rs').
    + rewrite decide_False by exact Hafter. rewrite Hstep, <- app_assoc. reflexivity.
    + intros c' Hc'. apply Hokc. right. exact Hc'.
    + exact Hrest.
    + exact Hall.
    + exact H1.
    + intros k wk rsk Hk Hrunk.
      apply (Hmidp (S k) wk (Returned tt :: rsk)); [simpl in *; lia |].
      simpl take. simpl run_calls. rewrite Hcall.
      simpl in Hrunk. rewrite Hrunk. reflexivity.
Qed.

Lemma pin_and_unpin_once_per_period_witness :
  let cs := [call_add 4096 1; call_add 4112 1; call_add 4000 200;
             call_remove 4096 1; call_remove 4000 200; call_remove 4112 1] in
  valid_page_size (_page_size (os_ok 4096)) ∧
  4096 mod _page_size (os_ok 4096) = 0 ∧
  (∀ c, c ∈ cs → call_ok (_page_size (os_ok 4096)) 4 c ∧ 0 < call_len c) ∧
  bounded_inv 1 one_page_world ∧
  refcount one_page_world 4096 = 0 ∧
  (∀ k, (0 < k < length cs)%nat → 0 < live (_page_size (os_ok 4096)) 4096 (take k cs)) ∧
  live (_page_size (os_ok 4096)) 4096 cs = 0 ∧
  ∃ w',
    run_calls (os_ok 4096) 4 one_page_world cs =
      Some (w', [Returned tt; Returned tt; Returned tt;
                 Returned tt; Returned tt; Returned tt]) ∧
    os_calls_about 4096 4096 w' = [ev_mlock 4096 4096; ev_munlock 4096 4096].
Proof.
  intros cs.
  assert (Hv : valid_page_size (_page_size (os_ok 4096))).
  { exists 12. split; [lia | reflexivity]. }
  assert (Hp : 4096 mod _page_size (os_ok 4096) = 0) by reflexivity.
  assert (Hok : ∀ c, c ∈ cs → call_ok (_page_size (os_ok 4096)) 4 c ∧ 0 < call_len c).
  { intros c Hc. subst cs.
    repeat (apply elem_of_cons in Hc as [-> | Hc]); [| | | | | | inversion Hc];
      (split; [split; [unfold range_ok; split; [lia | split; [lia | vm_compute; discriminate]]
                      | vm_compute; reflexivity]
              | simpl; lia]). }
  assert (Hinv : bounded_inv 1 one_page_world).
  { intros q. unfold one_page_world. simpl.
    destruct (decide (q = 0)) as [-> | Hq].
    - rewrite lookup_singleton_eq. split; [lia | apply elem_of_singleton; reflexivity].
    - rewrite lookup_singleton_ne by congruence.
      intros Hin. apply elem_of_singleton in Hin. contradiction. }
  assert (H0 : refcount one_page_world 4096 = 0) by reflexivity.
  assert (Hmid : ∀ k, (0 < k < length cs)%nat →
            0 < live (_page_size (os_ok 4096)) 4096 (take k cs)).
  { intros k Hk. subst cs. simpl in Hk.
    destruct k as [| [| [| [| [| [| k]]]]]]; try lia; vm_compute; reflexivity. }
  assert (Hend : live (_page_size (os_ok 4096)) 4096 cs = 0) by reflexivity.
  split; [exact Hv |]. split; [exact Hp |]. split; [exact Hok |].
  split; [exact Hinv |]. split; [exact H0 |]. split; [exact Hmid |].
  split; [exact Hend |].
  assert (Hrun : ∃ w',
             run_calls (os_ok 4096) 4 one_page_world cs =
               Some (w', [Returned tt; Returned tt; Returned tt;
                          Returned tt; Returned tt; Returned tt])).
  { eexists. vm_compute. reflexivity. }
  destruct Hrun as (w' & Hrun). exists w'. split; [exact Hrun |].
  destruct (pin_and_unpin_once_per_period (os_ok 4096) 4 4096 Hv Hp) as (_ & _ & Hperiod).
  destruct (Hperiod 1 one_page_world cs w' _ Hok ltac:(lia) ltac:(simpl; lia)
              Hinv H0 Hrun ltac:(repeat constructor) ltac:(simpl; lia) Hmid Hend)
    as [Hcalls _].
  exact Hcalls.
Defined.

(** With the walk of [add_allocation(4000, 200)] the page at 4096 is shared
    by three allocations, and the page at 0 by two. *)
Example pin_and_unpin_once_per_period_trace :
  ∃ w',
    run_calls (os_ok 4096) 4 one_page_world
      [call_add 4096 1; call_add 4112 1; call_add 4000 200;
       call_remove 4096 1; call_remove 4000 200; call_remove 4112 1] =
      Some (w', [Returned tt; Returned tt; Returned tt;
                 Returned tt; Returned tt; Returned tt]) ∧
    events w' = [ev_mlock 0 4096; ev_mlock 4096 4096; ev_munlock 4096 4096] ∧
    map_to_list (_page_ref_count w') = [(0, 1)].
Proof.
  eexists. split; [vm_compute; reflexivity |].
  split; [vm_compute; reflexivity |]. vm_compute. reflexivity.
Qed.

(** ** The allocator layers *)

Lemma bind_Returned_id {A : Type} (c : option (world * result A)) :
  bind c (λ w a, Some (w, Returned a)) = c.
Proof. destruct c as [[w [a | e]] |]; reflexivity. Qed.

(** [std::fill] writes [value] to the bytes of the range and to no other. *)
Lemma fill_bytes_spec n : ∀ first value mem b,
  0 ≤ first → first + Z.of_nat n ≤ 2 ^ 64 →
  fill_bytes n first value mem b =
  if decide (first ≤ b < first + Z.of_nat n) then value else mem b.
Proof.
  induction n as [| n IH]; intros first value mem b Hfirst Hend.
  - simpl. rewrite decide_False by lia. reflexivity.
  - simpl fill_bytes. destruct n as [| n].
    + simpl. destruct (Z.eqb_spec b first) as [-> | Hne].
      * rewrite decide_True by lia. reflexivity.
      * rewrite decide_False by lia. reflexivity.
    + rewrite wrap64_small by lia. rewrite IH by lia.
      destruct (Z.eqb_spec b first) as [-> | Hne].
      * rewrite decide_False by lia. rewrite decide_True by lia. reflexivity.
      * destruct (decide (first + 1 ≤ b < first + 1 + Z.of_nat (S n))).
        -- rewrite decide_True by lia. reflexivity.
        -- rewrite decide_False by lia. reflexivity.
Qed.

Lemma std_fill_spec w first last value :
  0 ≤ first ≤ last → last < 2 ^ 64 →
  let w1 := std_fill w first last value in
  (∀ b, first ≤ b < last → memory w1 b = value) ∧
  (∀ b, ¬ (first ≤ b < last) → memory w1 b = memory w b) ∧
  history w1 = history w ++ [(ev_fill first last value, memory w1)] ∧
  _page_ref_count w1 = _page_ref_count w ∧
  locked_pages w1 = locked_pages w ∧
  _mutex w1 = _mutex w.
Proof.
  intros Hfirst Hlast. cbv zeta. unfold std_fill. simpl.
  rewrite wrap64_small by lia.
  assert (Hspec : ∀ b,
             fill_bytes (Z.to_nat (last - first)) first value (memory w) b =
             if decide (first ≤ b < last) then value else memory w b).
  { intros b. rewrite fill_bytes_spec by lia.
    rewrite Z2Nat.id by lia.
    destruct (decide (first ≤ b < last)).
    - rewrite decide_True by lia. reflexivity.
    - rewrite decide_False by lia. reflexivity. }
  split; [| split; [| auto]].
  - intros b Hb. rewrite Hspec, decide_True by exact Hb. reflexivity.
  - intros b Hb. rewrite Hspec, decide_False by exact Hb. reflexivity.
Qed.

Section Layers.

Context (P : platform).
Hypothesis Hps : valid_page_size (_page_size P).

Lemma remove_page_history w q w1 r :
  remove_page P w q = (w1, r) →
  ∃ us,
    history w1 = history w ++ ((λ p, (ev_munlock p (_page_size P), memory w)) <$> us) ∧
    memory w1 = memory w.
Proof.
  unfold remove_page. destruct (_page_ref_count w !! q) as [c |].
  - cbv zeta. destruct (wrap32 (c - 1) =? 0).
    + unfold unpin_memory. destruct (negb _); intros [= <- <-]; exists [q]; simpl; auto.
    + intros [= <- <-]. exists []. simpl. rewrite app_nil_r. auto.
  - intros [= <- <-]. exists []. simpl. rewrite app_nil_r. auto.
Qed.

(** Whatever its outcome, a removal only calls [munlock], and leaves the
    memory as it found it. *)
Lemma remove_pages_history l : ∀ w w' r,
  over_pages (remove_page P) w l = (w', r) →
  ∃ us,
    history w' = history w ++ ((λ p, (ev_munlock p (_page_size P), memory w)) <$> us) ∧
    memory w' = memory w.
Proof.
  induction l as [| q l IH]; intros w w' r; simpl.
  - intros [= <- <-]. exists []. simpl. rewrite app_nil_r. auto.
  - destruct (remove_page P w q) as [w1 [[] | e]] eqn:Hstep.
    + intros Hrun.
      apply remove_page_history in Hstep as (us1 & Hh1 & Hm1).
      apply IH in Hrun as (us2 & Hh2 & Hm2).
      exists (us1 ++ us2). rewrite Hh2, Hh1, Hm1, fmap_app, app_assoc. split; congruence.
    + intros [= <- <-]. exact (remove_page_history _ _ _ _ Hstep).
Qed.

Lemma tracker_remove_spec v fuel w ptr len :
  range_ok (_page_size P) ptr len → enough_fuel (_page_size P) fuel len →
  ∃ w1 r us,
    tracker_remove v P fuel w ptr len = Some (w1, r) ∧
    history w1 = history w ++ ((λ p, (ev_munlock p (_page_size P), memory w)) <$> us) ∧
    memory w1 = memory w ∧
    (r = Returned tt ∨ r = Thrown untracked ∨
     ∃ code, r = Thrown (system_error code "unpinning memory")).
Proof.
  intros Hr Hf. destruct v; simpl.
  - rewrite (remove_allocation_unrolled P Hps fuel w ptr len Hr Hf).
    destruct (over_pages _ w _) as [w1 r] eqn:Hrun.
    destruct (remove_pages_history _ _ _ _ Hrun) as (us & Hh & Hm).
    exists w1, r, us. split; [reflexivity |]. split; [exact Hh |]. split; [exact Hm |].
    exact (remove_pages_outcome P _ _ _ _ Hrun).
  - unfold serialized_remove_allocation, with_lock_guard.
    rewrite (remove_allocation_unrolled P Hps fuel _ ptr len Hr Hf).
    destruct (over_pages _ (set_mutex true w) _) as [w1 r] eqn:Hrun.
    destruct (remove_pages_history _ _ _ _ Hrun) as (us & Hh & Hm).
    exists (set_mutex false w1), r, us.
    split; [reflexivity |]. split; [exact Hh |]. split; [exact Hm |].
    exact (remove_pages_outcome P _ _ _ _ Hrun).
Qed.

Lemma no_swap_deallocate_unfold v fuel sizeof_T A w ptr count :
  deallocate (no_swap_allocator v P fuel sizeof_T A) w ptr count =
  bind (tracker_remove v P fuel w ptr (wrap64 (count * sizeof_T)))
       (λ w1 _, deallocate A w1 ptr count).
Proof. destruct v; reflexivity. Qed.

Lemma secure_deallocate_unfold v fuel sizeof_T A w ptr count :
  deallocate (secure_allocator v P fuel sizeof_T A) w ptr count =
  deallocate (no_swap_allocator v P fuel sizeof_T A)
             (std_fill w ptr (wrap64 (ptr + count * sizeof_T)) 0) ptr count.
Proof. destruct v; reflexivity. Qed.

End Layers.

(** C5.  The zero-on-release allocator: [allocate] is the upstream
    [allocate], result and effects alike; [deallocate(ptr, count)] hands
    [(ptr, count)] to the upstream [deallocate] in a world where every byte of
    [[ptr, ptr + count * sizeof(T))] has been set to zero by one fill, and
    nothing else has changed. *)
Theorem zero_on_release_passthrough_and_zeroing
    (sizeof_T : Z) (A : allocator) (w : world) (ptr count : Z) :
  0 ≤ ptr → 0 ≤ count → 0 ≤ sizeof_T →
  ptr + count * sizeof_T < 2 ^ 64 →
  let last := ptr + count * sizeof_T in
  (∀ len, allocate (zero_on_release_allocator sizeof_T A) w len = allocate A w len) ∧
  ∃ w1,
    deallocate (zero_on_release_allocator sizeof_T A) w ptr count =
      deallocate A w1 ptr count ∧
    zeroed (memory w1) ptr last ∧
    (∀ b, ¬ (ptr ≤ b < last) → memory w1 b = memory w b) ∧
    history w1 = history w ++ [(ev_fill ptr last 0, memory w1)] ∧
    _page_ref_count w1 = _page_ref_count w ∧
    locked_pages w1 = locked_pages w ∧
    _mutex w1 = _mutex w.
Proof.
  intros Hptr Hcount Hsize Hend last. split.
  - intros len. simpl. apply bind_Returned_id.
  - exists (std_fill w ptr last 0).
    assert (Hlast : 0 ≤ count * sizeof_T) by (apply Z.mul_nonneg_nonneg; lia).
    split.
    + simpl. fold last. rewrite (wrap64_small last) by (subst last; lia). reflexivity.
    + apply (std_fill_spec w ptr last 0); subst last; lia.
Qed.

Lemma zero_on_release_passthrough_and_zeroing_witness :
  0 ≤ 16 ∧ 0 ≤ 2 ∧ 0 ≤ 4 ∧ 16 + 2 * 4 < 2 ^ 64 ∧
  allocate (zero_on_release_allocator 4 (monitored_allocator 4 16)) fresh_world 2 =
    allocate (monitored_allocator 4 16) fresh_world 2 ∧
  ∃ w1,
    deallocate (zero_on_release_allocator 4 (monitored_allocator 4 16)) fresh_world 16 2 =
      deallocate (monitored_allocator 4 16) w1 16 2 ∧
    zeroed (memory w1) 16 24 ∧
    memory w1 24 = 90.
Proof.
  assert (H1 : 0 ≤ 16) by lia. assert (H2 : 0 ≤ 2) by lia. assert (H3 : 0 ≤ 4) by lia.
  assert (H4 : 16 + 2 * 4 < 2 ^ 64) by (vm_compute; reflexivity).
  split; [exact H1 |]. split; [exact H2 |]. split; [exact H3 |]. split; [exact H4 |].
  destruct (zero_on_release_passthrough_and_zeroing
              4 (monitored_allocator 4 16) fresh_world 16 2 H1 H2 H3 H4)
    as (Halloc & w1 & Hdealloc & Hzero & Hrest & _).
  split; [exact (Halloc 2) |].
  exists w1. split; [exact Hdealloc |]. split; [exact Hzero |].
  rewrite Hrest by lia. reflexivity.
Defined.



(** When the unpin succeeds the monitored upstream allocator sees its
    [deallocate], after the [munlock]. *)
Example no_swap_deallocate_then_upstream :
  ∃ w1,
    deallocate (no_swap_allocator unserialized (os_ok 4096) 4 4
                  (monitored_allocator 4 0)) one_page_world 0 1 =
      Some (w1, Returned tt) ∧
    events w1 = [ev_mlock 0 4096; ev_munlock 0 4096; ev_deallocate 0 4].
Proof.
  eexists. split; [vm_compute; reflexivity |]. vm_compute. reflexivity.
Qed.

(** C3.  [deallocate(ptr, count)] of a secure allocator, either variant:
    first one fill sets every byte of [[ptr, ptr + count * sizeof(T))] to
    zero; then the tracker's removal runs, and every [munlock] it makes is
    made while those bytes read as zero; then, and only if the removal
    returned, the upstream [deallocate] is called, in the world left by the
    removal. *)
Theorem secure_deallocate_zeroes_before_unlock
    (v : variant) (P : platform) (fuel : nat) (sizeof_T : Z) (A : allocator)
    (w : world) (ptr count : Z) :
  valid_page_size (_page_size P) →
  range_ok (_page_size P) ptr (count * sizeof_T) →
  enough_fuel (_page_size P) fuel (count * sizeof_T) →
  let last := ptr + count * sizeof_T in
  ∃ w0 w1 r us,
    history w0 = history w ++ [(ev_fill ptr last 0, memory w0)] ∧
    zeroed (memory w0) ptr last ∧
    _page_ref_count w0 = _page_ref_count w ∧
    locked_pages w0 = locked_pages w ∧
    tracker_remove v P fuel w0 ptr (count * sizeof_T) = Some (w1, r) ∧
    history w1 =
      history w0 ++ ((λ p, (ev_munlock p (_page_size P), memory w0)) <$> us) ∧
    memory w1 = memory w0 ∧
    match r with
    | Returned _ =>
        deallocate (secure_allocator v P fuel sizeof_T A) w ptr count =
        deallocate A w1 ptr count
    | Thrown e =>
        ∀ A', deallocate (secure_allocator v P fuel sizeof_T A') w ptr count =
              Some (w1, Thrown e)
    end.
Proof.
  intros Hps Hr Hf last. pose proof (valid_page_size_bounds _ Hps) as Hb.
  assert (Hrange : 0 ≤ ptr ≤ last ∧ last < 2 ^ 64).
  { destruct Hr as (? & ? & ?). subst last. lia. }
  assert (Hwrap : wrap64 (count * sizeof_T) = count * sizeof_T).
  { destruct Hr as (? & ? & ?). apply wrap64_small. lia. }
  assert (Hlast : wrap64 (ptr + count * sizeof_T) = last).
  { apply wrap64_small. subst last. lia. }
  destruct (std_fill_spec w ptr last 0 (proj1 Hrange) (proj2 Hrange))
    as (Hzero & _ & Hh0 & Hm0 & Hl0 & _).
  set (w0 := std_fill w ptr last 0) in *.
  destruct (tracker_remove_spec P Hps v fuel w0 ptr _ Hr Hf)
    as (w1 & r & us & Hrun & Hh & Hmem & _).
  exists w0, w1, r, us.
  split; [exact Hh0 |]. split; [exact Hzero |]. split; [exact Hm0 |].
  split; [exact Hl0 |]. split; [exact Hrun |]. split; [exact Hh |].
  split; [exact Hmem |].
  destruct r as [[] | e].
  - rewrite secure_deallocate_unfold, Hlast, no_swap_deallocate_unfold, Hwrap.
    fold w0. rewrite Hrun. reflexivity.
  - intros A'.
    rewrite secure_deallocate_unfold, Hlast, no_swap_deallocate_unfold, Hwrap.
    fold w0. rewrite Hrun. reflexivity.
Qed.

Lemma secure_deallocate_zeroes_before_unlock_witness :
  valid_page_size (_page_size (os_ok 4096)) ∧
  range_ok (_page_size (os_ok 4096)) 16 (2 * 4) ∧
  enough_fuel (_page_size (os_ok 4096)) 4 (2 * 4) ∧
  ∃ w0 w1 r us,
    history w0 = history one_page_world ++ [(ev_fill 16 24 0, memory w0)] ∧
    zeroed (memory w0) 16 24 ∧
    tracker_remove unserialized (os_ok 4096) 4 w0 16 (2 * 4) = Some (w1, r) ∧
    history w1 = history w0 ++ ((λ p, (ev_munlock p 4096, memory w0)) <$> us).
Proof.
  assert (Hv : valid_page_size (_page_size (os_ok 4096))).
  { exists 12. split; [lia | reflexivity]. }
  assert (Hr : range_ok (_page_size (os_ok 4096)) 16 (2 * 4)).
  { unfold range_ok. split; [lia | split; [lia | vm_compute; discriminate]]. }
  assert (Hf : enough_fuel (_page_size (os_ok 4096)) 4 (2 * 4)).
  { vm_compute. reflexivity. }
  split; [exact Hv |]. split; [exact Hr |]. split; [exact Hf |].
  destruct (secure_deallocate_zeroes_before_unlock
              unserialized (os_ok 4096) 4 4 (monitored_allocator 4 16)
              one_page_world 16 2 Hv Hr Hf)
    as (w0 & w1 & r & us & H1 & H2 & _ & _ & H5 & H6 & _).
  exists w0, w1, r, us. auto.
Defined.

(** The same release, run: fill, then [munlock], then the upstream
    [deallocate]; the eight bytes read as zero, their neighbours do not. *)
Example secure_deallocate_order :
  ∃ w1,
    deallocate (secure_allocator unserialized (os_ok 4096) 4 4
                  (monitored_allocator 4 16)) one_page_world 16 2 =
      Some (w1, Returned tt) ∧
    events w1 =
      [ev_mlock 0 4096; ev_fill 16 24 0; ev_munlock 0 4096; ev_deallocate 16 8] ∧
    memory w1 <$> [15; 16; 23; 24] = [90; 0; 0; 90].
Proof.
  eexists. split; [vm_compute; reflexivity |].
  split; [vm_compute; reflexivity |]. vm_compute. reflexivity.
Qed.

(** ** Calls that throw half-way *)

Section Thrown.

Context (P : platform).

Lemma add_page_Thrown_history w q w1 e :
  add_page P w q = (w1, Thrown e) →
  history w1 = history w ++ [(ev_mlock q (_page_size P), memory w)] ∧
  memory w1 = memory w.
Proof.
  unfold add_page. destruct (_page_ref_count w !! q) as [c |]; [intros [=] |].
  unfold pin_memory. destruct (negb _); intros [= <- <-]. simpl. auto.
Qed.

Lemma remove_page_Thrown_history w q w1 code what :
  remove_page P w q = (w1, Thrown (system_error code what)) →
  history w1 = history w ++ [(ev_munlock q (_page_size P), memory w)] ∧
  memory w1 = memory w.
Proof.
  unfold remove_page. destruct (_page_ref_count w !! q) as [c |]; [| intros [=]].
  cbv zeta. destruct (wrap32 (c - 1) =? 0); [| intros [=]].
  unfold unpin_memory. destruct (negb _); intros [= <- <-]. simpl. auto.
Qed.

(** The state a throwing [add_allocation] walk leaves. *)
Lemma add_pages_Thrown l w w' e :
  NoDup l →
  over_pages (add_page P) w l = (w', Thrown e) →
  ∃ before q after pinned code,
    l = before ++ q :: after ∧
    _page_ref_count w !! q = None ∧
    e = system_error code "pinning memory" ∧
    (∀ p, p ∈ before →
          _page_ref_count w' !! p = Some (bumped (_page_ref_count w !! p))) ∧
    _page_ref_count w' !! q = Some 1 ∧
    (∀ p, p ∉ before → p ≠ q → _page_ref_count w' !! p = _page_ref_count w !! p) ∧
    (∀ p, p ∈ pinned ↔ p ∈ before ∧ _page_ref_count w !! p = None) ∧
    NoDup pinned ∧
    events w' =
      events w ++ ((λ p, ev_mlock p (_page_size P)) <$> pinned) ++
      [ev_mlock q (_page_size P)] ∧
    locked_pages w' = list_to_set pinned ∪ locked_pages w.
Proof.
  intros Hnd Hrun.
  apply over_pages_Thrown in Hrun as (l1 & q & l2 & w1 & -> & Hrun & Hstep).
  apply NoDup_app in Hnd as (Hnd1 & Hdisj & _).
  assert (Hq1 : q ∉ l1) by (intros Hin; apply (Hdisj q Hin); left).
  destruct (add_pages_Returned P l1 _ _ Hnd1 Hrun)
    as (Hm & (pinned & Hh & Hndp & Hpin & Hlk) & _).
  destruct (add_page_Thrown_history _ _ _ _ Hstep) as (Hh' & _).
  apply add_page_Thrown in Hstep as (Hq & -> & Hm' & Hlk').
  rewrite Hm, decide_False in Hq by exact Hq1.
  exists l1, q, l2, pinned. eexists.
  split; [reflexivity |]. split; [exact Hq |]. split; [reflexivity |].
  split; [| split; [| split; [| split; [exact Hpin | split; [exact Hndp | split]]]]].
  - intros p Hin. rewrite Hm', lookup_insert_ne by (intros ->; contradiction).
    rewrite Hm, decide_True by exact Hin. reflexivity.
  - rewrite Hm'. apply lookup_insert_eq.
  - intros p Hin Hne. rewrite Hm', lookup_insert_ne by congruence.
    rewrite Hm, decide_False by exact Hin. reflexivity.
  - unfold events. rewrite Hh', Hh, !fmap_app, <- list_fmap_compose, <- app_assoc.
    reflexivity.
  - rewrite Hlk'. exact Hlk.
Qed.

(** The state a [remove_allocation] walk leaves when an unpin fails. *)
Lemma remove_pages_unpin_failed l w w' code what :
  NoDup l →
  over_pages (remove_page P) w l = (w', Thrown (system_error code what)) →
  ∃ before q after unpinned,
    l = before ++ q :: after ∧
    what = "unpinning memory" ∧
    last_reference (_page_ref_count w !! q) ∧
    (∀ p, p ∈ before →
          _page_ref_count w' !! p = released (_page_ref_count w !! p)) ∧
    _page_ref_count w' !! q = Some 0 ∧
    (∀ p, p ∉ before → p ≠ q → _page_ref_count w' !! p = _page_ref_count w !! p) ∧
    (∀ p, p ∈ unpinned ↔ p ∈ before ∧ last_reference (_page_ref_count w !! p)) ∧
    NoDup unpinned ∧
    events w' =
      events w ++ ((λ p, ev_munlock p (_page_size P)) <$> unpinned) ++
      [ev_munlock q (_page_size P)] ∧
    locked_pages w' = locked_pages w ∖ list_to_set unpinned.
Proof.
  intros Hnd Hrun.
  apply over_pages_Thrown in Hrun as (l1 & q & l2 & w1 & -> & Hrun & Hstep).
  apply NoDup_app in Hnd as (Hnd1 & Hdisj & _).
  assert (Hq1 : q ∉ l1) by (intros Hin; apply (Hdisj q Hin); left).
  destruct (remove_pages_Returned P l1 _ _ Hnd1 Hrun)
    as (_ & Hm & (unpinned & Hh & Hndu & Hunp & Hlk) & _).
  destruct (remove_page_Thrown_history _ _ _ _ _ Hstep) as (Hh' & _).
  apply remove_page_Thrown in Hstep
    as [(Habs & _) | (code' & [= <- <-] & Hlast & Hm' & Hlk')]; [discriminate |].
  rewrite Hm, decide_False in Hlast by exact Hq1.
  exists l1, q, l2, unpinned.
  split; [reflexivity |]. split; [reflexivity |]. split; [exact Hlast |].
  split; [| split; [| split; [| split; [exact Hunp | split; [exact Hndu | split]]]]].
  - intros p Hin. rewrite Hm', lookup_insert_ne by (intros ->; contradiction).
    rewrite Hm, decide_True by exact Hin. reflexivity.
  - rewrite Hm'. apply lookup_insert_eq.
  - intros p Hin Hne. rewrite Hm', lookup_insert_ne by congruence.
    rewrite Hm, decide_False by exact Hin. reflexivity.
  - unfold events. rewrite Hh', Hh, !fmap_app, <- list_fmap_compose, <- app_assoc.
    reflexivity.
  - rewrite Hlk'. exact Hlk.
Qed.

Lemma add_pages_outcome l w w' r :
  over_pages (add_page P) w l = (w', r) →
  r = Returned tt ∨ ∃ code, r = Thrown (system_error code "pinning memory").
Proof.
  destruct r as [[] | e]; [auto |]. intros Hrun. right.
  apply over_pages_Thrown in Hrun as (l1 & q & l2 & w1 & _ & _ & Hstep).
  apply add_page_Thrown in Hstep as (_ & -> & _). eauto.
Qed.

(** Over pages that all have their entry the walk only counts. *)
Lemma add_pages_all_present l w w' r :
  NoDup l →
  (∀ p, p ∈ l → present w p) →
  over_pages (add_page P) w l = (w', r) →
  r = Returned tt ∧ history w' = history w ∧ locked_pages w' = locked_pages w.
Proof.
  intros Hnd Hall Hrun. destruct r as [[] | e].
  - destruct (add_pages_Returned P l _ _ Hnd Hrun)
      as (_ & (pinned & Hh & _ & Hpin & Hlk) & _).
    assert (pinned = []) as ->.
    { destruct pinned as [| x pinned]; [reflexivity |]. exfalso.
      destruct (proj1 (Hpin x) ltac:(left)) as [Hin Hnone].
      destruct (Hall x Hin) as [c Hc]. congruence. }
    simpl in Hh, Hlk. rewrite app_nil_r in Hh.
    rewrite (left_id_L ∅ (∪)) in Hlk. auto.
  - exfalso.
    apply add_pages_Thrown in Hrun
      as (l1 & q & l2 & pinned & code & -> & Hq & _); [| exact Hnd].
    destruct (Hall q) as [c Hc]; [apply elem_of_app; right; left | congruence].
Qed.

End Thrown.

(** X1.  [add_allocation] returns, or throws the system error of a failed
    pin, and nothing else.  When every page its walk visits already has an
    entry it returns without calling the OS: no event is recorded and the set
    of pinned pages is unchanged. *)
Theorem add_allocation_only_fails_on_pin
    (P : platform) (fuel : nat) (w : world) (ptr len : Z) :
  valid_page_size (_page_size P) →
  range_ok (_page_size P) ptr len →
  enough_fuel (_page_size P) fuel len →
  ∃ w' r,
    add_allocation P fuel w ptr len = Some (w', r) ∧
    (r = Returned tt ∨ ∃ code, r = Thrown (system_error code "pinning memory")) ∧
    ((∀ p, p ∈ walked (_page_size P) ptr len → present w p) →
     r = Returned tt ∧ events w' = events w ∧ locked_pages w' = locked_pages w).
Proof.
  intros Hps Hr Hf. pose proof (valid_page_size_bounds _ Hps) as Hb.
  assert (Hpos : 0 < _page_size P) by lia.
  rewrite (add_allocation_unrolled P Hps fuel w ptr len Hr Hf).
  destruct (over_pages (add_page P) w (walked (_page_size P) ptr len))
    as [w' r] eqn:Hrun.
  exists w', r. split; [reflexivity |].
  split; [exact (add_pages_outcome P _ _ _ _ Hrun) |].
  intros Hall.
  destruct (add_pages_all_present P _ _ _ _ (NoDup_walked _ ptr len Hpos) Hall Hrun)
    as (-> & Hh & Hlk).
  split; [reflexivity |]. split; [unfold events; rewrite Hh; reflexivity | exact Hlk].
Qed.

Lemma add_allocation_only_fails_on_pin_witness :
  valid_page_size (_page_size os_mlock_fails) ∧
  range_ok (_page_size os_mlock_fails) 16 4 ∧
  enough_fuel (_page_size os_mlock_fails) 4 4 ∧
  ∃ w',
    add_allocation os_mlock_fails 4 one_page_world 16 4 = Some (w', Returned tt) ∧
    events w' = events one_page_world ∧
    _page_ref_count w' !! 0 = Some 2.
Proof.
  assert (Hv : valid_page_size (_page_size os_mlock_fails)).
  { exists 12. split; [lia | reflexivity]. }
  assert (Hr : range_ok (_page_size os_mlock_fails) 16 4).
  { unfold range_ok. split; [lia | split; [lia | vm_compute; discriminate]]. }
  assert (Hf : enough_fuel (_page_size os_mlock_fails) 4 4).
  { vm_compute. reflexivity. }
  split; [exact Hv |]. split; [exact Hr |]. split; [exact Hf |].
  destruct (add_allocation_only_fails_on_pin os_mlock_fails 4 one_page_world 16 4 Hv Hr Hf)
    as (w' & r & Hrun & _ & Hall).
  destruct Hall as (-> & Hev & _).
  { intros p Hp. change (walked (_page_size os_mlock_fails) 16 4) with [0] in Hp.
    apply list_elem_of_singleton in Hp as ->. exists 1. reflexivity. }
  exists w'. split; [exact Hrun |]. split; [exact Hev |].
  assert (Hm : ((λ x, _page_ref_count (fst x) !! 0) <$>
                add_allocation os_mlock_fails 4 one_page_world 16 4) = Some (Some 2))
    by (vm_compute; reflexivity).
  rewrite Hrun in Hm. simpl in Hm. congruence.
Defined.

(** X2.  When [add_allocation] throws, the walk splits into the pages before
    the page [q] whose pin failed, [q], and the pages after it.  The pages
    before [q] keep their raised counts and their pins, [q] keeps the entry
    with count 1 that was created for it although it was not pinned, later
    pages are untouched, and the error is the system error of the pin. *)
Theorem add_allocation_failure_is_not_rolled_back
    (P : platform) (fuel : nat) (w w' : world) (ptr len : Z) (e : exn) :
  valid_page_size (_page_size P) →
  range_ok (_page_size P) ptr len →
  enough_fuel (_page_size P) fuel len →
  add_allocation P fuel w ptr len = Some (w', Thrown e) →
  ∃ before q after pinned code,
    walked (_page_size P) ptr len = before ++ q :: after ∧
    _page_ref_count w !! q = None ∧
    e = system_error code "pinning memory" ∧
    (∀ p, p ∈ before →
          _page_ref_count w' !! p = Some (bumped (_page_ref_count w !! p))) ∧
    _page_ref_count w' !! q = Some 1 ∧
    (∀ p, p ∉ before → p ≠ q → _page_ref_count w' !! p = _page_ref_count w !! p) ∧
    (∀ p, p ∈ pinned ↔ p ∈ before ∧ _page_ref_count w !! p = None) ∧
    NoDup pinned ∧
    events w' =
      events w ++ ((λ p, ev_mlock p (_page_size P)) <$> pinned) ++
      [ev_mlock q (_page_size P)] ∧
    locked_pages w' = list_to_set pinned ∪ locked_pages w.
Proof.
  intros Hps Hr Hf. pose proof (valid_page_size_bounds _ Hps) as Hb.
  assert (Hpos : 0 < _page_size P) by lia.
  rewrite (add_allocation_unrolled P Hps fuel w ptr len Hr Hf). intros [= Hrun].
  exact (add_pages_Thrown P _ _ _ _ (NoDup_walked _ ptr len Hpos) Hrun).
Qed.

Lemma add_allocation_failure_is_not_rolled_back_witness :
  valid_page_size (_page_size os_mlock_fails) ∧
  range_ok (_page_size os_mlock_fails) 16 8192 ∧
  enough_fuel (_page_size os_mlock_fails) 5 8192 ∧
  ∃ w' q,
    add_allocation os_mlock_fails 5 one_page_world 16 8192 =
      Some (w', Thrown (system_error 22 "pinning memory")) ∧
    _page_ref_count one_page_world !! q = None ∧
    _page_ref_count w' !! q = Some 1.
Proof.
  assert (Hv : valid_page_size (_page_size os_mlock_fails)).
  { exists 12. split; [lia | reflexivity]. }
  assert (Hr : range_ok (_page_size os_mlock_fails) 16 8192).
  { unfold range_ok. split; [lia | split; [lia | vm_compute; discriminate]]. }
  assert (Hf : enough_fuel (_page_size os_mlock_fails) 5 8192).
  { vm_compute. reflexivity. }
  split; [exact Hv |]. split; [exact Hr |]. split; [exact Hf |].
  assert (Hrun : ∃ w', add_allocation os_mlock_fails 5 one_page_world 16 8192 =
                       Some (w', Thrown (system_error 22 "pinning memory"))).
  { eexists. vm_compute. reflexivity. }
  destruct Hrun as (w' & Hrun).
  destruct (add_allocation_failure_is_not_rolled_back
              os_mlock_fails 5 one_page_world w' 16 8192 _ Hv Hr Hf Hrun)
    as (before & q & after & pinned & code & _ & Hq & _ & _ & Hq' & _).
  exists w', q. auto.
Defined.

(** X3.  When [remove_allocation] throws because an unpin failed, the page
    [q] whose unpin failed held its last reference; its entry stays, with
    count 0, and the page stays pinned if it was.  The pages before [q] keep
    their lowered counts (those that reached zero are unpinned and erased) and
    later pages are untouched. *)
Theorem remove_allocation_unpin_failure_leaves_zero_count
    (P : platform) (fuel : nat) (w w' : world) (ptr len code : Z) (what : string) :
  valid_page_size (_page_size P) →
  range_ok (_page_size P) ptr len →
  enough_fuel (_page_size P) fuel len →
  remove_allocation P fuel w ptr len = Some (w', Thrown (system_error code what)) →
  ∃ before q after unpinned,
    walked (_page_size P) ptr len = before ++ q :: after ∧
    what = "unpinning memory" ∧
    last_reference (_page_ref_count w !! q) ∧
    (∀ p, p ∈ before →
          _page_ref_count w' !! p = released (_page_ref_count w !! p)) ∧
    _page_ref_count w' !! q = Some 0 ∧
    (∀ p, p ∉ before → p ≠ q → _page_ref_count w' !! p = _page_ref_count w !! p) ∧
    (∀ p, p ∈ unpinned ↔ p ∈ before ∧ last_reference (_page_ref_count w !! p)) ∧
    NoDup unpinned ∧
    events w' =
      events w ++ ((λ p, ev_munlock p (_page_size P)) <$> unpinned) ++
      [ev_munlock q (_page_size P)] ∧
    locked_pages w' = locked_pages w ∖ list_to_set unpinned.
Proof.
  intros Hps Hr Hf. pose proof (valid_page_size_bounds _ Hps) as Hb.
  assert (Hpos : 0 < _page_size P) by lia.
  rewrite (remove_allocation_unrolled P Hps fuel w ptr len Hr Hf). intros [= Hrun].
  exact (remove_pages_unpin_failed P _ _ _ _ _ (NoDup_walked _ ptr len Hpos) Hrun).
Qed.

Lemma remove_allocation_unpin_failure_leaves_zero_count_witness :
  valid_page_size (_page_size os_munlock_fails) ∧
  range_ok (_page_size os_munlock_fails) 0 4 ∧
  enough_fuel (_page_size os_munlock_fails) 4 4 ∧
  ∃ w' q,
    remove_allocation os_munlock_fails 4 one_page_world 0 4 =
      Some (w', Thrown (system_error 22 "unpinning memory")) ∧
    last_reference (_page_ref_count one_page_world !! q) ∧
    _page_ref_count w' !! q = Some 0.
Proof.
  assert (Hv : valid_page_size (_page_size os_munlock_fails)).
  { exists 12. split; [lia | reflexivity]. }
  assert (Hr : range_ok (_page_size os_munlock_fails) 0 4).
  { unfold range_ok. split; [lia | split; [lia | vm_compute; discriminate]]. }
  assert (Hf : enough_fuel (_page_size os_munlock_fails) 4 4).
  { vm_compute. reflexivity. }
  split; [exact Hv |]. split; [exact Hr |]. split; [exact Hf |].
  assert (Hrun : ∃ w', remove_allocation os_munlock_fails 4 one_page_world 0 4 =
                       Some (w', Thrown (system_error 22 "unpinning memory"))).
  { eexists. vm_compute. reflexivity. }
  destruct Hrun as (w' & Hrun).
  destruct (remove_allocation_unpin_failure_leaves_zero_count
              os_munlock_fails 4 one_page_world w' 0 4 22 _ Hv Hr Hf Hrun)
    as (before & q & after & unpinned & _ & _ & Hlast & _ & Hq' & _).
  exists w', q. auto.
Defined.

(** ** Registering and releasing the same range *)

Lemma released_bumped o :
  (∀ c, o = Some c → 1 ≤ c < 2 ^ 32 - 1) →
  released (Some (bumped o)) = o ∧ (last_reference (Some (bumped o)) ↔ o = None).
Proof.
  intros Hc. destruct o as [c |]; simpl.
  - specialize (Hc c eq_refl).
    rewrite (wrap32_small (c + 1)) by lia.
    replace (c + 1 - 1) with c by lia. rewrite (wrap32_small c) by lia.
    destruct (Z.eqb_spec c 0) as [? | _]; [lia |].
    split; [reflexivity |]. split; [| discriminate].
    intros (c' & [= <-] & H0). replace (c + 1 - 1) with c in H0 by lia.
    rewrite wrap32_small in H0 by lia. lia.
  - split; [reflexivity |]. split; [reflexivity |]. intros _. exists 1. auto.
Qed.

(** X4.  On a tracker that satisfies its invariant and whose counts are below
    the largest [std::uint32_t], [add_allocation(p, l)] followed by
    [remove_allocation(p, l)], both returning, gives back the mapping and the
    set of pinned pages it started from; the removal never meets an untracked
    page. *)
Theorem add_then_remove_restores_tracker
    (P : platform) (fuel : nat) (w : world) (ptr len : Z) :
  valid_page_size (_page_size P) →
  range_ok (_page_size P) ptr len →
  enough_fuel (_page_size P) fuel len →
  tracker_inv w →
  (∀ p c, _page_ref_count w !! p = Some c → c < 2 ^ 32 - 1) →
  ∃ w1 r1,
    add_allocation P fuel w ptr len = Some (w1, r1) ∧
    (r1 = Returned tt →
     ∃ w2 r2,
       remove_allocation P fuel w1 ptr len = Some (w2, r2) ∧
       r2 ≠ Thrown untracked ∧
       (r2 = Returned tt →
        _page_ref_count w2 = _page_ref_count w ∧ locked_pages w2 = locked_pages w)).
Proof.
  intros Hps Hr Hf Hinv Hmax. pose proof (valid_page_size_bounds _ Hps) as Hb.
  assert (Hpos : 0 < _page_size P) by lia.
  pose proof (NoDup_walked (_page_size P) ptr len Hpos) as Hnd.
  assert (Hcount : ∀ p c, _page_ref_count w !! p = Some c → 1 ≤ c < 2 ^ 32 - 1).
  { intros p c Hc. specialize (Hinv p). specialize (Hmax p c Hc).
    rewrite Hc in Hinv. lia. }
  rewrite (add_allocation_unrolled P Hps fuel w ptr len Hr Hf).
  destruct (over_pages (add_page P) w (walked (_page_size P) ptr len)) as [w1 r1] eqn:Hadd.
  exists w1, r1. split; [reflexivity |]. intros ->.
  destruct (add_pages_Returned P _ _ _ Hnd Hadd)
    as (Hm1 & (pinned & _ & _ & Hpin & Hlk1) & _).
  rewrite (remove_allocation_unrolled P Hps fuel w1 ptr len Hr Hf).
  destruct (over_pages (remove_page P) w1 (walked (_page_size P) ptr len))
    as [w2 r2] eqn:Hrem.
  exists w2, r2. split; [reflexivity |]. split.
  - intros ->.
    apply remove_pages_untracked in Hrem as (l1 & q & l2 & Hl & Hq & _); [| exact Hnd].
    rewrite Hm1, decide_True in Hq; [discriminate |].
    rewrite Hl. apply elem_of_app. right. left.
  - intros ->.
    destruct (remove_pages_Returned P _ _ _ Hnd Hrem)
      as (_ & Hm2 & (unpinned & _ & _ & Hunp & Hlk2) & _).
    split.
    + apply map_eq. intros p. rewrite Hm2, Hm1.
      case_decide as Hin; [| reflexivity].
      apply released_bumped. exact (Hcount p).
    + rewrite Hlk2, Hlk1. apply set_eq. intros p.
      rewrite elem_of_difference, elem_of_union, !elem_of_list_to_set, Hunp, Hpin, Hm1.
      specialize (Hinv p).
      destruct (decide (p ∈ walked (_page_size P) ptr len)) as [Hin | Hin].
      * pose proof (proj2 (released_bumped _ (Hcount p))) as Hlast.
        destruct (_page_ref_count w !! p) as [c |] eqn:Hp.
        -- split; [tauto |]. intros Hlocked. split; [tauto |].
           intros [_ Hl]. apply Hlast in Hl. discriminate.
        -- split; [| tauto]. intros [_ Hno]. exfalso. apply Hno.
           split; [exact Hin | apply Hlast; reflexivity].
      * tauto.
Qed.

Lemma add_then_remove_restores_tracker_witness :
  valid_page_size (_page_size (os_ok 4096)) ∧
  range_ok (_page_size (os_ok 4096)) 16 8192 ∧
  enough_fuel (_page_size (os_ok 4096)) 5 8192 ∧
  tracker_inv one_page_world ∧
  ∃ w1 w2,
    add_allocation (os_ok 4096) 5 one_page_world 16 8192 = Some (w1, Returned tt) ∧
    remove_allocation (os_ok 4096) 5 w1 16 8192 = Some (w2, Returned tt) ∧
    _page_ref_count w2 = _page_ref_count one_page_world ∧
    locked_pages w2 = locked_pages one_page_world.
Proof.
  assert (Hv : valid_page_size (_page_size (os_ok 4096))).
  { exists 12. split; [lia | reflexivity]. }
  assert (Hr : range_ok (_page_size (os_ok 4096)) 16 8192).
  { unfold range_ok. split; [lia | split; [lia | vm_compute; discriminate]]. }
  assert (Hf : enough_fuel (_page_size (os_ok 4096)) 5 8192).
  { vm_compute. reflexivity. }
  assert (Hlookup : ∀ p, _page_ref_count one_page_world !! p =
                         if decide (p = 0) then Some 1 else None).
  { intros p. unfold one_page_world. simpl. destruct (decide (p = 0)) as [-> | Hne].
    - apply lookup_singleton_eq.
    - apply lookup_singleton_ne. congruence. }
  assert (Hinv : tracker_inv one_page_world).
  { intros p. rewrite Hlookup. unfold one_page_world. simpl.
    destruct (decide (p = 0)) as [-> | Hne].
    - split; [lia | apply elem_of_singleton; reflexivity].
    - rewrite elem_of_singleton. congruence. }
  assert (Hmax : ∀ p c, _page_ref_count one_page_world !! p = Some c → c < 2 ^ 32 - 1).
  { intros p c. rewrite Hlookup. destruct (decide (p = 0)); [| discriminate].
    intros [= <-]. reflexivity. }
  split; [exact Hv |]. split; [exact Hr |]. split; [exact Hf |]. split; [exact Hinv |].
  destruct (add_then_remove_restores_tracker
              (os_ok 4096) 5 one_page_world 16 8192 Hv Hr Hf Hinv Hmax)
    as (w1 & r1 & Hadd & Hnext).
  assert (Hboth : (snd <$> bind (add_allocation (os_ok 4096) 5 one_page_world 16 8192)
                             (λ w1 _, remove_allocation (os_ok 4096) 5 w1 16 8192)) =
                  Some (Returned tt)) by (vm_compute; reflexivity).
  assert (Hr1 : (snd <$> add_allocation (os_ok 4096) 5 one_page_world 16 8192) =
                Some (Returned tt)) by (vm_compute; reflexivity).
  rewrite Hadd in Hr1, Hboth. simpl in Hr1. injection Hr1 as ->. simpl in Hboth.
  destruct (Hnext eq_refl) as (w2 & r2 & Hrem & _ & Hback).
  rewrite Hrem in Hboth. simpl in Hboth. injection Hboth as ->.
  exists w1, w2. destruct (Hback eq_refl). auto.
Defined.

(** ** The count of a page is the number of live registrations *)

(** X5.  After fewer than 2^32 calls that all returned, on a tracker that
    started without entries and without pinned pages, the count of every page
    is the number of [add_allocation] calls whose walk visited it minus the
    number of [remove_allocation] calls whose walk visited it; the page has an
    entry, and is pinned, exactly when that number is positive. *)
Theorem refcount_counts_live_registrations
    (P : platform) (fuel : nat) (w0 w' : world) (cs : list call)
    (rs : list (result unit)) (p : Z) :
  valid_page_size (_page_size P) →
  (∀ c, c ∈ cs → call_ok (_page_size P) fuel c) →
  Z.of_nat (length cs) < 2 ^ 32 →
  _page_ref_count w0 = ∅ →
  locked_pages w0 = ∅ →
  run_calls P fuel w0 cs = Some (w', rs) →
  Forall (λ r, r = Returned tt) rs →
  refcount w' p = balance (_page_size P) p cs ∧
  (present w' p ↔ 0 < balance (_page_size P) p cs) ∧
  (p ∈ locked_pages w' ↔ 0 < balance (_page_size P) p cs).
Proof.
  intros Hps Hok Hlen Hm0 Hl0 Hrun Hall.
  assert (Hinv0 : bounded_inv 0 w0).
  { intros q. rewrite Hm0, Hl0, lookup_empty. apply not_elem_of_empty. }
  destruct (run_calls_refcount P Hps fuel p cs 0 w0 w' rs Hok ltac:(lia) ltac:(lia)
              Hinv0 Hrun Hall) as (Href & Hinv).
  assert (H0 : refcount w0 p = 0) by (unfold refcount; rewrite Hm0, lookup_empty; reflexivity).
  rewrite H0, Z.add_0_l in Href. rewrite <- Href.
  split; [reflexivity |].
  specialize (Hinv p). unfold refcount, present.
  destruct (_page_ref_count w' !! p) as [c |]; simpl.
  - split; (split; [intros _; lia | intros _; eauto; tauto]).
  - split; (split; [intros H; try (destruct H; discriminate); contradiction | lia]).
Qed.

Lemma refcount_counts_live_registrations_witness :
  let cs := [call_add 0 1; call_add 16 8192; call_remove 0 1] in
  valid_page_size (_page_size (os_ok 4096)) ∧
  (∀ c, c ∈ cs → call_ok (_page_size (os_ok 4096)) 5 c) ∧
  Z.of_nat (length cs) < 2 ^ 32 ∧
  ∃ w',
    run_calls (os_ok 4096) 5 fresh_world cs =
      Some (w', [Returned tt; Returned tt; Returned tt]) ∧
    refcount w' 0 = 1 ∧ refcount w' 4096 = 1 ∧ refcount w' 12288 = 0.
Proof.
  intros cs.
  assert (Hv : valid_page_size (_page_size (os_ok 4096))).
  { exists 12. split; [lia | reflexivity]. }
  assert (Hok : ∀ c, c ∈ cs → call_ok (_page_size (os_ok 4096)) 5 c).
  { intros c Hc. subst cs.
    repeat (apply elem_of_cons in Hc as [-> | Hc]); [| | | inversion Hc];
      (split; [unfold range_ok; split; [lia | split; [lia | vm_compute; discriminate]]
              | vm_compute; reflexivity]). }
  assert (Hlen : Z.of_nat (length cs) < 2 ^ 32) by (vm_compute; reflexivity).
  split; [exact Hv |]. split; [exact Hok |]. split; [exact Hlen |].
  assert (Hrun : ∃ w', run_calls (os_ok 4096) 5 fresh_world cs =
                       Some (w', [Returned tt; Returned tt; Returned tt])).
  { eexists. vm_compute. reflexivity. }
  destruct Hrun as (w' & Hrun). exists w'. split; [exact Hrun |].
  assert (Hall : Forall (λ r : result unit, r = Returned tt)
                        [Returned tt; Returned tt; Returned tt])
    by (repeat constructor).
  pose proof (λ p, proj1 (refcount_counts_live_registrations
                            (os_ok 4096) 5 fresh_world w' cs _ p Hv Hok Hlen
                            eq_refl eq_refl Hrun Hall)) as Hcount.
  rewrite !Hcount. split; [| split]; vm_compute; reflexivity.
Defined.

(** ** Whole pages only *)

Section Footprint.

Context (P : platform).

Lemma add_page_confined : confined (_page_size P) (add_page P).
Proof.
  intros w q w1 r. unfold add_page, present.
  destruct (_page_ref_count w !! q) as [c |] eqn:Hq.
  - intros [= <- <-]. simpl. split.
    + exists []. rewrite app_nil_r. split; [reflexivity | constructor].
    + intros p. destruct (decide (p = q)) as [-> | Hne]; [auto |].
      rewrite lookup_insert_ne by congruence. auto.
  - unfold pin_memory, emplace. rewrite Hq.
    destruct (negb _); intros [= <- <-]; simpl; (split;
      [ exists [ev_mlock q (_page_size P)]; unfold events; simpl;
        rewrite fmap_app; split;
          [reflexivity | constructor; [left; reflexivity | constructor]]
      | intros p; destruct (decide (p = q)) as [-> | Hne]; [auto |];
        rewrite lookup_insert_ne by congruence; auto ]).
Qed.

Lemma remove_page_confined : confined (_page_size P) (remove_page P).
Proof.
  intros w q w1 r. unfold remove_page, present.
  destruct (_page_ref_count w !! q) as [c |] eqn:Hq.
  - cbv zeta. destruct (wrap32 (c - 1) =? 0).
    + unfold unpin_memory.
      destruct (negb _); intros [= <- <-]; simpl; (split;
        [ exists [ev_munlock q (_page_size P)]; unfold events; simpl;
          rewrite fmap_app; split;
            [reflexivity | constructor; [right; reflexivity | constructor]] |]).
      * intros p. destruct (decide (p = q)) as [-> | Hne]; [auto |].
        rewrite lookup_insert_ne by congruence. auto.
      * intros p. destruct (decide (p = q)) as [-> | Hne]; [auto |].
        rewrite lookup_delete_ne, lookup_insert_ne by congruence. auto.
    + intros [= <- <-]. simpl. split.
      * exists []. rewrite app_nil_r. split; [reflexivity | constructor].
      * intros p. destruct (decide (p = q)) as [-> | Hne]; [auto |].
        rewrite lookup_insert_ne by congruence. auto.
  - intros [= <- <-]. split; [| auto].
    exists []. rewrite app_nil_r. split; [reflexivity | constructor].
Qed.

Lemma over_pages_confined step l : ∀ w w' r,
  confined (_page_size P) step →
  over_pages step w l = (w', r) →
  (∃ new,
      events w' = events w ++ new ∧
      Forall (λ e, ∃ q, q ∈ l ∧
                        (e = ev_mlock q (_page_size P) ∨ e = ev_munlock q (_page_size P)))
             new) ∧
  (∀ p, present w' p → present w p ∨ p ∈ l).
Proof.
  induction l as [| q l IH]; intros w w' r Hstep; simpl.
  - intros [= <- <-]. split; [| auto].
    exists []. rewrite app_nil_r. split; [reflexivity | constructor].
  - destruct (step w q) as [w1 r1] eqn:Hq.
    destruct (Hstep _ _ _ _ Hq) as ((new1 & Hev1 & Hall1) & Hkeys1).
    assert (Hall1' : Forall (λ e, ∃ q', q' ∈ q :: l ∧
                               (e = ev_mlock q' (_page_size P) ∨
                                e = ev_munlock q' (_page_size P))) new1).
    { eapply Forall_impl; [exact Hall1 |]. intros e He. exists q. split; [left | exact He]. }
    assert (Hkeys1' : ∀ p, present w1 p → present w p ∨ p ∈ q :: l).
    { intros p Hp. destruct (Hkeys1 p Hp) as [? | ->]; [auto | right; left]. }
    destruct r1 as [[] | e].
    + intros Hrun. destruct (IH _ _ _ Hstep Hrun) as ((new2 & Hev2 & Hall2) & Hkeys2).
      split.
      * exists (new1 ++ new2). rewrite Hev2, Hev1, app_assoc. split; [reflexivity |].
        apply Forall_app. split; [exact Hall1' |].
        eapply Forall_impl; [exact Hall2 |].
        intros e (q' & Hq' & He). exists q'. split; [right; exact Hq' | exact He].
      * intros p Hp. destruct (Hkeys2 p Hp) as [Hp1 | Hin]; [auto | right; right; exact Hin].
    + intros [= <- <-]. split; [exists new1; auto | exact Hkeys1'].
Qed.

End Footprint.

(** X6.  Whatever the calls do, return or throw, the tracker only ever asks
    the OS to pin or unpin one whole page at a time (a page base address and
    the page size), and only page base addresses become keys of the mapping. *)
Theorem tracker_only_handles_whole_pages
    (P : platform) (fuel : nat) (cs : list call) : ∀ (w : world),
  valid_page_size (_page_size P) →
  (∀ c, c ∈ cs → call_ok (_page_size P) fuel c) →
  ∃ w' rs new,
    run_calls P fuel w cs = Some (w', rs) ∧
    events w' = events w ++ new ∧
    Forall (whole_page_call (_page_size P)) new ∧
    (aligned_keys (_page_size P) w → aligned_keys (_page_size P) w').
Proof.
  induction cs as [| c cs IH]; intros w Hps Hok.
  - exists w, [], []. simpl. rewrite app_nil_r. auto.
  - pose proof (valid_page_size_bounds _ Hps) as Hb.
    assert (Hpos : 0 < _page_size P) by lia.
    assert (Hc : call_ok (_page_size P) fuel c) by (apply Hok; left).
    assert (Hone : ∃ w1 r (l : list Z),
               run_call P fuel w c = Some (w1, r) ∧
               (∀ q, q ∈ l → q mod _page_size P = 0) ∧
               (∃ new,
                   events w1 = events w ++ new ∧
                   Forall (λ e, ∃ q, q ∈ l ∧
                                     (e = ev_mlock q (_page_size P) ∨
                                      e = ev_munlock q (_page_size P))) new) ∧
               (∀ p, present w1 p → present w p ∨ p ∈ l)).
    { destruct c as [ptr len | ptr len]; destruct Hc as [Hr Hf]; simpl.
      - rewrite (add_allocation_unrolled P Hps fuel w ptr len Hr Hf).
        destruct (over_pages _ w _) as [w1 r] eqn:Hrun.
        exists w1, r, (walked (_page_size P) ptr len). split; [reflexivity |].
        split; [intros q Hq; apply (elem_of_walked _ ptr len q Hpos) in Hq; tauto |].
        exact (over_pages_confined P _ _ _ _ _ (add_page_confined P) Hrun).
      - rewrite (remove_allocation_unrolled P Hps fuel w ptr len Hr Hf).
        destruct (over_pages _ w _) as [w1 r] eqn:Hrun.
        exists w1, r, (walked (_page_size P) ptr len). split; [reflexivity |].
        split; [intros q Hq; apply (elem_of_walked _ ptr len q Hpos) in Hq; tauto |].
        exact (over_pages_confined P _ _ _ _ _ (remove_page_confined P) Hrun). }
    destruct Hone as (w1 & r & l & Hcall & Hal & (new1 & Hev1 & Hall1) & Hkeys1).
    destruct (IH w1 Hps) as (w' & rs & new2 & Hrun & Hev2 & Hall2 & Hkeys2).
    { intros c' Hc'. apply Hok. right. exact Hc'. }
    exists w', (r :: rs), (new1 ++ new2).
    split; [simpl; rewrite Hcall, Hrun; reflexivity |].
    split; [rewrite Hev2, Hev1, app_assoc; reflexivity |].
    split.
    + apply Forall_app. split; [| exact Hall2].
      eapply Forall_impl; [exact Hall1 |].
      intros e (q & Hq & He). exists q. split; [apply Hal; exact Hq | exact He].
    + intros Hkeys. apply Hkeys2. intros p Hp.
      destruct (Hkeys1 p Hp) as [Hp0 | Hin]; [apply Hkeys; exact Hp0 | apply Hal; exact Hin].
Qed.

Lemma tracker_only_handles_whole_pages_witness :
  let cs := [call_add 100 5000; call_remove 0 8192; call_remove 100 20000] in
  valid_page_size (_page_size os_munlock_fails) ∧
  (∀ c, c ∈ cs → call_ok (_page_size os_munlock_fails) 8 c) ∧
  ∃ w' rs new,
    run_calls os_munlock_fails 8 fresh_world cs = Some (w', rs) ∧
    events w' = events fresh_world ++ new ∧
    Forall (whole_page_call (_page_size os_munlock_fails)) new ∧
    aligned_keys (_page_size os_munlock_fails) w'.
Proof.
  intros cs.
  assert (Hv : valid_page_size (_page_size os_munlock_fails)).
  { exists 12. split; [lia | reflexivity]. }
  assert (Hok : ∀ c, c ∈ cs → call_ok (_page_size os_munlock_fails) 8 c).
  { intros c Hc. subst cs.
    repeat (apply elem_of_cons in Hc as [-> | Hc]); [| | | inversion Hc];
      (split; [unfold range_ok; split; [lia | split; [lia | vm_compute; discriminate]]
              | vm_compute; reflexivity]). }
  split; [exact Hv |]. split; [exact Hok |].
  destruct (tracker_only_handles_whole_pages os_munlock_fails 8 cs fresh_world Hv Hok)
    as (w' & rs & new & Hrun & Hev & Hall & Hkeys).
  exists w', rs, new. split; [exact Hrun |]. split; [exact Hev |]. split; [exact Hall |].
  apply Hkeys. intros p [c Hc]. unfold fresh_world in Hc. simpl in Hc.
  rewrite lookup_empty in Hc. discriminate.
Defined.

(** ** The serialized entry points *)

Lemma is_lock_held_spec w : snd (is_lock_held w) = _mutex w.
Proof. unfold is_lock_held. simpl. apply negb_involutive. Qed.

Section Locked.

Context (P P' : platform).
Hypothesis Hagree : agree_when_locked P P'.

Lemma agree_page_size : _page_size P = _page_size P'.
Proof. exact (proj1 Hagree). Qed.

Lemma agree_pin_memory w page len :
  _mutex w = true →
  pin_memory P w page len = pin_memory P' w page len.
Proof.
  intros Hm. destruct Hagree as [_ Hcalls].
  destruct (Hcalls w) as (Herr & Hos); [rewrite is_lock_held_spec; exact Hm |].
  unfold pin_memory. rewrite (proj1 (Hos page len)), Herr. reflexivity.
Qed.

Lemma agree_unpin_memory w page len :
  _mutex w = true →
  unpin_memory P w page len = unpin_memory P' w page len.
Proof.
  intros Hm. destruct Hagree as [_ Hcalls].
  destruct (Hcalls w) as (Herr & Hos); [rewrite is_lock_held_spec; exact Hm |].
  unfold unpin_memory. rewrite (proj2 (Hos page len)), Herr. reflexivity.
Qed.

Lemma pin_memory_mutex (Q : platform) w page len :
  _mutex (fst (pin_memory Q w page len)) = _mutex w.
Proof. unfold pin_memory. destruct (negb _); reflexivity. Qed.

Lemma unpin_memory_mutex (Q : platform) w page len :
  _mutex (fst (unpin_memory Q w page len)) = _mutex w.
Proof. unfold unpin_memory. destruct (negb _); reflexivity. Qed.

Lemma agree_add_allocation_loop fuel : ∀ w page bound,
  _mutex w = true →
  add_allocation_loop P fuel w page bound = add_allocation_loop P' fuel w page bound.
Proof.
  induction fuel as [| fuel IH]; intros w page bound Hm; simpl; [reflexivity |].
  rewrite <- agree_page_size.
  destruct (page <? bound); [| reflexivity].
  destruct (_page_ref_count w !! page) as [c |].
  - apply IH. exact Hm.
  - rewrite <- agree_pin_memory by exact Hm.
    pose proof (pin_memory_mutex P
                  (set_page_ref_count (emplace page 1 (_page_ref_count w)) w)
                  page (_page_size P)) as Hm2.
    destruct (pin_memory P _ page (_page_size P)) as [w2 [[] | e]]; [| reflexivity].
    apply IH. simpl in Hm2. congruence.
Qed.

Lemma agree_remove_allocation_loop fuel : ∀ w page bound,
  _mutex w = true →
  remove_allocation_loop P fuel w page bound =
  remove_allocation_loop P' fuel w page bound.
Proof.
  induction fuel as [| fuel IH]; intros w page bound Hm; simpl; [reflexivity |].
  rewrite <- agree_page_size.
  destruct (page <? bound); [| reflexivity].
  destruct (_page_ref_count w !! page) as [c |]; [| reflexivity].
  destruct (wrap32 (c - 1) =? 0).
  - rewrite <- agree_unpin_memory by exact Hm.
    pose proof (unpin_memory_mutex P
                  (set_page_ref_count (<[page:=wrap32 (c - 1)]> (_page_ref_count w)) w)
                  page (_page_size P)) as Hm2.
    destruct (unpin_memory P _ page (_page_size P)) as [w2 [[] | e]]; [| reflexivity].
    apply IH. simpl in Hm2. simpl. congruence.
  - apply IH. exact Hm.
Qed.

Lemma agree_to_page ptr : to_page P ptr = to_page P' ptr.
Proof. unfold to_page. rewrite agree_page_size. reflexivity. Qed.

End Locked.

(** X7.  Called with [_mutex] free (on a held mutex the call would block),
    the serialized entry points consult the OS only while [_mutex] is held:
    two platforms that answer alike whenever [is_lock_held] says yes give the
    same result, state and outcome.  Whether the call returns or throws, the
    lock is free again afterwards. *)
Theorem serialized_calls_hold_the_lock
    (P P' : platform) (fuel : nat) (w : world) (ptr len : Z) :
  _mutex w = false →
  agree_when_locked P P' →
  serialized_add_allocation P fuel w ptr len =
    serialized_add_allocation P' fuel w ptr len ∧
  serialized_remove_allocation P fuel w ptr len =
    serialized_remove_allocation P' fuel w ptr len ∧
  (∀ w' r, serialized_add_allocation P fuel w ptr len = Some (w', r) →
           is_lock_held w' = (w', false)) ∧
  (∀ w' r, serialized_remove_allocation P fuel w ptr len = Some (w', r) →
           is_lock_held w' = (w', false)).
Proof.
  intros _ Hagree.
  unfold serialized_add_allocation, serialized_remove_allocation, with_lock_guard,
    add_allocation, remove_allocation. cbv zeta.
  rewrite (agree_to_page P P' Hagree).
  rewrite (agree_add_allocation_loop P P' Hagree) by reflexivity.
  rewrite (agree_remove_allocation_loop P P' Hagree) by reflexivity.
  split; [reflexivity |]. split; [reflexivity |]. split.
  - intros w' r. destruct (add_allocation_loop P' fuel _ _ _) as [[w1 r1] |];
      [| discriminate].
    intros [= <- <-]. reflexivity.
  - intros w' r. destruct (remove_allocation_loop P' fuel _ _ _) as [[w1 r1] |];
      [| discriminate].
    intros [= <- <-]. reflexivity.
Qed.

Lemma serialized_calls_hold_the_lock_witness :
  _mutex fresh_world = false ∧
  agree_when_locked os_needs_lock (os_ok 4096) ∧
  serialized_add_allocation os_needs_lock 4 fresh_world 0 1 =
    serialized_add_allocation (os_ok 4096) 4 fresh_world 0 1 ∧
  (snd <$> serialized_add_allocation os_needs_lock 4 fresh_world 0 1) =
    Some (Returned tt) ∧
  (snd <$> add_allocation os_needs_lock 4 fresh_world 0 1) =
    Some (Thrown (system_error 0 "pinning memory")).
Proof.
  assert (Hagree : agree_when_locked os_needs_lock (os_ok 4096)).
  { split; [reflexivity |]. intros w Hheld. rewrite is_lock_held_spec in Hheld.
    split; [reflexivity |]. intros a l. simpl. rewrite Hheld. auto. }
  split; [reflexivity |]. split; [exact Hagree |].
  split; [exact (proj1 (serialized_calls_hold_the_lock
                          os_needs_lock (os_ok 4096) 4 fresh_world 0 1
                          eq_refl Hagree)) |].
  split; vm_compute; reflexivity.
Defined.

(** ** [clear_pages] *)

Section ClearPages.

Context (P : platform).
Hypothesis Hps : valid_page_size (_page_size P).

Lemma clear_pages_loop_unrolled fuel : ∀ w page bound,
  0 ≤ page → bound ≤ 2 ^ 64 - _page_size P →
  (steps (_page_size P) page bound < fuel)%nat →
  clear_pages_loop P fuel w page bound =
  Some (foldl clear_page w (walk (_page_size P) (steps (_page_size P) page bound) page)).
Proof.
  pose proof (valid_page_size_bounds _ Hps) as Hb.
  induction fuel as [| fuel IH]; intros w page bound Hpage Hbound Hfuel.
  - lia.
  - simpl. destruct (Z.ltb_spec page bound) as [Hlt | Hge].
    + rewrite (steps_next _ page bound) in * by lia. simpl.
      rewrite (wrap64_small (page + _page_size P)) by lia.
      apply IH; lia.
    + rewrite steps_done by lia. reflexivity.
Qed.

Lemma clear_page_list l : ∀ w,
  (∀ p, _page_ref_count (foldl clear_page w l) !! p =
        if decide (p ∈ l) then None else _page_ref_count w !! p) ∧
  history (foldl clear_page w l) = history w ∧
  locked_pages (foldl clear_page w l) = locked_pages w ∧
  memory (foldl clear_page w l) = memory w ∧
  _mutex (foldl clear_page w l) = _mutex w.
Proof.
  induction l as [| q l IH]; intros w; cbn [foldl].
  - split; [| auto]. intros p. rewrite decide_False; [reflexivity |].
    intros Hin. inversion Hin.
  - destruct (IH (clear_page w q)) as (Hm & Hh & Hl & Hmem & Hmx).
    split; [| auto]. intros p. rewrite Hm. unfold clear_page. cbn [_page_ref_count set_page_ref_count].
    destruct (decide (p = q)) as [-> | Hne].
    + rewrite lookup_delete_eq. rewrite (decide_True (P := q ∈ q :: l)) by left.
      case_decide; reflexivity.
    + rewrite lookup_delete_ne by congruence.
      destruct (decide (p ∈ l)) as [Hin | Hin].
      * rewrite decide_True by (right; exact Hin). reflexivity.
      * rewrite decide_False; [reflexivity |].
        intros [? | ?]%elem_of_cons; contradiction.
Qed.

End ClearPages.

(** X8.  [clear_pages(ptr, len)] erases the entry of every page its walk
    visits (for [len > 0], every page that shares a byte with the range) and
    of no other page; it makes no OS call, so a page that was pinned stays
    pinned. *)
Theorem clear_pages_erases_without_unpinning
    (P : platform) (fuel : nat) (w : world) (ptr len : Z) :
  valid_page_size (_page_size P) →
  range_ok (_page_size P) ptr len →
  enough_fuel (_page_size P) fuel len →
  ∃ w',
    clear_pages P fuel w ptr len = Some w' ∧
    (∀ p, p ∈ walked (_page_size P) ptr len → _page_ref_count w' !! p = None) ∧
    (0 < len → ∀ p, page_intersects (_page_size P) p ptr len →
               _page_ref_count w' !! p = None) ∧
    (∀ p, p ∉ walked (_page_size P) ptr len →
          _page_ref_count w' !! p = _page_ref_count w !! p) ∧
    history w' = history w ∧
    locked_pages w' = locked_pages w.
Proof.
  intros Hps Hr Hf. pose proof (valid_page_size_bounds _ Hps) as Hb.
  assert (Hpos : 0 < _page_size P) by lia.
  destruct (walk_start P Hps ptr len Hr) as (Hpage & Hbase & Hend).
  unfold clear_pages. cbv zeta. rewrite Hpage, Hend.
  rewrite (clear_pages_loop_unrolled P Hps fuel w);
    [| exact Hbase | destruct Hr as (? & ? & ?); lia
     | apply (fuel_covers_walk P Hps); assumption].
  fold (walked (_page_size P) ptr len).
  destruct (clear_page_list (walked (_page_size P) ptr len) w) as (Hm & Hh & Hl & _).
  eexists. split; [reflexivity |].
  split; [| split; [| split; [| split; [exact Hh | exact Hl]]]].
  - intros p Hin. rewrite Hm, decide_True by exact Hin. reflexivity.
  - intros Hlen p Hp. apply (walked_intersects _ ptr len p Hpos Hlen) in Hp.
    rewrite Hm, decide_True by exact Hp. reflexivity.
  - intros p Hin. rewrite Hm, decide_False by exact Hin. reflexivity.
Qed.

Lemma clear_pages_erases_without_unpinning_witness :
  valid_page_size (_page_size (os_ok 4096)) ∧
  range_ok (_page_size (os_ok 4096)) 0 65536 ∧
  enough_fuel (_page_size (os_ok 4096)) 20 65536 ∧
  ∃ w',
    clear_pages (os_ok 4096) 20 one_page_world 0 65536 = Some w' ∧
    _page_ref_count w' !! 0 = None ∧
    locked_pages w' = locked_pages one_page_world ∧
    ¬ tracker_inv w'.
Proof.
  assert (Hv : valid_page_size (_page_size (os_ok 4096))).
  { exists 12. split; [lia | reflexivity]. }
  assert (Hr : range_ok (_page_size (os_ok 4096)) 0 65536).
  { unfold range_ok. split; [lia | split; [lia | vm_compute; discriminate]]. }
  assert (Hf : enough_fuel (_page_size (os_ok 4096)) 20 65536).
  { vm_compute. reflexivity. }
  split; [exact Hv |]. split; [exact Hr |]. split; [exact Hf |].
  destruct (clear_pages_erases_without_unpinning
              (os_ok 4096) 20 one_page_world 0 65536 Hv Hr Hf)
    as (w' & Hrun & _ & Hin & _ & _ & Hl).
  assert (H0 : _page_ref_count w' !! 0 = None).
  { apply Hin; [lia |]. change (_page_size (os_ok 4096)) with 4096.
    split; [reflexivity |]. exists 0. lia. }
  exists w'. split; [exact Hrun |]. split; [exact H0 |]. split; [exact Hl |].
  intros Hinv. specialize (Hinv 0). rewrite H0, Hl in Hinv.
  apply Hinv. unfold one_page_world. simpl. apply elem_of_singleton. reflexivity.
Defined.

(** ** [allocate] of the adapters *)

Section Adapters.

Context (P : platform).
Hypothesis Hps : valid_page_size (_page_size P).

Lemma tracker_add_unrolled v fuel w ptr len :
  range_ok (_page_size P) ptr len → enough_fuel (_page_size P) fuel len →
  ∃ w' r,
    over_pages (add_page P) (lock_for v w) (walked (_page_size P) ptr len) = (w', r) ∧
    tracker_add v P fuel w ptr len = Some (unlock_for v w', r).
Proof.
  intros Hr Hf. destruct v; simpl.
  - rewrite (add_allocation_unrolled P Hps fuel w ptr len Hr Hf).
    destruct (over_pages _ w _) as [w' r]. eauto.
  - unfold serialized_add_allocation, with_lock_guard.
    rewrite (add_allocation_unrolled P Hps fuel _ ptr len Hr Hf).
    destruct (over_pages _ (set_mutex true w) _) as [w' r]. eauto.
Qed.

Lemma tracker_remove_unrolled v fuel w ptr len :
  range_ok (_page_size P) ptr len → enough_fuel (_page_size P) fuel len →
  ∃ w' r,
    over_pages (remove_page P) (lock_for v w) (walked (_page_size P) ptr len) = (w', r) ∧
    tracker_remove v P fuel w ptr len = Some (unlock_for v w', r).
Proof.
  intros Hr Hf. destruct v; simpl.
  - rewrite (remove_allocation_unrolled P Hps fuel w ptr len Hr Hf).
    destruct (over_pages _ w _) as [w' r]. eauto.
  - unfold serialized_remove_allocation, with_lock_guard.
    rewrite (remove_allocation_unrolled P Hps fuel _ ptr len Hr Hf).
    destruct (over_pages _ (set_mutex true w) _) as [w' r]. eauto.
Qed.

Lemma lock_for_fields v w :
  _page_ref_count (lock_for v w) = _page_ref_count w ∧
  locked_pages (lock_for v w) = locked_pages w ∧
  history (lock_for v w) = history w ∧
  memory (lock_for v w) = memory w.
Proof. destruct v; auto. Qed.

Lemma unlock_for_fields v w :
  _page_ref_count (unlock_for v w) = _page_ref_count w ∧
  locked_pages (unlock_for v w) = locked_pages w ∧
  history (unlock_for v w) = history w ∧
  memory (unlock_for v w) = memory w.
Proof. destruct v; auto. Qed.

Lemma add_pages_memory l : ∀ w w' r,
  over_pages (add_page P) w l = (w', r) → memory w' = memory w.
Proof.
  induction l as [| q l IH]; intros w w' r; simpl.
  - intros [= <- _]. reflexivity.
  - destruct (add_page P w q) as [w1 [[] | e]] eqn:Hq.
    + intros Hrest. apply add_page_Returned in Hq as (_ & _ & _ & Hm1 & _).
      rewrite (IH _ _ _ Hrest). exact Hm1.
    + intros [= <- _]. apply add_page_Thrown_history in Hq as [_ Hm1]. exact Hm1.
Qed.

(** A registration, either variant: what it returns, what it records. *)
Lemma tracker_add_spec v fuel w ptr len :
  range_ok (_page_size P) ptr len → enough_fuel (_page_size P) fuel len →
  ∃ w' r pins,
    tracker_add v P fuel w ptr len = Some (w', r) ∧
    events w' = events w ++ ((λ p, ev_mlock p (_page_size P)) <$> pins) ∧
    memory w' = memory w ∧
    (r = Returned tt ∨ ∃ code, r = Thrown (system_error code "pinning memory")) ∧
    (r = Returned tt →
     ∀ p, _page_ref_count w' !! p =
          if decide (p ∈ walked (_page_size P) ptr len)
          then Some (bumped (_page_ref_count w !! p))
          else _page_ref_count w !! p).
Proof.
  intros Hr Hf. pose proof (valid_page_size_bounds _ Hps) as Hb.
  assert (Hpos : 0 < _page_size P) by lia.
  pose proof (NoDup_walked (_page_size P) ptr len Hpos) as Hnd.
  destruct (tracker_add_unrolled v fuel w ptr len Hr Hf) as (w' & r & Hrun & ->).
  destruct (lock_for_fields v w) as (Hm0 & _ & Hh0 & Hmem0).
  destruct (unlock_for_fields v w') as (Hm1 & _ & Hh1 & Hmem1).
  pose proof (add_pages_memory _ _ _ _ Hrun) as Hmem.
  destruct r as [[] | e].
  - destruct (add_pages_Returned P _ _ _ Hnd Hrun) as (Hm & (pinned & Hh & _) & _).
    exists (unlock_for v w'), (Returned tt), pinned.
    split; [reflexivity |]. split; [| split; [congruence | split; [auto |]]].
    + unfold events. rewrite Hh1, Hh, Hh0, fmap_app, <- list_fmap_compose. reflexivity.
    + intros _ p. rewrite Hm1, Hm, Hm0. reflexivity.
  - apply add_pages_Thrown in Hrun as
        (l1 & q & l2 & pinned & code & _ & _ & -> & _ & _ & _ & _ & _ & Hev & _);
      [| exact Hnd].
    exists (unlock_for v w'), (Thrown (system_error code "pinning memory")), (pinned ++ [q]).
    split; [reflexivity |].
    split; [| split; [congruence | split; [right; eauto | discriminate]]].
    unfold events in *. rewrite Hh1, Hev, Hh0, fmap_app. reflexivity.
Qed.

End Adapters.

Lemma no_swap_allocate_unfold v P fuel sizeof_T A w count :
  allocate (no_swap_allocator v P fuel sizeof_T A) w count =
  bind (allocate A w count) (λ w1 ptr,
  bind (tracker_add v P fuel w1 ptr (wrap64 (count * sizeof_T))) (λ w2 _,
  Some (w2, Returned ptr))).
Proof. destruct v; reflexivity. Qed.

Lemma secure_allocate_unfold v P fuel sizeof_T A w count :
  allocate (secure_allocator v P fuel sizeof_T A) w count =
  allocate (no_swap_allocator v P fuel sizeof_T A) w count.
Proof. destruct v; simpl; apply bind_Returned_id. Qed.

(** X9.  [allocate(count)] of a no-swap allocator, either variant.  When the
    upstream [allocate] throws, the exception passes through and the tracker
    is not called.  When it returns [ptr], the tracker registers
    [count * sizeof(T)] bytes at [ptr], calling nothing but [mlock]; then
    [allocate] returns [ptr] itself, with the count of every page of the walk
    raised by one, or throws the system error of a failed pin, in which case
    the block obtained upstream is not handed back. *)
Theorem no_swap_allocate_registers_upstream_block
    (v : variant) (P : platform) (fuel : nat) (sizeof_T : Z) (A : allocator)
    (w : world) (count : Z) :
  valid_page_size (_page_size P) →
  (∀ w1 e, allocate A w count = Some (w1, Thrown e) →
           allocate (no_swap_allocator v P fuel sizeof_T A) w count =
           Some (w1, Thrown e)) ∧
  (∀ w1 ptr,
     allocate A w count = Some (w1, Returned ptr) →
     range_ok (_page_size P) ptr (count * sizeof_T) →
     enough_fuel (_page_size P) fuel (count * sizeof_T) →
     ∃ w2 r pins,
       allocate (no_swap_allocator v P fuel sizeof_T A) w count = Some (w2, r) ∧
       events w2 = events w1 ++ ((λ p, ev_mlock p (_page_size P)) <$> pins) ∧
       memory w2 = memory w1 ∧
       (r = Returned ptr ∨ ∃ code, r = Thrown (system_error code "pinning memory")) ∧
       (r = Returned ptr →
        ∀ p, p ∈ walked (_page_size P) ptr (count * sizeof_T) →
             _page_ref_count w2 !! p = Some (bumped (_page_ref_count w1 !! p)))).
Proof.
  intros Hps. pose proof (valid_page_size_bounds _ Hps) as Hb. split.
  - intros w1 e Hup. rewrite no_swap_allocate_unfold, Hup. reflexivity.
  - intros w1 ptr Hup Hr Hf.
    assert (Hwrap : wrap64 (count * sizeof_T) = count * sizeof_T).
    { destruct Hr as (? & ? & ?). apply wrap64_small. lia. }
    destruct (tracker_add_spec P Hps v fuel w1 ptr _ Hr Hf)
      as (w2 & r & pins & Hrun & Hev & Hmem & Hcases & Hm).
    rewrite no_swap_allocate_unfold, Hup, Hwrap. simpl. rewrite Hrun.
    destruct r as [[] | e]; simpl.
    + exists w2, (Returned ptr), pins.
      split; [reflexivity |]. split; [exact Hev |]. split; [exact Hmem |].
      split; [left; reflexivity |].
      intros _ p Hin. rewrite (Hm eq_refl), decide_True by exact Hin. reflexivity.
    + exists w2, (Thrown e), pins.
      split; [reflexivity |]. split; [exact Hev |]. split; [exact Hmem |].
      destruct Hcases as [? | (code & [= ->])]; [discriminate |].
      split; [right; eauto | discriminate].
Qed.

Lemma no_swap_allocate_registers_upstream_block_witness :
  valid_page_size (_page_size os_mlock_fails) ∧
  allocate (no_swap_allocator serialized os_mlock_fails 4 4 failing_allocator)
           fresh_world 1 =
    Some (fresh_world, Thrown (runtime_error "std::bad_alloc")) ∧
  range_ok (_page_size os_mlock_fails) 16 (1 * 4) ∧
  enough_fuel (_page_size os_mlock_fails) 4 (1 * 4) ∧
  (snd <$> allocate (no_swap_allocator serialized os_mlock_fails 4 4
                       (monitored_allocator 4 16)) fresh_world 1) =
    Some (Thrown (system_error 22 "pinning memory")) ∧
  ∃ w2 r pins,
    allocate (no_swap_allocator serialized os_mlock_fails 4 4
                (monitored_allocator 4 16)) fresh_world 1 = Some (w2, r) ∧
    events w2 = [ev_allocate 4] ++ ((λ p, ev_mlock p 4096) <$> pins).
Proof.
  assert (Hv : valid_page_size (_page_size os_mlock_fails)).
  { exists 12. split; [lia | reflexivity]. }
  assert (Hr : range_ok (_page_size os_mlock_fails) 16 (1 * 4)).
  { unfold range_ok. split; [lia | split; [lia | vm_compute; discriminate]]. }
  assert (Hf : enough_fuel (_page_size os_mlock_fails) 4 (1 * 4)).
  { vm_compute. reflexivity. }
  split; [exact Hv |].
  split.
  { apply (proj1 (no_swap_allocate_registers_upstream_block
                    serialized os_mlock_fails 4 4 failing_allocator fresh_world 1 Hv)).
    reflexivity. }
  split; [exact Hr |]. split; [exact Hf |]. split; [vm_compute; reflexivity |].
  destruct (proj2 (no_swap_allocate_registers_upstream_block
                     serialized os_mlock_fails 4 4 (monitored_allocator 4 16)
                     fresh_world 1 Hv) _ 16 eq_refl Hr Hf)
    as (w2 & r & pins & Hrun & Hev & _).
  exists w2, r, pins. split; [exact Hrun | exact Hev].
Defined.

(** X10.  A block allocated through a secure allocator, either variant, on a
    tracker without entries, and released with the same [(ptr, count)]:
    [allocate] returns the upstream pointer or throws on a failed pin; the
    release never meets an untracked page, and when its removal returns, the
    upstream [deallocate] receives [(ptr, count)] in a world where the tracker
    has no entry left and every byte of the block reads as zero. *)
Theorem secure_allocate_then_deallocate
    (v : variant) (P : platform) (fuel : nat) (sizeof_T : Z) (A : allocator)
    (w w1 : world) (count ptr : Z) :
  valid_page_size (_page_size P) →
  allocate A w count = Some (w1, Returned ptr) →
  _page_ref_count w1 = ∅ →
  range_ok (_page_size P) ptr (count * sizeof_T) →
  enough_fuel (_page_size P) fuel (count * sizeof_T) →
  let last := ptr + count * sizeof_T in
  ∃ w2 r,
    allocate (secure_allocator v P fuel sizeof_T A) w count = Some (w2, r) ∧
    (r = Returned ptr ∨ ∃ code, r = Thrown (system_error code "pinning memory")) ∧
    (r = Returned ptr →
     ∃ w3 r3,
       tracker_remove v P fuel (std_fill w2 ptr last 0) ptr (count * sizeof_T) =
         Some (w3, r3) ∧
       r3 ≠ Thrown untracked ∧
       (r3 = Returned tt →
        deallocate (secure_allocator v P fuel sizeof_T A) w2 ptr count =
          deallocate A w3 ptr count ∧
        _page_ref_count w3 = ∅ ∧
        zeroed (memory w3) ptr last)).
Proof.
  intros Hps Hup Hempty Hr Hf last. pose proof (valid_page_size_bounds _ Hps) as Hb.
  assert (Hpos : 0 < _page_size P) by lia.
  pose proof (NoDup_walked (_page_size P) ptr (count * sizeof_T) Hpos) as Hnd.
  assert (Hwrap : wrap64 (count * sizeof_T) = count * sizeof_T).
  { destruct Hr as (? & ? & ?). apply wrap64_small. lia. }
  assert (Hrange : 0 ≤ ptr ≤ last ∧ last < 2 ^ 64).
  { destruct Hr as (? & ? & ?). subst last. lia. }
  assert (Hlast : wrap64 (ptr + count * sizeof_T) = last).
  { apply wrap64_small. subst last. lia. }
  destruct (tracker_add_spec P Hps v fuel w1 ptr _ Hr Hf)
    as (w2 & r & pins & Hrun & _ & _ & Hcases & Hm).
  rewrite secure_allocate_unfold, no_swap_allocate_unfold, Hup, Hwrap. simpl.
  rewrite Hrun. destruct r as [[] | e]; simpl.
  2:{ exists w2, (Thrown e). split; [reflexivity |].
      destruct Hcases as [? | (code & [= ->])]; [discriminate |].
      split; [right; eauto | discriminate]. }
  exists w2, (Returned ptr). split; [reflexivity |]. split; [left; reflexivity |].
  intros _. specialize (Hm eq_refl).
  destruct (std_fill_spec w2 ptr last 0 (proj1 Hrange) (proj2 Hrange))
    as (Hzero & _ & _ & Hm0 & _).
  set (w0 := std_fill w2 ptr last 0) in *.
  destruct (tracker_remove_unrolled P Hps v fuel w0 ptr _ Hr Hf)
    as (w' & r3 & Hrem & Htr).
  destruct (lock_for_fields v w0) as (Hml & _ & _ & Hmeml).
  destruct (unlock_for_fields v w') as (Hmu & _ & _ & Hmemu).
  assert (Hentry : ∀ p, p ∈ walked (_page_size P) ptr (count * sizeof_T) →
                        _page_ref_count (lock_for v w0) !! p = Some 1).
  { intros p Hin. rewrite Hml, Hm0, Hm, decide_True by exact Hin.
    rewrite Hempty, lookup_empty. reflexivity. }
  exists (unlock_for v w'), r3. split; [exact Htr |]. split.
  - intros ->.
    apply remove_pages_untracked in Hrem as (l1 & q & l2 & Hl & Hq & _); [| exact Hnd].
    rewrite Hentry in Hq; [discriminate |].
    rewrite Hl. apply elem_of_app. right. left.
  - intros ->.
    destruct (remove_pages_Returned P _ _ _ Hnd Hrem) as (_ & Hm3 & _ & Hmem3 & _).
    split; [| split].
    + rewrite secure_deallocate_unfold, Hlast, no_swap_deallocate_unfold, Hwrap.
      fold w0. rewrite Htr. reflexivity.
    + apply map_eq. intros p. rewrite Hmu, Hm3, lookup_empty.
      case_decide as Hin.
      * rewrite (Hentry p Hin). reflexivity.
      * rewrite Hml, Hm0, Hm, decide_False by exact Hin.
        rewrite Hempty. apply lookup_empty.
    + intros b Hb'. rewrite Hmemu, Hmem3, Hmeml. apply Hzero. exact Hb'.
Qed.

Lemma secure_allocate_then_deallocate_witness :
  valid_page_size (_page_size (os_ok 4096)) ∧
  allocate (monitored_allocator 4 4000) fresh_world 50 =
    Some (record_call (ev_allocate 200) fresh_world, Returned 4000) ∧
  range_ok (_page_size (os_ok 4096)) 4000 (50 * 4) ∧
  enough_fuel (_page_size (os_ok 4096)) 4 (50 * 4) ∧
  ∃ w2 w3 r3,
    allocate (secure_allocator serialized (os_ok 4096) 4 4 (monitored_allocator 4 4000))
             fresh_world 50 = Some (w2, Returned 4000) ∧
    tracker_remove serialized (os_ok 4096) 4 (std_fill w2 4000 4200 0) 4000 (50 * 4) =
      Some (w3, r3) ∧
    r3 ≠ Thrown untracked.
Proof.
  assert (Hv : valid_page_size (_page_size (os_ok 4096))).
  { exists 12. split; [lia | reflexivity]. }
  assert (Hup : allocate (monitored_allocator 4 4000) fresh_world 50 =
                Some (record_call (ev_allocate 200) fresh_world, Returned 4000))
    by reflexivity.
  assert (Hr : range_ok (_page_size (os_ok 4096)) 4000 (50 * 4)).
  { unfold range_ok. split; [lia | split; [lia | vm_compute; discriminate]]. }
  assert (Hf : enough_fuel (_page_size (os_ok 4096)) 4 (50 * 4)).
  { vm_compute. reflexivity. }
  split; [exact Hv |]. split; [exact Hup |]. split; [exact Hr |]. split; [exact Hf |].
  destruct (secure_allocate_then_deallocate
              serialized (os_ok 4096) 4 4 (monitored_allocator 4 4000)
              fresh_world _ 50 4000 Hv Hup eq_refl Hr Hf)
    as (w2 & r & Halloc & _ & Hnext).
  assert (Hres : (snd <$> allocate (secure_allocator serialized (os_ok 4096) 4 4
                                      (monitored_allocator 4 4000)) fresh_world 50) =
                 Some (Returned 4000)) by (vm_compute; reflexivity).
  rewrite Halloc in Hres. simpl in Hres. injection Hres as ->.
  destruct (Hnext eq_refl) as (w3 & r3 & Hrem & Hno & _).
  exists w2, w3, r3. split; [exact Halloc |]. split; [exact Hrem | exact Hno].
Defined.

(** The same block, run: upstream [allocate], two pins, the fill, two unpins,
    upstream [deallocate]. *)
Example secure_allocate_then_deallocate_trace :
  ∃ w2 w3,
    allocate (secure_allocator serialized (os_ok 4096) 4 4 (monitored_allocator 4 4000))
             fresh_world 50 = Some (w2, Returned 4000) ∧
    deallocate (secure_allocator serialized (os_ok 4096) 4 4 (monitored_allocator 4 4000))
               w2 4000 50 = Some (w3, Returned tt) ∧
    _page_ref_count w3 = ∅ ∧
    events w3 =
      [ev_allocate 200; ev_mlock 0 4096; ev_mlock 4096 4096; ev_fill 4000 4200 0;
       ev_munlock 0 4096; ev_munlock 4096 4096; ev_deallocate 4000 200].
Proof.
  do 2 eexists. split; [vm_compute; reflexivity |].
  split; [vm_compute; reflexivity |].
  split; [vm_compute; reflexivity |]. vm_compute. reflexivity.
Qed.

(** X11.  [allocate_at_least] of the unserialized no-swap allocator registers
    [r.count] bytes at [r.ptr], although [r.count] counts elements: on a
    tracker without entries, the pages with an entry afterwards are those of
    the walk over [[ptr, ptr + count)].  If releasing the block with
    [deallocate(ptr, count)] walks a page beyond them, the release throws
    (untracked page, or a failed unpin before it) and the upstream
    [deallocate] is not reached. *)
Theorem allocate_at_least_registers_count_bytes
    (P : platform) (fuel : nat) (sizeof_T : Z)
    (upstream_allocate_at_least : world → Z → option (world * result (Z * Z)))
    (w w1 : world) (len ptr count : Z) :
  valid_page_size (_page_size P) →
  upstream_allocate_at_least w len = Some (w1, Returned (ptr, count)) →
  _page_ref_count w1 = ∅ →
  range_ok (_page_size P) ptr count →
  range_ok (_page_size P) ptr (count * sizeof_T) →
  enough_fuel (_page_size P) fuel count →
  enough_fuel (_page_size P) fuel (count * sizeof_T) →
  ∃ w2 r,
    unserialized_allocate_at_least P fuel upstream_allocate_at_least w len =
      Some (w2, r) ∧
    (r = Returned (ptr, count) ∨
     ∃ code, r = Thrown (system_error code "pinning memory")) ∧
    (r = Returned (ptr, count) →
     (∀ p, present w2 p ↔ p ∈ walked (_page_size P) ptr count) ∧
     ∀ q A,
       q ∈ walked (_page_size P) ptr (count * sizeof_T) →
       q ∉ walked (_page_size P) ptr count →
       ∃ w3 e,
         deallocate (unserialized_no_swap_allocator P fuel sizeof_T A) w2 ptr count =
           Some (w3, Thrown e) ∧
         (e = untracked ∨ ∃ code, e = system_error code "unpinning memory")).
Proof.
  intros Hps Hup Hempty Hr1 Hr Hf1 Hf. pose proof (valid_page_size_bounds _ Hps) as Hb.
  assert (Hpos : 0 < _page_size P) by lia.
  assert (Hwrap : wrap64 (count * sizeof_T) = count * sizeof_T).
  { destruct Hr as (? & ? & ?). apply wrap64_small. lia. }
  unfold unserialized_allocate_at_least. rewrite Hup. simpl.
  rewrite (add_allocation_unrolled P Hps fuel w1 ptr count Hr1 Hf1).
  destruct (over_pages (add_page P) w1 (walked (_page_size P) ptr count))
    as [w2 r] eqn:Hadd.
  destruct r as [[] | e]; simpl.
  2:{ exists w2, (Thrown e). split; [reflexivity |].
      destruct (add_pages_outcome P _ _ _ _ Hadd) as [? | (code & [= ->])];
        [discriminate |].
      split; [right; eauto | discriminate]. }
  exists w2, (Returned (ptr, count)). split; [reflexivity |].
  split; [left; reflexivity |]. intros _.
  destruct (add_pages_Returned P _ _ _ (NoDup_walked _ ptr count Hpos) Hadd) as (Hm & _).
  assert (Hpresent : ∀ p, present w2 p ↔ p ∈ walked (_page_size P) ptr count).
  { intros p. unfold present. rewrite Hm, Hempty, lookup_empty.
    case_decide as Hin; split; [auto | eauto | intros [? ?]; discriminate | tauto]. }
  split; [exact Hpresent |].
  intros q A Hq Hnot.
  change (deallocate (unserialized_no_swap_allocator P fuel sizeof_T A) w2 ptr count)
    with (bind (remove_allocation P fuel w2 ptr (wrap64 (count * sizeof_T)))
               (λ w3 _, deallocate A w3 ptr count)).
  rewrite Hwrap, (remove_allocation_unrolled P Hps fuel w2 ptr _ Hr Hf).
  destruct (over_pages (remove_page P) w2 (walked (_page_size P) ptr (count * sizeof_T)))
    as [w3 r3] eqn:Hrem.
  destruct (remove_pages_outcome P _ _ _ _ Hrem) as [-> | [-> | (code & ->)]].
  - exfalso.
    apply (remove_pages_missing P _ w2 w3 q
             (NoDup_walked _ ptr (count * sizeof_T) Hpos) Hq); [| exact Hrem].
    apply eq_None_not_Some. intros Hsome. apply Hnot, Hpresent. exact Hsome.
  - exists w3, untracked. split; [reflexivity | left; reflexivity].
  - exists w3, (system_error code "unpinning memory").
    split; [reflexivity | right; eauto].
Qed.

Lemma allocate_at_least_registers_count_bytes_witness :
  let upstream := λ (w : world) (n : Z), Some (w, Returned (0, n)) in
  valid_page_size (_page_size (os_ok 4096)) ∧
  range_ok (_page_size (os_ok 4096)) 0 2048 ∧
  range_ok (_page_size (os_ok 4096)) 0 (2048 * 4) ∧
  enough_fuel (_page_size (os_ok 4096)) 5 2048 ∧
  enough_fuel (_page_size (os_ok 4096)) 5 (2048 * 4) ∧
  ∃ w2,
    unserialized_allocate_at_least (os_ok 4096) 5 upstream fresh_world 2048 =
      Some (w2, Returned (0, 2048)) ∧
    (∀ p, present w2 p ↔ p ∈ walked (_page_size (os_ok 4096)) 0 2048) ∧
    ∃ w3 e,
      deallocate (unserialized_no_swap_allocator (os_ok 4096) 5 4
                    (monitored_allocator 4 0)) w2 0 2048 = Some (w3, Thrown e).
Proof.
  intros upstream.
  assert (Hv : valid_page_size (_page_size (os_ok 4096))).
  { exists 12. split; [lia | reflexivity]. }
  assert (Hr1 : range_ok (_page_size (os_ok 4096)) 0 2048).
  { unfold range_ok. split; [lia | split; [lia | vm_compute; discriminate]]. }
  assert (Hr : range_ok (_page_size (os_ok 4096)) 0 (2048 * 4)).
  { unfold range_ok. split; [lia | split; [lia | vm_compute; discriminate]]. }
  assert (Hf1 : enough_fuel (_page_size (os_ok 4096)) 5 2048).
  { vm_compute. reflexivity. }
  assert (Hf : enough_fuel (_page_size (os_ok 4096)) 5 (2048 * 4)).
  { vm_compute. reflexivity. }
  split; [exact Hv |]. split; [exact Hr1 |]. split; [exact Hr |].
  split; [exact Hf1 |]. split; [exact Hf |].
  destruct (allocate_at_least_registers_count_bytes
              (os_ok 4096) 5 4 upstream fresh_world fresh_world 2048 0 2048
              Hv eq_refl eq_refl Hr1 Hr Hf1 Hf)
    as (w2 & r & Hrun & _ & Hnext).
  assert (Hres : (snd <$> unserialized_allocate_at_least (os_ok 4096) 5 upstream
                            fresh_world 2048) = Some (Returned (0, 2048)))
    by (vm_compute; reflexivity).
  rewrite Hrun in Hres. simpl in Hres. injection Hres as ->.
  destruct (Hnext eq_refl) as (Hpresent & Hthrows).
  exists w2. split; [exact Hrun |]. split; [exact Hpresent |].
  destruct (Hthrows 4096 (monitored_allocator 4 0)) as (w3 & e & Hde & _).
  - change (walked (_page_size (os_ok 4096)) 0 (2048 * 4)) with [0; 4096].
    right. left.
  - change (walked (_page_size (os_ok 4096)) 0 2048) with [0].
    intros Hin. apply list_elem_of_singleton in Hin. discriminate.
  - exists w3, e. exact Hde.
Defined.

(** ** The arena of the tests *)

Lemma acquire_spec (m : mock.memory) (n : Z) :
  mock.well_placed m →
  0 ≤ n < 2 ^ 64 - mock.memory_size →
  if decide (mock._next_allocation_offset m + n ≤ mock.memory_size)
  then mock.acquire m n =
         (mock.Memory (mock._memory m) (mock._next_allocation_offset m + n),
          mock.Block (mock._memory m + mock._next_allocation_offset m))
  else mock.acquire m n = (m, mock.bad_alloc).
Proof.
  intros (Hd & Hend & Hoff) Hn. unfold mock.acquire.
  assert (Hsz : mock.memory_size = 65536) by reflexivity.
  rewrite wrap64_small by lia.
  case_decide as Hfit.
  - destruct (Z.ltb_spec mock.memory_size (mock._next_allocation_offset m + n));
      [lia | reflexivity].
  - destruct (Z.ltb_spec mock.memory_size (mock._next_allocation_offset m + n));
      [reflexivity | lia].
Qed.

Lemma is_mock_memory_spec (m : mock.memory) (a : Z) :
  0 ≤ mock._memory m → mock._memory m + mock.memory_size ≤ 2 ^ 64 →
  0 ≤ a < 2 ^ 64 →
  mock.is_mock_memory m a = true ↔
  mock._memory m ≤ a < mock._memory m + mock.memory_size.
Proof.
  intros Hd Hend Ha. unfold mock.is_mock_memory. cbv zeta.
  rewrite andb_true_iff, Z.leb_le, Z.ltb_lt. split.
  - intros [Hle Hlt]. rewrite wrap64_small in Hlt by lia. lia.
  - intros [Hle Hlt]. rewrite wrap64_small by lia. lia.
Qed.

Lemma acquire_all_spec (ns : list Z) : ∀ (m m' : mock.memory) rs,
  mock.well_placed m →
  Forall (λ n, 0 ≤ n < 2 ^ 64 - mock.memory_size) ns →
  mock.acquire_all m ns = (m', rs) →
  mock._memory m' = mock._memory m ∧
  mock._next_allocation_offset m ≤ mock._next_allocation_offset m' ≤ mock.memory_size ∧
  (∀ n r, (n, mock.Block r) ∈ rs →
     mock._memory m + mock._next_allocation_offset m ≤ r ∧
     r + n ≤ mock._memory m + mock._next_allocation_offset m') ∧
  (∀ l1 l2 l3 n1 r1 n2 r2,
     rs = l1 ++ (n1, mock.Block r1) :: l2 ++ (n2, mock.Block r2) :: l3 →
     r1 + n1 ≤ r2) ∧
  (∀ n, (n, mock.bad_alloc) ∈ rs →
        mock.memory_size < mock._next_allocation_offset m' + n) ∧
  (mock._next_allocation_offset m + foldr Z.add 0 ns ≤ mock.memory_size →
   ∀ n, (n, mock.bad_alloc) ∉ rs).
Proof.
  induction ns as [| n ns IH]; intros m m' rs Hm Hns Hrun.
  - simpl in Hrun. injection Hrun as <- <-. destruct Hm as (? & ? & ?).
    split; [reflexivity |]. split; [lia |].
    split; [intros ? ? Hin; inversion Hin |].
    split; [intros [] ? ? ? ? ? ? Heq; discriminate |].
    split; [intros ? Hin; inversion Hin |].
    intros _ ? Hin; inversion Hin.
  - apply Forall_cons in Hns as [Hn Hns].
    pose proof (acquire_spec m n Hm Hn) as Hstep.
    simpl in Hrun. destruct (mock.acquire m n) as [m1 r] eqn:Hacq.
    destruct (mock.acquire_all m1 ns) as [m2 rs'] eqn:Hrest.
    injection Hrun as <- <-.
    assert (Hm1 : mock.well_placed m1 ∧ mock._memory m1 = mock._memory m ∧
                  mock._next_allocation_offset m ≤ mock._next_allocation_offset m1 ∧
                  match r with
                  | mock.Block p =>
                      p = mock._memory m + mock._next_allocation_offset m ∧
                      mock._next_allocation_offset m1 =
                        mock._next_allocation_offset m + n
                  | mock.bad_alloc =>
                      m1 = m ∧
                      mock.memory_size < mock._next_allocation_offset m + n
                  end).
    { destruct Hm as (Hd & Hend & Hoff).
      case_decide as Hfit; injection Hstep as -> ->; simpl;
        unfold mock.well_placed; simpl; repeat split; lia. }
    destruct Hm1 as (Hwp1 & Hd1 & Hmono & Hr).
    destruct (IH m1 m2 rs' Hwp1 Hns Hrest)
      as (Hd2 & Hoff2 & Hin2 & Hord2 & Hbad2 & Hall2).
    split; [congruence |]. split; [lia |].
    assert (Hblocks : ∀ n0 r0, (n0, mock.Block r0) ∈ (n, r) :: rs' →
              mock._memory m + mock._next_allocation_offset m ≤ r0 ∧
              r0 + n0 ≤ mock._memory m + mock._next_allocation_offset m2).
    { intros n0 r0 Hin. apply elem_of_cons in Hin as [[= -> <-] | Hin].
      - destruct Hr as [-> Hoff1]. lia.
      - destruct (Hin2 n0 r0 Hin). lia. }
    split; [exact Hblocks |]. split; [| split].
    + intros l1 l2 l3 n1 r1 n2 r2 Heq. destruct l1 as [| x l1]; simpl in Heq.
      * injection Heq as -> -> ->. destruct Hr as [-> Hoff1].
        destruct (Hin2 n2 r2) as [Hlo _]; [| lia].
        apply elem_of_app. right. left.
      * injection Heq as _ ->. exact (Hord2 _ _ _ _ _ _ _ eq_refl).
    + intros n0 Hin. apply elem_of_cons in Hin as [[= -> <-] | Hin].
      * destruct Hr as [_ Hbad]. lia.
      * specialize (Hbad2 n0 Hin). lia.
    + intros Hsum n0 Hin. simpl in Hsum.
      apply elem_of_cons in Hin as [[= -> <-] | Hin].
      * destruct Hr as [_ Hbad].
        assert (0 ≤ foldr Z.add 0 ns).
        { clear -Hns. induction Hns; simpl; lia. }
        lia.
      * destruct r as [p |].
        -- destruct Hr as [_ Hoff1]. apply (Hall2 ltac:(lia) n0 Hin).
        -- destruct Hr as [_ Hbad].
           assert (0 ≤ foldr Z.add 0 ns).
           { clear -Hns. induction Hns; simpl; lia. }
           lia.
Qed.

(** X12.  The arena of the tests, from a state whose offset lies inside the
    array and for requests small enough for [_next_allocation_offset + n] not
    to wrap: the blocks [acquire] hands out lie inside the array, every byte
    of a block is recognised by [is_mock_memory], a later block starts where
    an earlier one ends or after it, a request is refused only when it does
    not fit into what is left, and no request is refused while the sum of the
    requests fits. *)
Theorem acquire_blocks_do_not_overlap
    (m m' : mock.memory) (ns : list Z) (rs : list (Z * mock.acquired)) :
  mock.well_placed m →
  Forall (λ n, 0 ≤ n < 2 ^ 64 - mock.memory_size) ns →
  mock.acquire_all m ns = (m', rs) →
  mock.well_placed m' ∧
  (∀ n r, (n, mock.Block r) ∈ rs →
     ∀ a, r ≤ a < r + n → mock.is_mock_memory m' a = true) ∧
  (∀ l1 l2 l3 n1 r1 n2 r2,
     rs = l1 ++ (n1, mock.Block r1) :: l2 ++ (n2, mock.Block r2) :: l3 →
     r1 + n1 ≤ r2) ∧
  (∀ n, (n, mock.bad_alloc) ∈ rs →
        mock.memory_size < mock._next_allocation_offset m' + n) ∧
  (mock._next_allocation_offset m + foldr Z.add 0 ns ≤ mock.memory_size →
   ∀ n, (n, mock.bad_alloc) ∉ rs).
Proof.
  intros Hm Hns Hrun.
  destruct (acquire_all_spec ns m m' rs Hm Hns Hrun)
    as (Hd & Hoff & Hin & Hord & Hbad & Hall).
  destruct Hm as (Hd0 & Hend & Hoff0).
  split; [unfold mock.well_placed; rewrite Hd; lia |].
  split; [| split; [exact Hord | split; [exact Hbad | exact Hall]]].
  intros n r Hr a Ha. destruct (Hin n r Hr) as [Hlo Hhi].
  apply is_mock_memory_spec; rewrite ?Hd; lia.
Qed.

Lemma acquire_blocks_do_not_overlap_witness :
  let m := mock.Memory 65536 0 in
  mock.well_placed m ∧
  Forall (λ n, 0 ≤ n < 2 ^ 64 - mock.memory_size) [4096; 65536; 61440; 1] ∧
  mock.acquire_all m [4096; 65536; 61440; 1] =
    (mock.Memory 65536 65536,
     [(4096, mock.Block 65536); (65536, mock.bad_alloc);
      (61440, mock.Block 69632); (1, mock.bad_alloc)]) ∧
  ∀ a, 69632 ≤ a < 69632 + 61440 →
       mock.is_mock_memory (mock.Memory 65536 65536) a = true.
Proof.
  intros m.
  assert (Hm : mock.well_placed m).
  { unfold mock.well_placed. simpl. change mock.memory_size with 65536. lia. }
  assert (Hns : Forall (λ n, 0 ≤ n < 2 ^ 64 - mock.memory_size)
                       [4096; 65536; 61440; 1]).
  { change mock.memory_size with 65536. repeat constructor; lia. }
  split; [exact Hm |]. split; [exact Hns |]. split; [reflexivity |].
  destruct (acquire_blocks_do_not_overlap m _ _ _ Hm Hns eq_refl)
    as (_ & Hin & _).
  apply (Hin 61440 69632). right. right. left.
Defined.

(** Without the bound on the request the sum wraps: the request is granted
    and the offset moves backwards, into blocks handed out before. *)
Example acquire_oversized_request :
  mock.acquire (mock.Memory 65536 16) (2 ^ 64 - 8) =
    (mock.Memory 65536 8, mock.Block 65552).
Proof. reflexivity. Qed.
